(** * MPlib / SAPIEN bridge: [mplib/sapien_utils/conversion.py]

    A shallow embedding of the synchronisation and conversion layer between
    a SAPIEN scene and an mplib planning world, together with the properties
    of that layer.

    Conventions of the embedding.
    - Python floats are idealised as real numbers ([R]); [np.pi] is [PI].
    - Python strings are [string]; Python [int] is [Z]; [str(int)] is
      stdpp's [pretty] on [Z] (decimal digits, a leading dash when
      negative).
    - Python exceptions are a sum type [Exception]; a method that mutates
      the planning world, warns, or calls the collision backend is a
      computation in the monad [M], which threads the world and a log of
      effects and keeps both when an exception is raised. *)

From Stdlib Require Import Reals RNsatz Lra Lia ZArith List Ascii String.
From stdpp Require Import base option list strings pretty gmap.

Local Open Scope string_scope.
Local Open Scope list_scope.

(** ** Numbers, vectors, quaternions *)

Module Geometry.

Local Open Scope R_scope.

Record Vec3 := mkVec3 { vx : R; vy : R; vz : R }.

Definition vzero : Vec3 := mkVec3 0 0 0.
Definition vadd (a b : Vec3) : Vec3 :=
  mkVec3 (vx a + vx b) (vy a + vy b) (vz a + vz b).
Definition vscale (k : R) (a : Vec3) : Vec3 :=
  mkVec3 (vx a * k) (vy a * k) (vz a * k).
(** numpy's elementwise product of two 3-vectors. *)
Definition vmul (a b : Vec3) : Vec3 :=
  mkVec3 (vx a * vx b) (vy a * vy b) (vz a * vz b).
(** [a.dot(b)] *)
Definition dot (a b : Vec3) : R := vx a * vx b + vy a * vy b + vz a * vz b.

Definition e_x : Vec3 := mkVec3 1 0 0.
Definition e_y : Vec3 := mkVec3 0 1 0.
Definition e_z : Vec3 := mkVec3 0 0 1.

(** A quaternion in the order [w, x, y, z], as transforms3d, SAPIEN and
    mplib all store it. *)
Record Quat := mkQuat { qw : R; qx : R; qy : R; qz : R }.

Definition qidentity : Quat := mkQuat 1 0 0 0.
Definition qnorm2 (q : Quat) : R :=
  qw q * qw q + qx q * qx q + qy q * qy q + qz q * qz q.
Definition qnorm (q : Quat) : R := sqrt (qnorm2 q).

(** Hamilton product. *)
Definition qmul (a b : Quat) : Quat :=
  mkQuat (qw a * qw b - qx a * qx b - qy a * qy b - qz a * qz b)
         (qw a * qx b + qx a * qw b + qy a * qz b - qz a * qy b)
         (qw a * qy b - qx a * qz b + qy a * qw b + qz a * qx b)
         (qw a * qz b + qx a * qy b - qy a * qx b + qz a * qw b).

(** The conjugate, which for a quaternion of norm one is its inverse. *)
Definition qconjugate (a : Quat) : Quat :=
  mkQuat (qw a) (- qx a) (- qy a) (- qz a).

(** Division of every coefficient by the norm. *)
Definition qnormalized (q : Quat) : Quat :=
  mkQuat (qw q / qnorm q) (qx q / qnorm q) (qy q / qnorm q) (qz q / qnorm q).

(** A 3x3 matrix, by rows. *)
Record Mat3 := mkMat3 { row0 : Vec3; row1 : Vec3; row2 : Vec3 }.

Definition mat_vec (m : Mat3) (v : Vec3) : Vec3 :=
  mkVec3 (dot (row0 m) v) (dot (row1 m) v) (dot (row2 m) v).
Definition col0 (m : Mat3) : Vec3 :=
  mkVec3 (vx (row0 m)) (vx (row1 m)) (vx (row2 m)).
Definition transpose (m : Mat3) : Mat3 :=
  mkMat3 (mkVec3 (vx (row0 m)) (vx (row1 m)) (vx (row2 m)))
         (mkVec3 (vy (row0 m)) (vy (row1 m)) (vy (row2 m)))
         (mkVec3 (vz (row0 m)) (vz (row1 m)) (vz (row2 m))).

(** The rotation matrix of a quaternion. *)
Definition to_rotation_matrix (q : Quat) : Mat3 :=
  let w := qw q in let x := qx q in let y := qy q in let z := qz q in
  mkMat3
    (mkVec3 (1 - 2 * (y * y + z * z)) (2 * (x * y - w * z)) (2 * (x * z + w * y)))
    (mkVec3 (2 * (x * y + w * z)) (1 - 2 * (x * x + z * z)) (2 * (y * z - w * x)))
    (mkVec3 (2 * (x * z - w * y)) (2 * (y * z + w * x)) (1 - 2 * (x * x + y * y))).

Definition qrotate (q : Quat) (v : Vec3) : Vec3 := mat_vec (to_rotation_matrix q) v.

(** The rotation by a right angle about the y-axis. *)
Definition rot_y_90 : Mat3 :=
  mkMat3 (mkVec3 0 0 1) (mkVec3 0 1 0) (mkVec3 (-1) 0 0).

(** [transforms3d.euler.euler2quat(ai, aj, ak)] with its default axes
    ['sxyz'] (first axis 0, no parity, no repetition, static frame):
    the angles are halved and the quaternion assembled from the products
    of their cosines and sines. *)
Definition euler2quat (ai aj ak : R) : Quat :=
  let ai := ai / 2 in
  let aj := aj / 2 in
  let ak := ak / 2 in
  let ci := cos ai in let si := sin ai in
  let cj := cos aj in let sj := sin aj in
  let ck := cos ak in let sk := sin ak in
  let cc := ci * ck in let cs := ci * sk in
  let sc := si * ck in let ss := si * sk in
  mkQuat (cj * cc + sj * ss) (cj * sc - sj * cs)
         (cj * ss + sj * cc) (cj * cs - sj * sc).

(** ** Poses *)

(** [sapien.Pose]: the attributes [p] and [q] the module reads. *)
Record SapienPose := mkSapienPose { sp_p : Vec3; sp_q : Quat }.

Definition sapien_identity : SapienPose := mkSapienPose vzero qidentity.

(** Modelled from the spec: [mplib.Pose] is declared in mplib's compiled
    core, which is not part of the Python sources.  A pose is a rigid
    transform: a translation [p] and a rotation [q]; it has an identity, a
    composition ([*], [*=]) and a transformation matrix whose rotation part
    is the rotation matrix of [q].  Its constructors accept a quaternion
    that need not have norm one and store it normalised. *)
Record Pose := mkPose { p : Vec3; q : Quat }.

(** [Pose(p=..., q=...)] *)
Definition Pose_pq (p0 : Vec3) (q0 : Quat) : Pose := mkPose p0 (qnormalized q0).
(** [Pose()] *)
Definition Pose_default : Pose := mkPose vzero qidentity.
(** [Pose(q=...)] *)
Definition Pose_q (q0 : Quat) : Pose := Pose_pq vzero q0.
(** [Pose(obj)] for an object with attributes [p] and [q]. *)
Definition Pose_of (sp : SapienPose) : Pose := Pose_pq (sp_p sp) (sp_q sp).
(** [a * b] *)
Definition pose_mul (a b : Pose) : Pose :=
  Pose_pq (vadd (qrotate (q a) (p b)) (p a)) (qmul (q a) (q b)).
(** [a.inv()] *)
Definition pose_inv (a : Pose) : Pose :=
  Pose_pq (qrotate (qconjugate (q a)) (vscale (-1) (p a))) (qconjugate (q a)).
(** The rotation block [[:3, :3]] of [to_transformation_matrix()]. *)
Definition rotation_of (a : Pose) : Mat3 := to_rotation_matrix (q a).
(** [to_transformation_matrix()[:3, 0]] *)
Definition transformation_col0 (a : Pose) : Vec3 := col0 (rotation_of a).

End Geometry.

Import Geometry.

(** ** Exceptions and results *)

(** The exceptions the module raises.  Each constructor is one [raise]
    (or failing lookup) of the source:
    - [NotImplementedError_object]: "Unknown SAPIEN object type ..." of
      [convert_object_name];
    - [NotImplementedError_pair]: the last branch of the two queries;
    - [TypeError_shape]: "Unknown shape type: ..." of
      [convert_physx_component];
    - [RuntimeError_articulation name]: "Articulation {name} not found in
      PlanningWorld! The scene might have changed since last update.";
    - [RuntimeError_object name]: "Unknown SAPIEN object type: ... or Object
      {name} not found in PlanningWorld (The scene might have changed since
      last update)";
    - [AssertionError]: a failed [assert];
    - [AttributeError]: an attribute read on [None];
    - [IndexError]: [l[-1]] on an empty list. *)
Inductive Exception :=
| NotImplementedError_object
| NotImplementedError_pair
| TypeError_shape
| RuntimeError_articulation (name : string)
| RuntimeError_object (name : string)
| AssertionError
| AttributeError
| IndexError.

Inductive Result (A : Type) :=
| Ok (a : A)
| Raise (e : Exception).
Arguments Ok {A} a.
Arguments Raise {A} e.

Definition rbind {A B} (r : Result A) (k : A -> Result B) : Result B :=
  match r with
  | Ok a => k a
  | Raise e => Raise e
  end.

Declare Scope result_scope.
Delimit Scope result_scope with result.
Notation "'let?' x ':=' r 'in' k" := (rbind r (fun x => k))
  (at level 10, x name, r at level 100, k at level 200) : result_scope.

(** ** The SAPIEN side *)

(** A triangle of a mesh: three vertex indices. *)
Definition Face : Type := (nat * nat * nat).

(** [sapien.physx.PhysxCollisionShape*]: one constructor per class the
    module imports, with the attributes it reads, and a last one for a
    shape of any other class. *)
Inductive PhysxCollisionShape :=
| PhysxCollisionShapeBox (local_pose : SapienPose) (half_size : Vec3)
| PhysxCollisionShapeCapsule (local_pose : SapienPose) (radius half_length : R)
| PhysxCollisionShapeConvexMesh (local_pose : SapienPose)
    (vertices : list Vec3) (triangles : list Face) (scale : Vec3)
| PhysxCollisionShapeCylinder (local_pose : SapienPose) (radius half_length : R)
| PhysxCollisionShapePlane (local_pose : SapienPose)
| PhysxCollisionShapeSphere (local_pose : SapienPose) (radius : R)
| PhysxCollisionShapeTriangleMesh (local_pose : SapienPose)
    (vertices : list Vec3) (triangles : list Face)
| PhysxCollisionShapeOther (local_pose : SapienPose).

(** [shape.local_pose] *)
Definition local_pose (shape : PhysxCollisionShape) : SapienPose :=
  match shape with
  | PhysxCollisionShapeBox lp _
  | PhysxCollisionShapeCapsule lp _ _
  | PhysxCollisionShapeConvexMesh lp _ _ _
  | PhysxCollisionShapeCylinder lp _ _
  | PhysxCollisionShapePlane lp
  | PhysxCollisionShapeSphere lp _
  | PhysxCollisionShapeTriangleMesh lp _ _
  | PhysxCollisionShapeOther lp => lp
  end.

(** A shape of one of the seven classes the conversion knows. *)
Definition supported (shape : PhysxCollisionShape) : bool :=
  match shape with
  | PhysxCollisionShapeOther _ => false
  | _ => true
  end.

(** [sapien.Entity]: the attributes the module reads. *)
Module Entity.
Record t := mk {
  name : string;
  per_scene_id : Z;
  pose : SapienPose
}.
End Entity.

(** [sapien.physx.PhysxRigidBaseComponent].  [is_link] tells whether the
    component is a [PhysxArticulationLinkComponent]; [entity] is the
    entity that owns the component. *)
Module PhysxRigidBaseComponent.
Record t := mk {
  name : string;
  is_link : bool;
  collision_shapes : list PhysxCollisionShape;
  entity : Entity.t
}.
End PhysxRigidBaseComponent.

(** [sapien.physx.PhysxArticulation]: [root] and [links] are link
    components. *)
Module PhysxArticulation.
Record t := mk {
  name : string;
  root : PhysxRigidBaseComponent.t;
  links : list PhysxRigidBaseComponent.t;
  root_pose : SapienPose;
  qpos : list R
}.
End PhysxArticulation.

(** An entity returned by [Scene.get_all_actors()], with the result of its
    [find_component_by_type(PhysxRigidBaseComponent)]: the component, or
    [None]. *)
Module Actor.
Record t := mk {
  entity : Entity.t;
  find_component : option PhysxRigidBaseComponent.t
}.
End Actor.

(** The current state of a [sapien.Scene], as the module enumerates it. *)
Module Scene.
Record t := mk {
  get_all_articulations : list PhysxArticulation.t;
  get_all_actors : list Actor.t
}.
End Scene.

(** A value passed where the source expects
    [Union[PhysxArticulation, Entity]]; [OtherObject] is a value of any
    other type, with its [name] attribute when it has one. *)
Inductive SapienObject :=
| IsArticulation (a : PhysxArticulation.t)
| IsEntity (e : Entity.t)
| OtherObject (name : option string).

(** ** The entities of a scene *)

(** The articulations and the standalone bodies a scene enumerates. *)
Definition scene_objects (s : Scene.t) : list SapienObject :=
  map IsArticulation (Scene.get_all_articulations s) ++
  map (fun actor => IsEntity (Actor.entity actor)) (Scene.get_all_actors s).

(** The per-scene id a unique name is derived from: that of the entity of
    the root link for an articulation, its own for an entity. *)
Definition scene_id_of (obj : SapienObject) : option Z :=
  match obj with
  | IsArticulation a =>
      Some (Entity.per_scene_id
              (PhysxRigidBaseComponent.entity (PhysxArticulation.root a)))
  | IsEntity e => Some (Entity.per_scene_id e)
  | OtherObject _ => None
  end.

(** The name an object is declared with. *)
Definition declared_name (obj : SapienObject) : option string :=
  match obj with
  | IsArticulation a => Some (PhysxArticulation.name a)
  | IsEntity e => Some (Entity.name e)
  | OtherObject name => name
  end.

(** ** The planning side: collision geometry *)

(** The three-phase construction of a [BVHModel]. *)
Inductive BVHBuildState := BVH_empty | BVH_begun | BVH_processed.

Module BVHModel.
Record t := mk {
  build_state : BVHBuildState;
  sub_models : list (list Vec3 * list Face)
}.
(** [BVHModel()] *)
Definition new : t := mk BVH_empty [].
Definition begin_model (m : t) : t := mk BVH_begun (sub_models m).
Definition add_sub_model (vertices : list Vec3) (faces : list Face) (m : t) : t :=
  mk (build_state m) (sub_models m ++ [(vertices, faces)]).
Definition end_model (m : t) : t := mk BVH_processed (sub_models m).
End BVHModel.

(** [mplib.collision_detection.fcl.CollisionGeometry] and its subclasses,
    each with the arguments of its constructor. *)
Inductive CollisionGeometry :=
| Box (side : Vec3)
| Capsule (radius lz : R)
| Convex (vertices : list Vec3) (faces : list Face)
| Cylinder (radius lz : R)
| Halfspace (n : Vec3) (d : R)
| Sphere (radius : R)
| BVH (model : BVHModel.t).

(** [CollisionObject(c_geom)] *)
Inductive CollisionObject :=
| mkCollisionObject (geometry : CollisionGeometry).

Definition geometry_of (o : CollisionObject) : CollisionGeometry :=
  match o with mkCollisionObject g => g end.

(** [FCLObject(name, pose, shapes, shape_poses)] *)
Module FCLObject.
Record t := mk {
  name : string;
  pose : Pose;
  shapes : list CollisionObject;
  shape_poses : list Pose
}.
End FCLObject.

(** ** Identity resolution *)

(** Whether the character [c] occurs in [s]. *)
Fixpoint occurs (c : ascii) (s : string) : bool :=
  match s with
  | EmptyString => false
  | String c' rest => if decide (c = c') then true else occurs c rest
  end.

(** [str(i)] for a Python [int]. *)
Definition str_of_int (i : Z) : string := pretty i.

(** [convert_object_name(obj)] *)
Definition convert_object_name (obj : SapienObject) : Result string :=
  match obj with
  | IsArticulation a =>
      Ok (PhysxArticulation.name a +:+ "_" +:+
          str_of_int (Entity.per_scene_id
                        (PhysxRigidBaseComponent.entity (PhysxArticulation.root a))))
  | IsEntity e =>
      Ok (Entity.name e +:+ "_" +:+ str_of_int (Entity.per_scene_id e))
  | OtherObject _ => Raise NotImplementedError_object
  end.

(** ** Geometry conversion *)

(** [l[-1]] *)
Definition getitem_last {A} (l : list A) : Result A :=
  match last l with
  | Some x => Ok x
  | None => Raise IndexError
  end.

(** [l[-1] = x] *)
Definition setitem_last {A} (l : list A) (x : A) : Result (list A) :=
  match l with
  | [] => Raise IndexError
  | _ => Ok (removelast l ++ [x])
  end.

(** [l[-1] *= x] on a list of poses. *)
Definition imul_last (l : list Pose) (x : Pose) : Result (list Pose) :=
  (let? y := getitem_last l in setitem_last l (pose_mul y x))%result.

(** The rotation that realigns the height axis of a capsule or cylinder:
    [Pose(q=euler2quat(0, np.pi / 2, 0))]. *)
Definition height_axis_fixup : Pose := Pose_q (euler2quat 0 (PI / 2) 0).

(** One iteration of the loop of [convert_physx_component] over
    [comp.collision_shapes], on the two lists [shapes] and [shape_poses]
    it grows. *)
Definition convert_shape_step
    (acc : list CollisionObject * list Pose) (shape : PhysxCollisionShape)
  : Result (list CollisionObject * list Pose) :=
  let '(shapes, shape_poses) := acc in
  let shape_poses := shape_poses ++ [Pose_of (local_pose shape)] in
  (let? converted :=
     match shape with
     | PhysxCollisionShapeBox _ half_size =>
         Ok (Box (vscale 2 half_size), shape_poses)
     | PhysxCollisionShapeCapsule _ radius half_length =>
         let c_geom := Capsule radius (half_length * 2) in
         let? shape_poses := imul_last shape_poses height_axis_fixup in
         Ok (c_geom, shape_poses)
     | PhysxCollisionShapeConvexMesh _ vertices triangles scale =>
         let scaled_vertices := map (fun v => vmul v scale) vertices in
         Ok (Convex scaled_vertices triangles, shape_poses)
     | PhysxCollisionShapeCylinder _ radius half_length =>
         let c_geom := Cylinder radius (half_length * 2) in
         let? shape_poses := imul_last shape_poses height_axis_fixup in
         Ok (c_geom, shape_poses)
     | PhysxCollisionShapePlane _ =>
         let? last_pose := getitem_last shape_poses in
         let n := transformation_col0 last_pose in
         let? last_pose := getitem_last shape_poses in
         let d := dot n (p last_pose) in
         let c_geom := Halfspace n d in
         let? shape_poses := setitem_last shape_poses Pose_default in
         Ok (c_geom, shape_poses)
     | PhysxCollisionShapeSphere _ radius =>
         Ok (Sphere radius, shape_poses)
     | PhysxCollisionShapeTriangleMesh _ vertices triangles =>
         let c_geom := BVHModel.new in
         let c_geom := BVHModel.begin_model c_geom in
         let c_geom := BVHModel.add_sub_model vertices triangles c_geom in
         let c_geom := BVHModel.end_model c_geom in
         Ok (BVH c_geom, shape_poses)
     | PhysxCollisionShapeOther _ => Raise TypeError_shape
     end in
   let '(c_geom, shape_poses) := converted in
   Ok (shapes ++ [mkCollisionObject c_geom], shape_poses))%result.

(** The whole loop. *)
Fixpoint convert_shapes_loop
    (acc : list CollisionObject * list Pose) (l : list PhysxCollisionShape)
  : Result (list CollisionObject * list Pose) :=
  match l with
  | [] => Ok acc
  | shape :: rest =>
      (let? acc := convert_shape_step acc shape in
       convert_shapes_loop acc rest)%result
  end.

(** [SapienPlanningWorld.convert_physx_component(comp)] *)
Definition convert_physx_component (comp : PhysxRigidBaseComponent.t)
  : Result (option FCLObject.t) :=
  (let? lists :=
     convert_shapes_loop ([], []) (PhysxRigidBaseComponent.collision_shapes comp) in
   let '(shapes, shape_poses) := lists in
   if decide (length shapes = 0%nat) then Ok None
   else
     let? name :=
       if PhysxRigidBaseComponent.is_link comp
       then Ok (PhysxRigidBaseComponent.name comp)
       else convert_object_name (IsEntity (PhysxRigidBaseComponent.entity comp)) in
     Ok (Some (FCLObject.mk name
                 (Pose_of (Entity.pose (PhysxRigidBaseComponent.entity comp)))
                 shapes shape_poses)))%result.

(** ** The planning world and its collision backend *)

(** Modelled from the spec: [mplib.collision_detection.AllowedCollision] is
    declared in mplib's compiled core.  The tags of the allowed-collision
    matrix: never-allow, always-allow, and a third one, which the spec
    calls default.  The module names only [NEVER]. *)
Inductive AllowedCollision := NEVER | ALWAYS | CONDITIONAL.

Global Instance AllowedCollision_eq_dec : EqDecision AllowedCollision.
Proof. solve_decision. Defined.

(** Modelled from the spec: [mplib.ArticulatedModel] is part of mplib's
    compiled core.  It is the planning-side mirror of one articulation: its
    name, the two textual descriptions it was built from, its per-link
    collision entries, its current base pose and its current joint
    configuration. *)
Module ArticulatedModel.
Record t := mk {
  name : string;
  urdf : string;
  srdf : string;
  collision_links : list FCLObject.t;
  base_pose : Pose;
  qpos : list R
}.
(** [art.set_base_pose(pose)] *)
Definition set_base_pose (new_pose : Pose) (m : t) : t :=
  mk (name m) (urdf m) (srdf m) (collision_links m) new_pose (qpos m).
(** [art.set_qpos(qpos, full=True)] *)
Definition set_qpos (new_qpos : list R) (m : t) : t :=
  mk (name m) (urdf m) (srdf m) (collision_links m) (base_pose m) new_qpos.
End ArticulatedModel.

(** [articulation.get_fcl_model()]: the collision model of an articulated
    model, a view of its links at its current configuration. *)
Module FCLModel.
Record t := mk { model : ArticulatedModel.t }.
End FCLModel.

(** Modelled from the spec: the attached-object record of mplib's core.  An
    object bound to the link [link_id] of the articulation named
    [articulation] by the relative pose [pose], with its touch links.  The
    collision entry it moves is the one registered under [name]. *)
Module AttachedBody.
Record t := mk {
  name : string;
  articulation : string;
  link_id : Z;
  pose : Pose;
  touch_links : list string
}.
(** [attached_body.pose = new_pose] *)
Definition set_pose (new_pose : Pose) (b : t) : t :=
  mk (name b) (articulation b) (link_id b) new_pose (touch_links b).
End AttachedBody.

(** [WorldCollisionResult(res, collision_type, object_name1, object_name2,
    link_name1, link_name2)] over the backend's result type. *)
Module WorldCollisionResult.
Record t {C : Type} := mk {
  res : C;
  collision_type : string;
  object_name1 : string;
  object_name2 : string;
  link_name1 : string;
  link_name2 : string
}.
Arguments t : clear implicits.
End WorldCollisionResult.

(** [WorldDistanceResult(res, min_distance, distance_type, object_name1,
    object_name2, link_name1, link_name2)] *)
Module WorldDistanceResult.
Record t {D : Type} := mk {
  res : D;
  min_distance : R;
  distance_type : string;
  object_name1 : string;
  object_name2 : string;
  link_name1 : string;
  link_name2 : string
}.
Arguments t : clear implicits.
End WorldDistanceResult.

(** What the module consumes from mplib's compiled collision backend and
    kinematics, none of which is Python source, taken as parameters: the
    allowed-collision
    matrix with its lookup, the two pairwise primitives with their result
    types, the queries of a kinematic collision model, the
    default-constructed distance record, and the world pose of the link an
    attached body is bound to. *)
Class Backend := {
  AllowedCollisionMatrix : Type;
  get_allowed_collision :
    AllowedCollisionMatrix -> string -> string -> option AllowedCollision;
  CollisionResult : Type;
  is_collision : CollisionResult -> bool;
  DistanceResult : Type;
  result_min_distance : DistanceResult -> R;
  collide : FCLObject.t -> FCLObject.t -> CollisionResult;
  distance : FCLObject.t -> FCLObject.t -> DistanceResult;
  check_collision_with :
    FCLModel.t -> FCLModel.t + FCLObject.t -> AllowedCollisionMatrix ->
    list (WorldCollisionResult.t CollisionResult);
  distance_with :
    FCLModel.t -> FCLModel.t + FCLObject.t -> AllowedCollisionMatrix ->
    WorldDistanceResult.t DistanceResult;
  WorldDistanceResult_new : WorldDistanceResult.t DistanceResult;
  get_attached_link_global_pose :
    gmap string ArticulatedModel.t -> AttachedBody.t -> Pose
}.

Section PlanningWorld.
Context `{Backend}.

(** Modelled from the spec: [mplib.PlanningWorld], the base class, is part
    of mplib's compiled core.  It is the aggregate of: the articulated
    models by name, the static and dynamic objects by name, the
    attached-object records by object name, the names of the articulations
    marked planned, and the allowed-collision matrix.  Objects are held by
    reference: an articulated model or a collision entry is the value under
    its name, and a method call on it updates that value. *)
Record PlanningWorld := mkWorld {
  articulation_map : gmap string ArticulatedModel.t;
  object_map : gmap string FCLObject.t;
  attached_body_map : gmap string AttachedBody.t;
  planned_articulations : gset string;
  acm_ : AllowedCollisionMatrix
}.

(** What a call leaves behind besides the world: the warning of
    [update_from_simulation] ("Entity {name} not found in PlanningWorld!
    ... Use PlanningWorld.add_object() to add the object.") and the calls
    into the collision backend. *)
Inductive Effect :=
| Warning_entity_not_found (name : string)
| Called_collide (a b : FCLObject.t)
| Called_distance (a b : FCLObject.t)
| Called_check_collision_with
    (m : FCLModel.t) (other : FCLModel.t + FCLObject.t) (acm : AllowedCollisionMatrix)
| Called_distance_with
    (m : FCLModel.t) (other : FCLModel.t + FCLObject.t) (acm : AllowedCollisionMatrix).

(** A method of the world: from the world before the call to the world
    after it, the effects in the order they happened, and the value
    returned or the exception raised.  The world and the effects up to a
    [raise] are kept. *)
Definition M (A : Type) : Type :=
  PlanningWorld -> PlanningWorld * list Effect * Result A.

Definition ret {A} (a : A) : M A := fun w => (w, [], Ok a).
Definition raise {A} (e : Exception) : M A := fun w => (w, [], Raise e).
Definition bind {A B} (m : M A) (k : A -> M B) : M B :=
  fun w =>
    match m w with
    | (w1, log1, Ok a) =>
        match k a w1 with
        | (w2, log2, r) => (w2, log1 ++ log2, r)
        end
    | (w1, log1, Raise e) => (w1, log1, Raise e)
    end.
Definition lift {A} (r : Result A) : M A := fun w => (w, [], r).
Definition get_world : M PlanningWorld := fun w => (w, [], Ok w).
Definition modify (f : PlanningWorld -> PlanningWorld) : M unit :=
  fun w => (f w, [], Ok tt).
Definition emit (e : Effect) : M unit := fun w => (w, [e], Ok tt).

Notation "x <~ m ;; k" := (bind m (fun x => k))
  (at level 100, m at next level, right associativity).
Notation "m ;;; k" := (bind m (fun _ => k))
  (at level 100, right associativity).

(** [for x in l: body(x)] *)
Fixpoint for_each {A} (body : A -> M unit) (l : list A) : M unit :=
  match l with
  | [] => ret tt
  | x :: rest => body x ;;; for_each body rest
  end.

(** *** Methods of the base class *)

(** [self.get_articulation(name)] *)
Definition get_articulation (name : string) : M (option ArticulatedModel.t) :=
  w <~ get_world ;; ret (articulation_map w !! name).

(** [self.get_object(name)] *)
Definition get_object (name : string) : M (option FCLObject.t) :=
  w <~ get_world ;; ret (object_map w !! name).

(** [self.get_attached_object(name)] *)
Definition get_attached_object (name : string) : M (option AttachedBody.t) :=
  w <~ get_world ;; ret (attached_body_map w !! name).

(** [PlanningWorld.add_object(fcl_obj)]: the entry is stored under its own
    name, replacing an entry of that name. *)
Definition PlanningWorld_add_object (fcl_obj : FCLObject.t) : M unit :=
  modify (fun w =>
    mkWorld (articulation_map w)
            (<[FCLObject.name fcl_obj := fcl_obj]> (object_map w))
            (attached_body_map w) (planned_articulations w) (acm_ w)).

(** A method call on the articulated model registered under [name]. *)
Definition update_articulation
    (name : string) (f : ArticulatedModel.t -> ArticulatedModel.t) : M unit :=
  modify (fun w =>
    mkWorld (alter f name (articulation_map w))
            (object_map w) (attached_body_map w)
            (planned_articulations w) (acm_ w)).

(** [attached_body.pose = new_pose] on the record of the object [name]. *)
Definition set_attached_pose (name : string) (new_pose : Pose) : M unit :=
  modify (fun w =>
    mkWorld (articulation_map w) (object_map w)
            (alter (AttachedBody.set_pose new_pose) name (attached_body_map w))
            (planned_articulations w) (acm_ w)).

(** [attached_body.update_pose()]: the world pose of the attached entry
    becomes the pose of its link composed with the relative pose. *)
Definition update_pose (name : string) : M unit :=
  modify (fun w =>
    match attached_body_map w !! name with
    | Some b =>
        let global := pose_mul (get_attached_link_global_pose (articulation_map w) b)
                               (AttachedBody.pose b) in
        mkWorld (articulation_map w)
                (alter (fun o => FCLObject.mk (FCLObject.name o) global
                                   (FCLObject.shapes o) (FCLObject.shape_poses o))
                       name (object_map w))
                (attached_body_map w) (planned_articulations w) (acm_ w)
    | None => w
    end).

(** *** [SapienPlanningWorld] *)

(** [SapienPlanningWorld.add_object(obj)]; the nested call
    [self.add_object(fcl_obj)] takes the second branch, the base method. *)
Definition add_object (obj : FCLObject.t + Actor.t) : M unit :=
  match obj with
  | inr entity =>
      match Actor.find_component entity with
      | None => raise AssertionError
      | Some component =>
          fcl_obj <~ lift (convert_physx_component component) ;;
          match fcl_obj with
          | Some fcl_obj => PlanningWorld_add_object fcl_obj
          | None => ret tt
          end
      end
  | inl obj => PlanningWorld_add_object obj
  end.

(** The body of the first loop of [update_from_simulation]. *)
Definition sync_articulation (articulation : PhysxArticulation.t) : M unit :=
  name <~ lift (convert_object_name (IsArticulation articulation)) ;;
  art <~ get_articulation name ;;
  match art with
  | Some _ =>
      update_articulation name
        (ArticulatedModel.set_base_pose (Pose_of (PhysxArticulation.root_pose articulation))) ;;;
      update_articulation name
        (ArticulatedModel.set_qpos (PhysxArticulation.qpos articulation))
  | None =>
      raise (RuntimeError_articulation (PhysxArticulation.name articulation))
  end.

(** The body of its second loop. *)
Definition sync_actor (update_attached_object : bool) (entity : Actor.t) : M unit :=
  object_name <~ lift (convert_object_name (IsEntity (Actor.entity entity))) ;;
  attached_body <~ get_attached_object object_name ;;
  match attached_body with
  | Some attached_body =>
      (if update_attached_object then
         w <~ get_world ;;
         set_attached_pose object_name
           (pose_mul
              (pose_inv (get_attached_link_global_pose (articulation_map w) attached_body))
              (Pose_of (Entity.pose (Actor.entity entity))))
       else ret tt) ;;;
      update_pose object_name
  | None =>
      fcl_obj <~ get_object object_name ;;
      match fcl_obj with
      | Some fcl_obj =>
          add_object (inl (FCLObject.mk object_name
                             (Pose_of (Entity.pose (Actor.entity entity)))
                             (FCLObject.shapes fcl_obj)
                             (FCLObject.shape_poses fcl_obj)))
      | None =>
          match Actor.find_component entity with
          | None => raise AttributeError
          | Some component =>
              if decide (0 < length (PhysxRigidBaseComponent.collision_shapes component))%nat
              then emit (Warning_entity_not_found (Entity.name (Actor.entity entity)))
              else ret tt
          end
      end
  end.

(** [SapienPlanningWorld.update_from_simulation(update_attached_object=...)],
    on the current state [sim_scene] of [self._sim_scene]. *)
Definition update_from_simulation
    (sim_scene : Scene.t) (update_attached_object : bool) : M unit :=
  for_each sync_articulation (Scene.get_all_articulations sim_scene) ;;;
  for_each (sync_actor update_attached_object) (Scene.get_all_actors sim_scene).

(** [self._get_collision_obj(obj)] *)
Definition _get_collision_obj (obj : SapienObject)
  : M (FCLModel.t + FCLObject.t) :=
  let not_found : M (FCLModel.t + FCLObject.t) :=
    match obj with
    | IsArticulation a => raise (RuntimeError_object (PhysxArticulation.name a))
    | IsEntity e => raise (RuntimeError_object (Entity.name e))
    | OtherObject (Some name) => raise (RuntimeError_object name)
    | OtherObject None => raise AttributeError
    end in
  match obj with
  | IsArticulation _ =>
      name <~ lift (convert_object_name obj) ;;
      articulation <~ get_articulation name ;;
      match articulation with
      | Some articulation => ret (inl (FCLModel.mk articulation))
      | None => not_found
      end
  | IsEntity _ =>
      name <~ lift (convert_object_name obj) ;;
      fcl_obj <~ get_object name ;;
      match fcl_obj with
      | Some fcl_obj => ret (inr fcl_obj)
      | None => not_found
      end
  | OtherObject _ => not_found
  end.

(** The calls into the backend, each leaving its trace. *)
Definition call_collide (a b : FCLObject.t) : M CollisionResult :=
  emit (Called_collide a b) ;;; ret (collide a b).
Definition call_distance (a b : FCLObject.t) : M DistanceResult :=
  emit (Called_distance a b) ;;; ret (distance a b).
Definition call_check_collision_with
    (m : FCLModel.t) (other : FCLModel.t + FCLObject.t) (acm : AllowedCollisionMatrix)
  : M (list (WorldCollisionResult.t CollisionResult)) :=
  emit (Called_check_collision_with m other acm) ;;;
  ret (check_collision_with m other acm).
Definition call_distance_with
    (m : FCLModel.t) (other : FCLModel.t + FCLObject.t) (acm : AllowedCollisionMatrix)
  : M (WorldDistanceResult.t DistanceResult) :=
  emit (Called_distance_with m other acm) ;;;
  ret (distance_with m other acm).

(** [acm_type is None or acm_type == AllowedCollision.NEVER] *)
Definition none_or_never (acm_type : option AllowedCollision) : bool :=
  match acm_type with
  | None => true
  | Some t => bool_decide (t = NEVER)
  end.

(** [self.check_collision_between(obj_A, obj_B, acm=acm)] *)
Definition check_collision_between
    (obj_A obj_B : SapienObject) (acm : AllowedCollisionMatrix)
  : M (list (WorldCollisionResult.t CollisionResult)) :=
  col_obj_A <~ _get_collision_obj obj_A ;;
  col_obj_B <~ _get_collision_obj obj_B ;;
  match obj_A, obj_B with
  | IsArticulation _, _ =>
      match col_obj_A with
      | inl fcl_model => call_check_collision_with fcl_model col_obj_B acm
      | inr _ => raise AssertionError
      end
  | _, IsArticulation _ =>
      match col_obj_B with
      | inl fcl_model => call_check_collision_with fcl_model col_obj_A acm
      | inr _ => raise AssertionError
      end
  | _, IsEntity _ =>
      match col_obj_A, col_obj_B with
      | inr col_obj_A, inr col_obj_B =>
          let acm_type :=
            get_allowed_collision acm (FCLObject.name col_obj_A)
                                      (FCLObject.name col_obj_B) in
          if none_or_never acm_type then
            result <~ call_collide col_obj_A col_obj_B ;;
            if is_collision result then
              ret [WorldCollisionResult.mk _ result "object_object"
                     (FCLObject.name col_obj_A) (FCLObject.name col_obj_B)
                     (FCLObject.name col_obj_A) (FCLObject.name col_obj_B)]
            else ret []
          else ret []
      | _, _ => raise AssertionError
      end
  | _, OtherObject _ => raise NotImplementedError_pair
  end.

(** [ret.min_distance if return_distance_only else ret] *)
Definition distance_return (return_distance_only : bool)
    (r : WorldDistanceResult.t DistanceResult)
  : R + WorldDistanceResult.t DistanceResult :=
  if return_distance_only then inl (WorldDistanceResult.min_distance r) else inr r.

(** [self.distance_between(obj_A, obj_B, acm=acm,
    return_distance_only=...)]: a float when [return_distance_only], the
    record otherwise. *)
Definition distance_between
    (obj_A obj_B : SapienObject) (acm : AllowedCollisionMatrix)
    (return_distance_only : bool)
  : M (R + WorldDistanceResult.t DistanceResult) :=
  col_obj_A <~ _get_collision_obj obj_A ;;
  col_obj_B <~ _get_collision_obj obj_B ;;
  let ret_ := WorldDistanceResult_new in
  ret_ <~
    match obj_A, obj_B with
    | IsArticulation _, _ =>
        match col_obj_A with
        | inl fcl_model => call_distance_with fcl_model col_obj_B acm
        | inr _ => raise AssertionError
        end
    | _, IsArticulation _ =>
        match col_obj_B with
        | inl fcl_model => call_distance_with fcl_model col_obj_A acm
        | inr _ => raise AssertionError
        end
    | _, IsEntity _ =>
        match col_obj_A, col_obj_B with
        | inr col_obj_A, inr col_obj_B =>
            let acm_type :=
              get_allowed_collision acm (FCLObject.name col_obj_A)
                                        (FCLObject.name col_obj_B) in
            if none_or_never acm_type then
              result <~ call_distance col_obj_A col_obj_B ;;
              ret (WorldDistanceResult.mk _ result (result_min_distance result)
                     "object_object"
                     (FCLObject.name col_obj_A) (FCLObject.name col_obj_B)
                     (FCLObject.name col_obj_A) (FCLObject.name col_obj_B))
            else ret ret_
        | _, _ => raise AssertionError
        end
    | _, OtherObject _ => raise NotImplementedError_pair
    end ;;
  ret (distance_return return_distance_only ret_).

(** *** Vocabulary of the properties *)

(** [self.get_articulation(convert_object_name(articulation))] *)
Definition lookup_articulation (w : PlanningWorld) (a : PhysxArticulation.t)
  : option ArticulatedModel.t :=
  match convert_object_name (IsArticulation a) with
  | Ok name => articulation_map w !! name
  | Raise _ => None
  end.

(** [self.get_object(convert_object_name(entity))] *)
Definition lookup_object (w : PlanningWorld) (e : Entity.t) : option FCLObject.t :=
  match convert_object_name (IsEntity e) with
  | Ok name => object_map w !! name
  | Raise _ => None
  end.

(** [self.get_attached_object(convert_object_name(entity))] *)
Definition lookup_attached (w : PlanningWorld) (e : Entity.t) : option AttachedBody.t :=
  match convert_object_name (IsEntity e) with
  | Ok name => attached_body_map w !! name
  | Raise _ => None
  end.

(** The names under which the world holds articulations, objects and
    attached objects, and the names marked planned. *)
Definition same_membership (w w' : PlanningWorld) : Prop :=
  dom (articulation_map w') = dom (articulation_map w) /\
  dom (object_map w') = dom (object_map w) /\
  dom (attached_body_map w') = dom (attached_body_map w) /\
  planned_articulations w' = planned_articulations w.

(** What [update_from_simulation] writes into a model. *)
Definition refresh (a : PhysxArticulation.t) (m : ArticulatedModel.t)
  : ArticulatedModel.t :=
  ArticulatedModel.set_qpos (PhysxArticulation.qpos a)
    (ArticulatedModel.set_base_pose (Pose_of (PhysxArticulation.root_pose a)) m).

(** An object the world can resolve to a collision representation: an
    articulation with a model under its unique name, an entity with a
    collision entry under its unique name. *)
Definition registered (w : PlanningWorld) (obj : SapienObject) : Prop :=
  match obj with
  | IsArticulation a => is_Some (lookup_articulation w a)
  | IsEntity e => is_Some (lookup_object w e)
  | OtherObject _ => False
  end.

(** [WorldCollisionResult(result, "object_object", A.name, B.name, A.name,
    B.name)] *)
Definition object_object_collision (a b : FCLObject.t)
  : WorldCollisionResult.t CollisionResult :=
  WorldCollisionResult.mk _ (collide a b) "object_object"
    (FCLObject.name a) (FCLObject.name b) (FCLObject.name a) (FCLObject.name b).

(** [WorldDistanceResult(result, result.min_distance, "object_object",
    A.name, B.name, A.name, B.name)] *)
Definition object_object_distance (a b : FCLObject.t)
  : WorldDistanceResult.t DistanceResult :=
  WorldDistanceResult.mk _ (distance a b) (result_min_distance (distance a b))
    "object_object"
    (FCLObject.name a) (FCLObject.name b) (FCLObject.name a) (FCLObject.name b).

End PlanningWorld.

(** ** A small scene and a stand-in backend *)

(** A backend for closed examples: the matrix is its own lookup function,
    a collision result is a boolean, a distance result is the distance,
    any two entries collide at distance zero, a kinematic model reports
    nothing, and every link sits at the origin. *)
Definition example_backend : Backend := {|
  AllowedCollisionMatrix := string -> string -> option AllowedCollision;
  get_allowed_collision := fun acm name1 name2 => acm name1 name2;
  CollisionResult := bool;
  is_collision := fun r => r;
  DistanceResult := R;
  result_min_distance := fun d => d;
  collide := fun _ _ => true;
  distance := fun _ _ => 0%R;
  check_collision_with := fun _ _ _ => [];
  distance_with := fun _ _ _ =>
    WorldDistanceResult.mk R 0%R 0%R "" "" "" "" "";
  WorldDistanceResult_new :=
    WorldDistanceResult.mk R (-1)%R (-1)%R "" "" "" "" "";
  get_attached_link_global_pose := fun _ _ => Pose_default
|}.

(** A link with one capsule, one cylinder and one plane. *)
Definition example_link : PhysxRigidBaseComponent.t :=
  PhysxRigidBaseComponent.mk "link" true
    [PhysxCollisionShapeCapsule sapien_identity 1 2;
     PhysxCollisionShapeCylinder sapien_identity 3 4;
     PhysxCollisionShapePlane sapien_identity]
    (Entity.mk "link_entity" 7 sapien_identity).

(** The entry it converts to. *)
Definition example_link_entry : FCLObject.t :=
  let n := transformation_col0 (Pose_of sapien_identity) in
  FCLObject.mk "link" (Pose_of sapien_identity)
    [mkCollisionObject (Capsule 1 (2 * 2));
     mkCollisionObject (Cylinder 3 (4 * 2));
     mkCollisionObject (Halfspace n (dot n (p (Pose_of sapien_identity))))]
    [pose_mul (Pose_of sapien_identity) height_axis_fixup;
     pose_mul (Pose_of sapien_identity) height_axis_fixup;
     Pose_default].

(** A body with one shape of a class the conversion does not know. *)
Definition example_unknown_shape_body : PhysxRigidBaseComponent.t :=
  PhysxRigidBaseComponent.mk "body" false
    [PhysxCollisionShapeOther sapien_identity]
    (Entity.mk "body" 3 sapien_identity).

(** A plane pose whose x-axis is the z-axis of the outer frame, three units
    along it: the rotation by a third of a turn about the diagonal
    (-1, -1, -1). *)
Definition example_plane_pose : SapienPose :=
  mkSapienPose (vscale 3 e_z) (mkQuat (1 / 2) (- (1 / 2)) (- (1 / 2)) (- (1 / 2))).

(** A ground body whose one shape is a plane at that pose. *)
Definition example_ground : PhysxRigidBaseComponent.t :=
  PhysxRigidBaseComponent.mk "ground" false
    [PhysxCollisionShapePlane example_plane_pose]
    (Entity.mk "ground" 5 sapien_identity).

(** Two boxes, a body with no shape, and a robot. *)
Definition example_box_A : Entity.t := Entity.mk "box" 1 sapien_identity.
Definition example_box_B : Entity.t := Entity.mk "box" 2 sapien_identity.
Definition example_marker : Entity.t := Entity.mk "marker" 3 sapien_identity.

Definition example_box_shape : PhysxCollisionShape :=
  PhysxCollisionShapeBox sapien_identity (mkVec3 1 1 1).

Definition example_box_component_A : PhysxRigidBaseComponent.t :=
  PhysxRigidBaseComponent.mk "box" false [example_box_shape] example_box_A.
Definition example_actor_A : Actor.t :=
  Actor.mk example_box_A (Some example_box_component_A).
Definition example_actor_B : Actor.t :=
  Actor.mk example_box_B
    (Some (PhysxRigidBaseComponent.mk "box" false [example_box_shape] example_box_B)).
Definition example_shapeless_body : PhysxRigidBaseComponent.t :=
  PhysxRigidBaseComponent.mk "marker" false [] example_marker.
Definition example_actor_marker : Actor.t :=
  Actor.mk example_marker (Some example_shapeless_body).

Definition example_robot : PhysxArticulation.t :=
  PhysxArticulation.mk "robot" example_link [example_link] sapien_identity [1; 2]%R.

Definition example_robot_model : ArticulatedModel.t :=
  ArticulatedModel.mk "robot_7" "" "" [] Pose_default [0; 0]%R.

Definition example_entry_A : FCLObject.t :=
  FCLObject.mk "box_1" Pose_default [mkCollisionObject (Box (mkVec3 2 2 2))] [Pose_default].
Definition example_entry_B : FCLObject.t :=
  FCLObject.mk "box_2" Pose_default [mkCollisionObject (Box (mkVec3 2 2 2))] [Pose_default].

Definition example_acm_empty : @AllowedCollisionMatrix example_backend :=
  fun _ _ => None.
Definition example_acm_never : @AllowedCollisionMatrix example_backend :=
  fun _ _ => Some NEVER.
Definition example_acm_always : @AllowedCollisionMatrix example_backend :=
  fun _ _ => Some ALWAYS.

(** A world with nothing registered, one with the robot only, and one with
    the robot and the two boxes. *)
Definition example_world_empty : @PlanningWorld example_backend :=
  mkWorld ∅ ∅ ∅ ∅ example_acm_empty.
Definition example_world_robot : @PlanningWorld example_backend :=
  mkWorld {[ "robot_7" := example_robot_model ]} ∅ ∅ ∅ example_acm_empty.
Definition example_world : @PlanningWorld example_backend :=
  mkWorld {[ "robot_7" := example_robot_model ]}
          (<["box_1" := example_entry_A]> {[ "box_2" := example_entry_B ]})
          ∅ ∅ example_acm_empty.

Definition example_scene : Scene.t :=
  Scene.mk [example_robot] [example_actor_A; example_actor_B; example_actor_marker].

(** The world with the robot only, after a synchronisation with the
    scene. *)
Definition example_world_synced : @PlanningWorld example_backend :=
  mkWorld {[ "robot_7" := refresh example_robot example_robot_model ]}
          ∅ ∅ ∅ example_acm_empty.

(** ** Further vocabulary: conversion *)

(** The shapes whose stored local pose is the source local pose as it is:
    every known class but the capsule, the cylinder and the plane. *)
Definition keeps_local_pose (shape : PhysxCollisionShape) : bool :=
  match shape with
  | PhysxCollisionShapeBox _ _
  | PhysxCollisionShapeConvexMesh _ _ _ _
  | PhysxCollisionShapeSphere _ _
  | PhysxCollisionShapeTriangleMesh _ _ _ => true
  | _ => false
  end.

(** A mesh shape with its vertices and triangles. *)
Definition example_triangle : list Vec3 * list Face :=
  ([mkVec3 0 0 0; mkVec3 1 0 0; mkVec3 0 1 0]%R, [(0, 1, 2)%nat]).

(** A body with a box, a sphere, a convex mesh scaled by (2, 3, 4) and a
    triangle mesh. *)
Definition example_mixed_body : PhysxRigidBaseComponent.t :=
  PhysxRigidBaseComponent.mk "mixed" false
    [PhysxCollisionShapeBox example_plane_pose (mkVec3 1 2 3);
     PhysxCollisionShapeSphere sapien_identity 5;
     PhysxCollisionShapeConvexMesh sapien_identity
       example_triangle.1 example_triangle.2 (mkVec3 2 3 4);
     PhysxCollisionShapeTriangleMesh sapien_identity
       example_triangle.1 example_triangle.2]%R
    (Entity.mk "mixed" 9 sapien_identity).

Definition example_mixed_entry : FCLObject.t :=
  FCLObject.mk "mixed_9" (Pose_of sapien_identity)
    [mkCollisionObject (Box (vscale 2 (mkVec3 1 2 3)));
     mkCollisionObject (Sphere 5);
     mkCollisionObject
       (Convex (map (fun v => vmul v (mkVec3 2 3 4)) example_triangle.1)
               example_triangle.2);
     mkCollisionObject
       (BVH (BVHModel.mk BVH_processed [example_triangle]))]%R
    [Pose_of example_plane_pose; Pose_of sapien_identity;
     Pose_of sapien_identity; Pose_of sapien_identity].

(** ** Further vocabulary: queries *)

Section QueryVocabulary.
Context `{Backend}.

(** What a query leaves behind: the world it was given, at most one call
    into the backend, and none when it raises. *)
Definition query_outcome {A} (w : PlanningWorld)
    (out : PlanningWorld * list Effect * Result A) : Prop :=
  out.1.1 = w /\
  (length out.1.2 <= 1)%nat /\
  (forall e, out.2 = Raise e -> out.1.2 = []).

End QueryVocabulary.

(** An actor whose component has a shape of an unknown class. *)
Definition example_actor_unknown : Actor.t :=
  Actor.mk (PhysxRigidBaseComponent.entity example_unknown_shape_body)
           (Some example_unknown_shape_body).

(** ** Further vocabulary: synchronisation *)

Section SynchronisationVocabulary.
Context `{Backend}.

(** What a synchronisation never writes: the shapes of an entry and their
    local poses; the link, the articulation and the touch links of an
    attached object; the description and the collision links of an
    articulated model. *)
Definition entry_shape_data (o : FCLObject.t) : list CollisionObject * list Pose :=
  (FCLObject.shapes o, FCLObject.shape_poses o).

Definition attachment_binding (b : AttachedBody.t) : string * string * Z * list string :=
  (AttachedBody.name b, AttachedBody.articulation b, AttachedBody.link_id b,
   AttachedBody.touch_links b).

Definition model_description (m : ArticulatedModel.t)
  : string * string * string * list FCLObject.t :=
  (ArticulatedModel.name m, ArticulatedModel.urdf m, ArticulatedModel.srdf m,
   ArticulatedModel.collision_links m).

Definition only_poses_differ (w w' : PlanningWorld) : Prop :=
  (forall n : string,
     entry_shape_data <$> (object_map w' !! n) =
     entry_shape_data <$> (object_map w !! n)) /\
  (forall n : string,
     attachment_binding <$> (attached_body_map w' !! n) =
     attachment_binding <$> (attached_body_map w !! n)) /\
  (forall n : string,
     model_description <$> (articulation_map w' !! n) =
     model_description <$> (articulation_map w !! n)) /\
  planned_articulations w' = planned_articulations w /\
  acm_ w' = acm_ w.

(** What a synchronisation does to the name of an entry: it keeps it, or
    replaces it by the name the entry is stored under. *)
Definition names_kept_or_keyed (w w' : PlanningWorld) : Prop :=
  forall (n : string) (o' : FCLObject.t),
    object_map w' !! n = Some o' ->
    exists o,
      object_map w !! n = Some o /\
      (FCLObject.name o' = FCLObject.name o \/ FCLObject.name o' = n).

(** A world whose entries are stored under their own names, as
    [add_object] and the constructor store them. *)
Definition stored_under_own_names (w : PlanningWorld) : Prop :=
  forall (n : string) (o : FCLObject.t),
    object_map w !! n = Some o -> FCLObject.name o = n.

(** Whether no model is registered for an articulation. *)
Definition articulation_missing (w : PlanningWorld) (a : PhysxArticulation.t) : bool :=
  match lookup_articulation w a with
  | Some _ => false
  | None => true
  end.

(** Whether the second loop has a branch for an actor that does not raise:
    the actor is attached, or registered, or has a rigid-body component. *)
Definition actor_handled (w : PlanningWorld) (actor : Actor.t) : bool :=
  match lookup_attached w (Actor.entity actor),
        lookup_object w (Actor.entity actor),
        Actor.find_component actor with
  | None, None, None => false
  | _, _, _ => true
  end.

End SynchronisationVocabulary.

(** An actor with no rigid-body component, and a scene that holds it. *)
Definition example_actor_bare : Actor.t :=
  Actor.mk (Entity.mk "light" 4 sapien_identity) None.

Definition example_scene_bare : Scene.t :=
  Scene.mk [example_robot] [example_actor_A; example_actor_bare].

(** The same two boxes after a move, and the scene with them. *)
Definition example_moved_pose : SapienPose := mkSapienPose (mkVec3 1 2 3) qidentity.

Definition example_box_A_moved : Entity.t := Entity.mk "box" 1 example_moved_pose.

Definition example_scene_moved : Scene.t :=
  Scene.mk [example_robot]
    [Actor.mk example_box_A_moved
       (Some (PhysxRigidBaseComponent.mk "box" false [example_box_shape]
                example_box_A_moved));
     example_actor_B].

(** ** The planner adapter: [SapienPlanner] *)

(** Modelled from the spec: the kinematics model of an articulated model
    is part of mplib's compiled core.  What the adapter reads from it: the
    link names, and for each joint its name, its type tag and its rows of
    limits, a lower and an upper bound per row. *)
Module Joint.
Record t := mk {
  name : string;
  type : string;
  limits : list (R * R)
}.
End Joint.

Module PinocchioModel.
Record t := mk {
  link_names : list string;
  joints : list Joint.t
}.
(** [get_link_names()] *)
Definition get_link_names (m : t) : list string := link_names m.
(** [get_joint_names()] *)
Definition get_joint_names (m : t) : list string := map Joint.name (joints m).
(** [get_joint_types()] *)
Definition get_joint_types (m : t) : list string := map Joint.type (joints m).
(** [get_joint_limits()]: one array of rows per joint. *)
Definition get_joint_limits (m : t) : list (list (R * R)) :=
  map Joint.limits (joints m).
End PinocchioModel.

(** The exceptions of the constructor of the adapter:
    - [NotImplementedError_planned]: "Must have exactly one planned
      articulation";
    - [AssertionError_end_effector]: "end-effector not found as one of the
      links in ...";
    - [AssertionError_limits]: "length of joint_vel_limits,
      joint_acc_limits, and move_group_joint_indices should equal and be
      <= number of total joints. ...";
    - [ValueError_concatenate]: [np.concatenate] of no array;
    - [ValueError_broadcast]: two operands whose lengths differ and are
      both other than one;
    - [TypeError_bitwise_and]: [&] on an array of floats, which is what an
      empty list converts to;
    - [KeyError name]: a dictionary lookup of a missing key. *)
Inductive PlannerException :=
| NotImplementedError_planned
| AssertionError_end_effector
| AssertionError_limits
| ValueError_concatenate
| ValueError_broadcast
| TypeError_bitwise_and
| KeyError (name : string).

Inductive PlannerResult (A : Type) :=
| Built (a : A)
| Fails (e : PlannerException).
Arguments Built {A} a.
Arguments Fails {A} e.

(** [d = {}] followed by [for i, x in enumerate(l): d[x] = i]. *)
Definition enumerate_dict (l : list string) : gmap string nat :=
  foldl (fun d ix => <[ix.2 := ix.1]> d) ∅ (imap (fun i x => (i, x)) l).

(** [np.concatenate(arrays)] of a list of arrays of rows. *)
Definition np_concatenate {A} (arrays : list (list A)) : PlannerResult (list A) :=
  match arrays with
  | [] => Fails ValueError_concatenate
  | _ => Built (concat arrays)
  end.

(** [np.ones(n)] *)
Definition np_ones (n : nat) : list R := replicate n 1%R.

(** [a & b] of a list of booleans and a boolean array: the list is
    converted to an array, an empty one to an array of floats; then
    elementwise, an operand of length one being repeated along the
    other. *)
Definition broadcast_and (a b : list bool) : PlannerResult (list bool) :=
  match a with
  | [] => Fails TypeError_bitwise_and
  | _ =>
      if decide (length a = length b) then Built (zip_with andb a b)
      else
        match a, b with
        | [x], _ => Built (map (andb x) b)
        | _, [y] => Built (map (fun x => andb x y) a)
        | _, _ => Fails ValueError_broadcast
        end
  end.

(** [x > y] on floats. *)
Definition Rgtb (x y : R) : bool := if Rgt_dec x y then true else false.

(** [[t.startswith("JointModelR") for t in joint_types] &
    (joint_limits[:, 1] - joint_limits[:, 0] > 2 * np.pi)] *)
Definition compute_equiv_joint_mask
    (joint_types : list string) (joint_limits : list (R * R))
  : PlannerResult (list bool) :=
  broadcast_and
    (map (String.prefix "JointModelR") joint_types)
    (map (fun row => Rgtb (row.2 - row.1) (2 * PI)) joint_limits).

(** The attributes the constructor sets, over the types of the world and
    of its allowed-collision matrix. *)
Module SapienPlanner.
Record t {World ACM : Type} := mk {
  planning_world : World;
  acm : ACM;
  robot : ArticulatedModel.t;
  pinocchio_model : PinocchioModel.t;
  user_link_names : list string;
  user_joint_names : list string;
  joint_name_2_idx : gmap string nat;
  link_name_2_idx : gmap string nat;
  move_group : string;
  move_group_joint_indices : list Z;
  joint_types : list string;
  joint_limits : list (R * R);
  joint_vel_limits : list R;
  joint_acc_limits : list R;
  move_group_link_id : nat;
  equiv_joint_mask : list bool
}.
Arguments t : clear implicits.
End SapienPlanner.

Section Planner.
Context `{Backend}.

(** What the adapter consumes from the planning backend, taken as
    parameters: the kinematics model of a robot, the joint indices of its
    move group once the move group is set, and the collisions of the robot
    with itself and with the world. *)
Class PlannerBackend := {
  get_pinocchio_model : ArticulatedModel.t -> PinocchioModel.t;
  get_move_group_joint_indices : ArticulatedModel.t -> string -> list Z;
  check_robot_collision :
    PlanningWorld -> ArticulatedModel.t -> string ->
    list (WorldCollisionResult.t CollisionResult)
}.
Context `{PlannerBackend}.

(** What the constructor leaves behind: the move group it sets on the
    robot, its warnings ("Robot's {link_name1} collides with {link_name2}
    of {object_name2} in initial state. ...") and the planner it builds on
    the world. *)
Inductive PlannerEffect :=
| Called_set_move_group (robot : ArticulatedModel.t) (move_group : string)
| Warning_initial_collision (link_name1 link_name2 object_name2 : string)
| Called_OMPLPlanner.

(** A step of the constructor: the effects so far, and a value or an
    exception. *)
Definition Build (A : Type) : Type := list PlannerEffect * PlannerResult A.

Definition build_ret {A} (a : A) : Build A := ([], Built a).
Definition build_fail {A} (e : PlannerException) : Build A := ([], Fails e).
Definition build_emit (effects : list PlannerEffect) : Build unit := (effects, Built tt).
Definition build_lift {A} (r : PlannerResult A) : Build A := ([], r).
Definition build_bind {A B} (m : Build A) (k : A -> Build B) : Build B :=
  match m with
  | (log1, Built a) => let '(log2, r) := k a in (log1 ++ log2, r)
  | (log1, Fails e) => (log1, Fails e)
  end.

Notation "x <~ m ;; k" := (build_bind m (fun x => k))
  (at level 100, m at next level, right associativity).
Notation "m ;;; k" := (build_bind m (fun _ => k))
  (at level 100, right associativity).

(** Modelled from the spec: [get_planned_articulations()] of the base
    class, the articulated models registered under the names marked
    planned. *)
Definition get_planned_articulations (w : PlanningWorld) : list ArticulatedModel.t :=
  omap (fun name => articulation_map w !! name) (elements (planned_articulations w)).

(** [a if a is not None else np.ones(n)] *)
Definition default_ones (limits : option (list R)) (n : nat) : list R :=
  match limits with
  | Some l => l
  | None => np_ones n
  end.

(** [d[key]] *)
Definition dict_getitem (d : gmap string nat) (key : string) : PlannerResult nat :=
  match d !! key with
  | Some v => Built v
  | None => Fails (KeyError key)
  end.

(** The warning for one collision of the initial state. *)
Definition warn_collision (collision : WorldCollisionResult.t CollisionResult)
  : PlannerEffect :=
  Warning_initial_collision
    (WorldCollisionResult.link_name1 collision)
    (WorldCollisionResult.link_name2 collision)
    (WorldCollisionResult.object_name2 collision).

(** [SapienPlanner.__init__(sapien_planning_world, move_group,
    joint_vel_limits=..., joint_acc_limits=...)] *)
Definition SapienPlanner_init
    (sapien_planning_world : PlanningWorld) (move_group : string)
    (joint_vel_limits joint_acc_limits : option (list R))
  : Build (SapienPlanner.t PlanningWorld AllowedCollisionMatrix) :=
  let planning_world := sapien_planning_world in
  let acm := acm_ planning_world in
  let planned_arts := get_planned_articulations planning_world in
  match planned_arts with
  | [robot] =>
      let pinocchio_model := get_pinocchio_model robot in
      let user_link_names := PinocchioModel.get_link_names pinocchio_model in
      let user_joint_names := PinocchioModel.get_joint_names pinocchio_model in
      let joint_name_2_idx := enumerate_dict user_joint_names in
      let link_name_2_idx := enumerate_dict user_link_names in
      if bool_decide (move_group ∈ user_link_names) then
        build_emit [Called_set_move_group robot move_group] ;;;
        let move_group_joint_indices := get_move_group_joint_indices robot move_group in
        let joint_types := PinocchioModel.get_joint_types pinocchio_model in
        joint_limits <~
          build_lift (np_concatenate (PinocchioModel.get_joint_limits pinocchio_model)) ;;
        let joint_vel_limits :=
          default_ones joint_vel_limits (length move_group_joint_indices) in
        let joint_acc_limits :=
          default_ones joint_acc_limits (length move_group_joint_indices) in
        move_group_link_id <~ build_lift (dict_getitem link_name_2_idx move_group) ;;
        let collisions := check_robot_collision planning_world robot move_group in
        build_emit (map warn_collision collisions) ;;;
        if bool_decide (length joint_vel_limits = length joint_acc_limits) &&
           bool_decide (length joint_acc_limits = length move_group_joint_indices) &&
           bool_decide (length move_group_joint_indices <= length joint_limits)%nat
        then
          equiv_joint_mask <~
            build_lift (compute_equiv_joint_mask joint_types joint_limits) ;;
          build_emit [Called_OMPLPlanner] ;;;
          build_ret
            (SapienPlanner.mk _ _ planning_world acm robot pinocchio_model
               user_link_names user_joint_names joint_name_2_idx link_name_2_idx
               move_group move_group_joint_indices joint_types joint_limits
               joint_vel_limits joint_acc_limits move_group_link_id
               equiv_joint_mask)
        else build_fail AssertionError_limits
      else build_fail AssertionError_end_effector
  | _ => build_fail NotImplementedError_planned
  end.

(** The chained comparison of the second assertion:
    [len(joint_vel_limits) == len(joint_acc_limits)
     == len(move_group_joint_indices) <= len(joint_limits)]. *)
Definition lengths_ok (v a : option (list R)) (indices : list Z) (rows : list (R * R)) : bool :=
  bool_decide (length (default_ones v (length indices)) =
               length (default_ones a (length indices))) &&
  bool_decide (length (default_ones a (length indices)) = length indices) &&
  bool_decide (length indices <= length rows)%nat.

End Planner.

(** A robot of three links and two joints, a hinge with a range wider than
    a full turn and a slider, for closed examples; its two joints are the
    move group of any link, and in the initial state its hand touches its
    own link. *)
Definition example_pinocchio_model : PinocchioModel.t :=
  PinocchioModel.mk ["base"; "link"; "hand"]
    [Joint.mk "hinge" "JointModelRZ" [((-5)%R, 5%R)];
     Joint.mk "slider" "JointModelPX" [(0%R, 1%R)]].

Definition example_self_collision
  : WorldCollisionResult.t (@CollisionResult example_backend) :=
  WorldCollisionResult.mk bool true "self" "robot_7" "robot_7" "hand" "link".

Definition example_planner_backend : @PlannerBackend example_backend :=
  @Build_PlannerBackend example_backend
    (fun _ => example_pinocchio_model)
    (fun _ _ => [0; 1]%Z)
    (fun _ _ _ => [example_self_collision]).

(** The world with the robot only, marked planned. *)
Definition example_world_planned : @PlanningWorld example_backend :=
  mkWorld {[ "robot_7" := example_robot_model ]} ∅ ∅ {[ "robot_7" ]} example_acm_empty.

(** The planner of its hand, with the default limits. *)
Definition example_planner
  : SapienPlanner.t (@PlanningWorld example_backend)
      (@AllowedCollisionMatrix example_backend) :=
  SapienPlanner.mk _ _ example_world_planned example_acm_empty
    example_robot_model example_pinocchio_model
    ["base"; "link"; "hand"] ["hinge"; "slider"]
    (<["slider" := 1%nat]> (<["hinge" := 0%nat]> ∅))
    (<["hand" := 2%nat]> (<["link" := 1%nat]> (<["base" := 0%nat]> ∅)))
    "hand" [0; 1]%Z ["JointModelRZ"; "JointModelPX"]
    [((-5)%R, 5%R); (0%R, 1%R)] [1%R; 1%R] [1%R; 1%R] 2
    [true && Rgtb (5 - -5) (2 * PI); false && Rgtb (1 - 0) (2 * PI)].

(** ** The constructor of [SapienPlanningWorld] *)

(** The collision links of an articulation:
    [[fcl_obj for link in articulation.links
      if (fcl_obj := self.convert_physx_component(link)) is not None]]. *)
Fixpoint collision_links (links : list PhysxRigidBaseComponent.t)
  : Result (list FCLObject.t) :=
  match links with
  | [] => Ok []
  | link :: rest =>
      (let? fcl_obj := convert_physx_component link in
       let? others := collision_links rest in
       Ok (match fcl_obj with
           | Some fcl_obj => fcl_obj :: others
           | None => others
           end))%result
  end.

(** A component with at least one collision shape. *)
Definition has_shapes (comp : PhysxRigidBaseComponent.t) : bool :=
  bool_decide (PhysxRigidBaseComponent.collision_shapes comp <> []).

(** A component all of whose shapes are of a class the conversion knows. *)
Definition convertible (comp : PhysxRigidBaseComponent.t) : bool :=
  forallb supported (PhysxRigidBaseComponent.collision_shapes comp).

Section Construction.
Context `{Backend}.

(** The body of the last loop of [SapienPlanningWorld.__init__]; its call
    [self.add_object(fcl_obj)] is the adapter's method, on an entry. *)
Definition register_actor (entity : Actor.t) : M unit :=
  match Actor.find_component entity with
  | None => raise AssertionError
  | Some component =>
      bind (lift (convert_physx_component component))
        (fun fcl_obj =>
           match fcl_obj with
           | Some fcl_obj => add_object (inl fcl_obj)
           | None => ret tt
           end)
  end.

(** The last loop of the constructor, over the actors of the scene. *)
Definition register_actors (sim_scene : Scene.t) : M unit :=
  for_each register_actor (Scene.get_all_actors sim_scene).

(** An actor as the simulator presents it: the rigid-body component found
    on it, if any, is a component of that entity and no articulation
    link. *)
Definition own_component (actor : Actor.t) : Prop :=
  forall component,
    Actor.find_component actor = Some component ->
    PhysxRigidBaseComponent.entity component = Actor.entity actor /\
    PhysxRigidBaseComponent.is_link component = false.

(** The entry the conversion gives for the component of an actor, if it
    gives one. *)
Definition actor_entry (actor : Actor.t) : option FCLObject.t :=
  match Actor.find_component actor with
  | Some component =>
      match convert_physx_component component with
      | Ok (Some entry) => Some entry
      | _ => None
      end
  | None => None
  end.

(** An actor the last loop of the constructor stops at: one with no
    rigid-body component, or with a shape of no known class. *)
Definition actor_rejected (actor : Actor.t) : bool :=
  match Actor.find_component actor with
  | Some component => negb (convertible component)
  | None => true
  end.

(** The unique name of the entity of an actor. *)
Definition actor_name (actor : Actor.t) : Result string :=
  convert_object_name (IsEntity (Actor.entity actor)).

End Construction.

(** ** The arguments of the wrapper methods *)

(** [names.index(name)]: the first index at which [names] holds [name],
    if there is one. *)
Definition list_index (name : string) (names : list string) : option nat :=
  fst <$> list_find (fun x => x = name) names.

(** What resolving the link argument of an attach method raises:
    - [AttributeError_get_pinocchio_model]: [get_pinocchio_model] read on
      the [None] that [get_articulation] returns for an unknown name;
    - [ValueError_index name]: "{name} is not in list" of [list.index]. *)
Inductive LinkException :=
| AttributeError_get_pinocchio_model
| ValueError_index (name : string).

Inductive LinkResult :=
| Link_id (link_id : Z)
| Link_raises (e : LinkException).

(** An argument of [set_allowed_collision], by the class the method finds
    it to be of: an [Entity], a [PhysxArticulationLinkComponent], or a
    name. *)
Inductive CollisionArgument :=
| OfEntity (obj : Entity.t)
| OfLink (obj : PhysxRigidBaseComponent.t)
| OfName (obj : string).

(** The name [set_allowed_collision] passes on for an argument:
    [convert_object_name(obj)] for an entity, [obj.name] for a link, the
    string as it is. *)
Definition collision_argument_name (obj : CollisionArgument) : Result string :=
  match obj with
  | OfEntity obj => convert_object_name (IsEntity obj)
  | OfLink obj => Ok (PhysxRigidBaseComponent.name obj)
  | OfName obj => Ok obj
  end.

(** The two names and the flag [set_allowed_collision] passes on to the
    base method. *)
Definition set_allowed_collision_arguments
    (obj1 obj2 : CollisionArgument) (allowed : bool)
  : Result (string * string * bool) :=
  (let? obj1 := collision_argument_name obj1 in
   let? obj2 := collision_argument_name obj2 in
   Ok (obj1, obj2, allowed))%result.

Section Wrappers.
Context `{PlannerBackend}.

(** The articulation argument of an attach method:
    [convert_object_name(articulation)] for a [PhysxArticulation], the
    string as it is. *)
Definition articulation_argument (articulation : PhysxArticulation.t + string)
  : Result string :=
  match articulation with
  | inl articulation => convert_object_name (IsArticulation articulation)
  | inr articulation => Ok articulation
  end.

(** The link argument of an attach method, with the articulation name
    already resolved: for a [PhysxArticulationLinkComponent],
    [self.get_articulation(articulation).get_pinocchio_model()
     .get_link_names().index(link.name)]; an index as it is. *)
Definition link_argument
    (w : PlanningWorld) (articulation : string)
    (link : PhysxRigidBaseComponent.t + Z) : LinkResult :=
  match link with
  | inl link =>
      match articulation_map w !! articulation with
      | Some model =>
          match list_index (PhysxRigidBaseComponent.name link)
                  (PinocchioModel.get_link_names (get_pinocchio_model model)) with
          | Some i => Link_id (Z.of_nat i)
          | None => Link_raises (ValueError_index (PhysxRigidBaseComponent.name link))
          end
      | None => Link_raises AttributeError_get_pinocchio_model
      end
  | inr link => Link_id link
  end.

End Wrappers.

(** The first box attached to the robot at the origin of a link, and the
    world with the robot, the box and this attachment. *)
Definition example_attached_box : AttachedBody.t :=
  AttachedBody.mk "box_1" "robot_7" 0 Pose_default [].

Definition example_world_attached : @PlanningWorld example_backend :=
  mkWorld {[ "robot_7" := example_robot_model ]}
          {[ "box_1" := example_entry_A ]}
          {[ "box_1" := example_attached_box ]}
          ∅ example_acm_empty.

(** * Properties *)

(** Unfolding of the monad and of the methods, and projection of the
    fields of a world. *)
Ltac run :=
  unfold check_collision_between, distance_between,
    sync_articulation, sync_actor, add_object, PlanningWorld_add_object,
    update_articulation, set_attached_pose, update_pose, _get_collision_obj,
    get_articulation, get_object, get_attached_object,
    call_collide, call_distance, call_check_collision_with, call_distance_with,
    bind, ret, raise, lift, get_world, modify, emit;
  cbn [fst snd].

Ltac project :=
  cbn [fst snd articulation_map object_map attached_body_map
       planned_articulations acm_] in *.

(** ** Arithmetic of the height-axis rotation *)

Section GeometryFacts.
Local Open Scope R_scope.

Lemma sqrt2_neq_0 : sqrt 2 <> 0.
Proof. apply Rgt_not_eq, Rlt_gt, sqrt_lt_R0. lra. Qed.

Lemma inv_sqrt2_sqr : / sqrt 2 * / sqrt 2 = / 2.
Proof.
  rewrite <- Rinv_mult. f_equal. apply sqrt_sqrt. lra.
Qed.

Lemma vec3_eq a b c a' b' c' :
  a = a' -> b = b' -> c = c' -> mkVec3 a b c = mkVec3 a' b' c'.
Proof. by intros -> -> ->. Qed.

Lemma quat_eq a b c d a' b' c' d' :
  a = a' -> b = b' -> c = c' -> d = d' -> mkQuat a b c d = mkQuat a' b' c' d'.
Proof. by intros -> -> -> ->. Qed.

(** A quaternion of norm one is stored as it is. *)
Lemma qnormalized_unit (a : Quat) : qnorm2 a = 1 -> qnormalized a = a.
Proof.
  intros Hn. destruct a as [w x y z]. unfold qnormalized, qnorm. rewrite Hn, sqrt_1.
  simpl. apply quat_eq; field.
Qed.

Lemma qnorm2_normalized (a : Quat) : qnorm2 a <> 0 -> qnorm2 (qnormalized a) = 1.
Proof.
  intros Hn.
  assert (Hpos : 0 <= qnorm2 a).
  { unfold qnorm2. nra. }
  assert (Hs : qnorm a * qnorm a = qnorm2 a) by (apply sqrt_sqrt; exact Hpos).
  assert (Hs0 : qnorm a <> 0).
  { intros E. rewrite E in Hs. lra. }
  destruct a as [w x y z]. unfold qnormalized, qnorm2 at 1. simpl.
  unfold qnorm2 in Hs. simpl in Hs.
  transitivity ((w * w + x * x + y * y + z * z) / (qnorm (mkQuat w x y z) * qnorm (mkQuat w x y z))).
  - field. exact Hs0.
  - rewrite Hs. field. unfold qnorm2 in Hn. simpl in Hn. exact Hn.
Qed.

(** The first column of the rotation matrix of a quaternion of norm one is
    a unit vector. *)
Lemma col0_unit (a : Quat) :
  qnorm2 a = 1 ->
  dot (col0 (to_rotation_matrix a)) (col0 (to_rotation_matrix a)) = 1.
Proof.
  destruct a as [w x y z]. unfold qnorm2, dot, col0, to_rotation_matrix. simpl.
  intros Hn.
  replace (1 - 2 * (y * y + z * z)) with (w * w + x * x - y * y - z * z) by lra.
  transitivity ((w * w + x * x + y * y + z * z) * (w * w + x * x + y * y + z * z)).
  - ring.
  - rewrite Hn. ring.
Qed.

(** The first column of a rotation matrix is the image of the x-axis. *)
Lemma col0_is_image_of_e_x (m : Mat3) : col0 m = mat_vec m e_x.
Proof.
  destruct m as [[a b c] [d e f] [g h i]]. unfold col0, mat_vec, dot, e_x. simpl.
  apply vec3_eq; ring.
Qed.

Lemma euler2quat_y_quarter_turn :
  euler2quat 0 (PI / 2) 0 = mkQuat (/ sqrt 2) 0 (/ sqrt 2) 0.
Proof.
  unfold euler2quat.
  replace (0 / 2) with 0 by field.
  replace (PI / 2 / 2) with (PI / 4) by field.
  rewrite cos_0, sin_0, cos_PI4, sin_PI4.
  apply quat_eq; field; apply sqrt2_neq_0.
Qed.

Lemma height_axis_fixup_value :
  height_axis_fixup = mkPose vzero (mkQuat (/ sqrt 2) 0 (/ sqrt 2) 0).
Proof.
  unfold height_axis_fixup, Pose_q, Pose_pq. rewrite euler2quat_y_quarter_turn.
  f_equal. apply qnormalized_unit. unfold qnorm2. simpl.
  pose proof inv_sqrt2_sqr. lra.
Qed.

Lemma height_axis_fixup_rotation : rotation_of height_axis_fixup = rot_y_90.
Proof.
  rewrite height_axis_fixup_value. unfold rotation_of, to_rotation_matrix, rot_y_90. simpl.
  pose proof inv_sqrt2_sqr as E.
  f_equal; apply vec3_eq; lra.
Qed.

Lemma Pose_of_identity : Pose_of sapien_identity = Pose_default.
Proof.
  unfold Pose_of, Pose_pq, Pose_default, sapien_identity. simpl. f_equal.
  apply qnormalized_unit. unfold qnorm2, qidentity. simpl. lra.
Qed.

Lemma pose_mul_default_l (a : Pose) :
  qnorm2 (q a) = 1 -> pose_mul Pose_default a = a.
Proof.
  destruct a as [[x y z] [w qx qy qz]]. simpl. intros Hn.
  unfold pose_mul, Pose_pq, Pose_default. simpl. f_equal.
  - unfold vadd, qrotate, mat_vec, dot, to_rotation_matrix, qidentity, vzero. simpl.
    apply vec3_eq; ring.
  - unfold qmul, qidentity. simpl.
    replace (mkQuat _ _ _ _) with (mkQuat w qx qy qz) by (apply quat_eq; ring).
    by apply qnormalized_unit.
Qed.

End GeometryFacts.

(** ** Geometry conversion *)

Section ConversionFacts.
Local Open Scope R_scope.

Lemma getitem_last_snoc {A} (l : list A) (x : A) : getitem_last (l ++ [x]) = Ok x.
Proof. unfold getitem_last. by rewrite last_snoc. Qed.

Lemma setitem_last_snoc {A} (l : list A) (x y : A) :
  setitem_last (l ++ [x]) y = Ok (l ++ [y]).
Proof.
  unfold setitem_last. destruct (l ++ [x]) eqn:E.
  - by destruct l.
  - by rewrite <- E, removelast_last.
Qed.

Lemma imul_last_snoc (l : list Pose) (x y : Pose) :
  imul_last (l ++ [x]) y = Ok (l ++ [pose_mul x y]).
Proof.
  unfold imul_last. rewrite getitem_last_snoc. simpl. apply setitem_last_snoc.
Qed.

(** An iteration from any two lists appends what the same iteration
    appends to two empty lists. *)
Lemma convert_shape_step_append shapes shape_poses shape :
  convert_shape_step (shapes, shape_poses) shape =
  (let? single := convert_shape_step ([], []) shape in
   Ok (shapes ++ single.1, shape_poses ++ single.2))%result.
Proof.
  destruct shape; unfold convert_shape_step;
    rewrite ?imul_last_snoc, ?getitem_last_snoc, ?setitem_last_snoc;
    simpl; rewrite ?(imul_last_snoc []), ?(getitem_last_snoc []),
                   ?(setitem_last_snoc []); try reflexivity.
Qed.

(** An iteration on a shape of a known class appends one geometry and one
    pose. *)
Lemma convert_shape_step_single shape :
  supported shape = true ->
  exists g pz, convert_shape_step ([], []) shape = Ok ([g], [pz]).
Proof.
  destruct shape; intros Hs; try discriminate; unfold convert_shape_step;
    simpl; rewrite ?(imul_last_snoc []), ?(getitem_last_snoc []),
                   ?(setitem_last_snoc []); simpl;
    rewrite ?(getitem_last_snoc []), ?(setitem_last_snoc []); simpl; eauto.
Qed.

Lemma convert_shape_step_unsupported acc shape :
  supported shape = false -> convert_shape_step acc shape = Raise TypeError_shape.
Proof. destruct acc, shape; intros Hs; try discriminate. reflexivity. Qed.

Lemma convert_shape_step_single_inv shape r :
  convert_shape_step ([], []) shape = Ok r ->
  supported shape = true /\ exists g pz, r = ([g], [pz]).
Proof.
  destruct (supported shape) eqn:Hs.
  - intros Hr. split; [reflexivity|].
    destruct (convert_shape_step_single _ Hs) as (g & pz & E).
    rewrite E in Hr. injection Hr as <-. eauto.
  - by rewrite convert_shape_step_unsupported.
Qed.

(** The loop appends, for each shape in order, the geometry and the pose of
    that shape. *)
Lemma convert_shapes_loop_ok l : forall shapes shape_poses shapes' shape_poses',
  convert_shapes_loop (shapes, shape_poses) l = Ok (shapes', shape_poses') ->
  exists gs ps,
    shapes' = shapes ++ gs /\ shape_poses' = shape_poses ++ ps /\
    length gs = length l /\ length ps = length l /\
    forall (i : nat) shape, l !! i = Some shape ->
      exists g pz,
        convert_shape_step ([], []) shape = Ok ([g], [pz]) /\
        gs !! i = Some g /\ ps !! i = Some pz.
Proof.
  induction l as [|shape rest IH]; intros S P S' P' Hloop;
    cbn [convert_shapes_loop] in Hloop.
  - injection Hloop as <- <-. exists [], []. rewrite !app_nil_r.
    repeat split; auto. intros i shape Hi. by rewrite lookup_nil in Hi.
  - rewrite convert_shape_step_append in Hloop.
    destruct (convert_shape_step ([], []) shape) as [single|e] eqn:Hsingle;
      [|discriminate].
    destruct (convert_shape_step_single_inv _ _ Hsingle) as (_ & g & pz & ->).
    simpl in Hloop. apply IH in Hloop as (gs & ps & -> & -> & Hgs & Hps & Hnth).
    exists (g :: gs), (pz :: ps). rewrite <- !app_assoc. simpl.
    repeat split; auto. intros [|i] shape' Hi; simpl in Hi.
    + injection Hi as <-. eauto.
    + apply Hnth in Hi. exact Hi.
Qed.

Lemma convert_shapes_loop_supported l : forall acc,
  forallb supported l = true -> exists r, convert_shapes_loop acc l = Ok r.
Proof.
  induction l as [|shape rest IH]; intros [S P] Hall; cbn [convert_shapes_loop forallb] in *.
  - eauto.
  - apply andb_prop in Hall as [Hs Hrest].
    rewrite convert_shape_step_append.
    destruct (convert_shape_step_single _ Hs) as (g & pz & ->). simpl.
    by apply IH.
Qed.

Lemma convert_shapes_loop_unsupported l : forall acc,
  forallb supported l = false -> convert_shapes_loop acc l = Raise TypeError_shape.
Proof.
  induction l as [|shape rest IH]; intros [S P] Hall; cbn [convert_shapes_loop forallb] in *;
    [discriminate|].
  destruct (supported shape) eqn:Hs; simpl in Hall.
  - rewrite convert_shape_step_append.
    destruct (convert_shape_step_single _ Hs) as (g & pz & ->). simpl.
    by apply IH.
  - by rewrite convert_shape_step_unsupported.
Qed.

(** What a successful conversion returns. *)
Lemma convert_physx_component_some comp entry :
  convert_physx_component comp = Ok (Some entry) ->
  let l := PhysxRigidBaseComponent.collision_shapes comp in
  l <> [] /\
  length (FCLObject.shapes entry) = length l /\
  length (FCLObject.shape_poses entry) = length l /\
  forall (i : nat) shape, l !! i = Some shape ->
    exists g pz,
      convert_shape_step ([], []) shape = Ok ([g], [pz]) /\
      FCLObject.shapes entry !! i = Some g /\
      FCLObject.shape_poses entry !! i = Some pz.
Proof.
  intros Hc l. unfold convert_physx_component in Hc. fold l in Hc.
  destruct (convert_shapes_loop ([], []) l) as [[S P]|e] eqn:Hloop; [|discriminate].
  simpl in Hc. apply convert_shapes_loop_ok in Hloop as (gs & ps & -> & -> & Hgs & Hps & Hnth).
  simpl in Hc. destruct (decide (length gs = 0%nat)) as [E|E]; [discriminate|].
  destruct (PhysxRigidBaseComponent.is_link comp); simpl in Hc; injection Hc as <-; simpl;
    (split; [intros El; rewrite El in Hgs; simpl in Hgs; lia|]); auto.
Qed.

(** A component with at least one shape, all of known classes, converts
    to an entry. *)
Lemma convert_physx_component_builds comp :
  PhysxRigidBaseComponent.collision_shapes comp <> [] ->
  forallb supported (PhysxRigidBaseComponent.collision_shapes comp) = true ->
  exists entry, convert_physx_component comp = Ok (Some entry).
Proof.
  intros Hne Hall. unfold convert_physx_component.
  destruct (convert_shapes_loop_supported _ ([], []) Hall) as [[S P] Hloop].
  rewrite Hloop. simpl.
  destruct (convert_shapes_loop_ok _ _ _ _ _ Hloop) as (gs & ps & -> & -> & Hgs & _).
  simpl. destruct (decide (length gs = 0%nat)) as [E|E].
  - destruct (PhysxRigidBaseComponent.collision_shapes comp); [done|].
    simpl in Hgs. lia.
  - destruct (PhysxRigidBaseComponent.is_link comp); simpl; eauto.
Qed.

End ConversionFacts.

(** ** C1, C2, C3: what the conversion stores *)

Section ConversionTheorems.
Local Open Scope R_scope.

(** C1.  A component with at least one shape, all of known classes,
    converts to an entry, and that entry holds, at the index of every
    capsule and of every cylinder of the component, the planning geometry
    with the source radius and with length twice the source half-length,
    and the shape's local pose multiplied on the right by the fixed pose
    [height_axis_fixup]; this is what an iteration of the conversion
    appends for such a shape, and what any entry a conversion returns
    holds.  The fixed pose has no translation and its rotation is the
    quarter turn about the y-axis.  For a shape whose local pose is the
    identity the stored pose is that rotation alone, and the entry built
    for a component with such a capsule holds it at the index of the
    capsule; it takes the stored z-axis to the source x-axis, that is, the
    source x-axis read in the stored frame is the z-axis. *)
Theorem capsule_cylinder_height_axis_fixup :
  (forall shapes shape_poses lp radius half_length,
     convert_shape_step (shapes, shape_poses)
       (PhysxCollisionShapeCapsule lp radius half_length) =
     Ok (shapes ++ [mkCollisionObject (Capsule radius (half_length * 2))],
         shape_poses ++ [pose_mul (Pose_of lp) height_axis_fixup]) /\
     convert_shape_step (shapes, shape_poses)
       (PhysxCollisionShapeCylinder lp radius half_length) =
     Ok (shapes ++ [mkCollisionObject (Cylinder radius (half_length * 2))],
         shape_poses ++ [pose_mul (Pose_of lp) height_axis_fixup])) /\
  (forall comp entry (i : nat) lp radius half_length,
     convert_physx_component comp = Ok (Some entry) ->
     (PhysxRigidBaseComponent.collision_shapes comp !! i =
        Some (PhysxCollisionShapeCapsule lp radius half_length) ->
      FCLObject.shapes entry !! i =
        Some (mkCollisionObject (Capsule radius (half_length * 2))) /\
      FCLObject.shape_poses entry !! i =
        Some (pose_mul (Pose_of lp) height_axis_fixup)) /\
     (PhysxRigidBaseComponent.collision_shapes comp !! i =
        Some (PhysxCollisionShapeCylinder lp radius half_length) ->
      FCLObject.shapes entry !! i =
        Some (mkCollisionObject (Cylinder radius (half_length * 2))) /\
      FCLObject.shape_poses entry !! i =
        Some (pose_mul (Pose_of lp) height_axis_fixup))) /\
  (p height_axis_fixup = vzero /\ rotation_of height_axis_fixup = rot_y_90) /\
  (pose_mul (Pose_of sapien_identity) height_axis_fixup = height_axis_fixup /\
   mat_vec (rotation_of height_axis_fixup) e_z = e_x /\
   mat_vec (transpose (rotation_of height_axis_fixup)) e_x = e_z) /\
  (forall comp,
     PhysxRigidBaseComponent.collision_shapes comp <> [] ->
     forallb supported (PhysxRigidBaseComponent.collision_shapes comp) = true ->
     exists entry,
       convert_physx_component comp = Ok (Some entry) /\
       forall (i : nat) lp radius half_length,
         (PhysxRigidBaseComponent.collision_shapes comp !! i =
            Some (PhysxCollisionShapeCapsule lp radius half_length) ->
          FCLObject.shapes entry !! i =
            Some (mkCollisionObject (Capsule radius (half_length * 2))) /\
          FCLObject.shape_poses entry !! i =
            Some (pose_mul (Pose_of lp) height_axis_fixup) /\
          (lp = sapien_identity ->
           FCLObject.shape_poses entry !! i = Some height_axis_fixup)) /\
         (PhysxRigidBaseComponent.collision_shapes comp !! i =
            Some (PhysxCollisionShapeCylinder lp radius half_length) ->
          FCLObject.shapes entry !! i =
            Some (mkCollisionObject (Cylinder radius (half_length * 2))) /\
          FCLObject.shape_poses entry !! i =
            Some (pose_mul (Pose_of lp) height_axis_fixup) /\
          (lp = sapien_identity ->
           FCLObject.shape_poses entry !! i = Some height_axis_fixup))).
Proof.
  assert (Hstep : forall shapes shape_poses lp radius half_length,
     convert_shape_step (shapes, shape_poses)
       (PhysxCollisionShapeCapsule lp radius half_length) =
     Ok (shapes ++ [mkCollisionObject (Capsule radius (half_length * 2))],
         shape_poses ++ [pose_mul (Pose_of lp) height_axis_fixup]) /\
     convert_shape_step (shapes, shape_poses)
       (PhysxCollisionShapeCylinder lp radius half_length) =
     Ok (shapes ++ [mkCollisionObject (Cylinder radius (half_length * 2))],
         shape_poses ++ [pose_mul (Pose_of lp) height_axis_fixup])).
  { intros S P lp r hl. unfold convert_shape_step.
    rewrite !imul_last_snoc. by split. }
  assert (Hentry : forall comp entry (i : nat) lp radius half_length,
     convert_physx_component comp = Ok (Some entry) ->
     (PhysxRigidBaseComponent.collision_shapes comp !! i =
        Some (PhysxCollisionShapeCapsule lp radius half_length) ->
      FCLObject.shapes entry !! i =
        Some (mkCollisionObject (Capsule radius (half_length * 2))) /\
      FCLObject.shape_poses entry !! i =
        Some (pose_mul (Pose_of lp) height_axis_fixup)) /\
     (PhysxRigidBaseComponent.collision_shapes comp !! i =
        Some (PhysxCollisionShapeCylinder lp radius half_length) ->
      FCLObject.shapes entry !! i =
        Some (mkCollisionObject (Cylinder radius (half_length * 2))) /\
      FCLObject.shape_poses entry !! i =
        Some (pose_mul (Pose_of lp) height_axis_fixup))).
  { intros comp entry i lp r hl Hc.
    destruct (convert_physx_component_some _ _ Hc) as (_ & _ & _ & Hnth).
    split; intros Hi; destruct (Hnth _ _ Hi) as (g & pz & Hsingle & -> & ->);
      [rewrite (proj1 (Hstep [] [] lp r hl)) in Hsingle
      |rewrite (proj2 (Hstep [] [] lp r hl)) in Hsingle];
      by injection Hsingle as <- <-. }
  assert (Hid : pose_mul (Pose_of sapien_identity) height_axis_fixup =
                height_axis_fixup).
  { rewrite Pose_of_identity. apply pose_mul_default_l.
    rewrite height_axis_fixup_value. unfold qnorm2. simpl.
    pose proof inv_sqrt2_sqr. lra. }
  split; [exact Hstep|]. split; [exact Hentry|]. split; [|split].
  - split; [by rewrite height_axis_fixup_value|apply height_axis_fixup_rotation].
  - rewrite height_axis_fixup_rotation. split; [exact Hid|split].
    + unfold mat_vec, rot_y_90, dot, e_z, e_x. simpl. apply vec3_eq; ring.
    + unfold mat_vec, transpose, rot_y_90, dot, e_z, e_x. simpl. apply vec3_eq; ring.
  - intros comp Hne Hall.
    destruct (convert_physx_component_builds comp Hne Hall) as [entry Hc].
    exists entry. split; [exact Hc|]. intros i lp r hl.
    destruct (Hentry comp entry i lp r hl Hc) as [Hcapsule Hcylinder].
    split; intros Hi;
      [destruct (Hcapsule Hi) as [Hs Hp]|destruct (Hcylinder Hi) as [Hs Hp]];
      (split; [exact Hs|]); (split; [exact Hp|]);
      intros ->; by rewrite Hp, Hid.
Qed.

(** The quarter turn takes the x-axis itself to the opposite of the
    z-axis. *)
Lemma height_axis_fixup_e_x :
  mat_vec (rotation_of height_axis_fixup) e_x = vscale (-1) e_z.
Proof.
  rewrite height_axis_fixup_rotation.
  unfold mat_vec, rot_y_90, dot, vscale, e_z, e_x. simpl. apply vec3_eq; ring.
Qed.

(** C2 (as amended).  A component with no collision shape converts to
    [None], without an exception.  A component with N >= 1 shapes, each of
    one of the seven known classes, converts to one entry whose list of
    geometries and list of local poses both have length N, the geometry
    and the pose at an index being those the shape at that index converts
    to.  A component with a shape of another class raises the
    unknown-shape error. *)
Theorem convert_physx_component_entries (comp : PhysxRigidBaseComponent.t) :
  let l := PhysxRigidBaseComponent.collision_shapes comp in
  (l = [] -> convert_physx_component comp = Ok None) /\
  (l <> [] -> forallb supported l = true ->
   exists entry,
     convert_physx_component comp = Ok (Some entry) /\
     length (FCLObject.shapes entry) = length l /\
     length (FCLObject.shape_poses entry) = length l /\
     forall (i : nat) shape, l !! i = Some shape ->
       exists g pz,
         convert_shape_step ([], []) shape = Ok ([g], [pz]) /\
         FCLObject.shapes entry !! i = Some g /\
         FCLObject.shape_poses entry !! i = Some pz) /\
  (forallb supported l = false ->
   convert_physx_component comp = Raise TypeError_shape).
Proof.
  intros l. split; [|split].
  - intros El. unfold convert_physx_component. fold l. by rewrite El.
  - intros Hne Hall.
    assert (exists entry, convert_physx_component comp = Ok (Some entry)) as [entry He].
    { unfold convert_physx_component. fold l.
      destruct (convert_shapes_loop_supported l ([], []) Hall) as [[S P] Hloop].
      rewrite Hloop. simpl.
      destruct (convert_shapes_loop_ok _ _ _ _ _ Hloop) as (gs & ps & -> & -> & Hgs & _).
      simpl. destruct (decide (length gs = 0%nat)) as [E|E].
      - destruct l; [done|]. simpl in Hgs. lia.
      - destruct (PhysxRigidBaseComponent.is_link comp); simpl; eauto. }
    exists entry. split; [exact He|].
    destruct (convert_physx_component_some _ _ He) as (_ & H1 & H2 & H3). auto.
  - intros Hall. unfold convert_physx_component. fold l.
    by rewrite convert_shapes_loop_unsupported.
Qed.

(** C3.  A component with at least one shape, all of known classes,
    converts to an entry, and that entry holds, at the index of every
    plane of the component, the half-space whose normal is the image of
    the x-axis under the rotation of the shape's pose (the first column of
    its transformation matrix) and whose offset is the dot product of that
    normal with the translation of the pose, and the identity as the
    stored local pose; this is what an iteration of the conversion appends
    for a plane, and what any entry a conversion returns holds.  The
    normal is a unit vector when the quaternion of the pose is not zero.
    When the x-axis of the pose is the z-axis of the outer frame and its
    translation is d along that axis, the normal is (0, 0, 1) and the
    offset is d, in the iteration and in the entry. *)
Theorem plane_to_halfspace :
  (forall shapes shape_poses lp,
     let n := mat_vec (rotation_of (Pose_of lp)) e_x in
     convert_shape_step (shapes, shape_poses) (PhysxCollisionShapePlane lp) =
     Ok (shapes ++ [mkCollisionObject (Halfspace n (dot n (p (Pose_of lp))))],
         shape_poses ++ [Pose_default])) /\
  (forall comp entry (i : nat) lp,
     let n := mat_vec (rotation_of (Pose_of lp)) e_x in
     convert_physx_component comp = Ok (Some entry) ->
     PhysxRigidBaseComponent.collision_shapes comp !! i =
       Some (PhysxCollisionShapePlane lp) ->
     FCLObject.shapes entry !! i =
       Some (mkCollisionObject (Halfspace n (dot n (p (Pose_of lp))))) /\
     FCLObject.shape_poses entry !! i = Some Pose_default) /\
  (forall lp,
     let n := mat_vec (rotation_of (Pose_of lp)) e_x in
     qnorm2 (sp_q lp) <> 0 -> dot n n = 1) /\
  (forall shapes shape_poses lp d,
     mat_vec (rotation_of (Pose_of lp)) e_x = e_z ->
     sp_p lp = vscale d e_z ->
     convert_shape_step (shapes, shape_poses) (PhysxCollisionShapePlane lp) =
     Ok (shapes ++ [mkCollisionObject (Halfspace e_z d)],
         shape_poses ++ [Pose_default])) /\
  (forall comp,
     PhysxRigidBaseComponent.collision_shapes comp <> [] ->
     forallb supported (PhysxRigidBaseComponent.collision_shapes comp) = true ->
     exists entry,
       convert_physx_component comp = Ok (Some entry) /\
       forall (i : nat) lp,
         let n := mat_vec (rotation_of (Pose_of lp)) e_x in
         PhysxRigidBaseComponent.collision_shapes comp !! i =
           Some (PhysxCollisionShapePlane lp) ->
         FCLObject.shapes entry !! i =
           Some (mkCollisionObject (Halfspace n (dot n (p (Pose_of lp))))) /\
         FCLObject.shape_poses entry !! i = Some Pose_default /\
         (forall d,
            n = e_z -> sp_p lp = vscale d e_z ->
            FCLObject.shapes entry !! i =
              Some (mkCollisionObject (Halfspace e_z d)))).
Proof.
  assert (Hstep : forall shapes shape_poses lp,
     let n := mat_vec (rotation_of (Pose_of lp)) e_x in
     convert_shape_step (shapes, shape_poses) (PhysxCollisionShapePlane lp) =
     Ok (shapes ++ [mkCollisionObject (Halfspace n (dot n (p (Pose_of lp))))],
         shape_poses ++ [Pose_default])).
  { intros S P lp n. unfold convert_shape_step.
    rewrite ?getitem_last_snoc. simpl. rewrite ?getitem_last_snoc. simpl.
    rewrite ?setitem_last_snoc. simpl. unfold transformation_col0.
    by rewrite col0_is_image_of_e_x. }
  assert (Hentry : forall comp entry (i : nat) lp,
     let n := mat_vec (rotation_of (Pose_of lp)) e_x in
     convert_physx_component comp = Ok (Some entry) ->
     PhysxRigidBaseComponent.collision_shapes comp !! i =
       Some (PhysxCollisionShapePlane lp) ->
     FCLObject.shapes entry !! i =
       Some (mkCollisionObject (Halfspace n (dot n (p (Pose_of lp))))) /\
     FCLObject.shape_poses entry !! i = Some Pose_default).
  { intros comp entry i lp n Hc Hi.
    destruct (convert_physx_component_some _ _ Hc) as (_ & _ & _ & Hnth).
    destruct (Hnth _ _ Hi) as (g & pz & Hsingle & -> & ->).
    rewrite (Hstep [] [] lp) in Hsingle. by injection Hsingle as <- <-. }
  assert (Hoffset : forall d, dot e_z (vscale d e_z) = d).
  { intros d. unfold dot, vscale, e_z. simpl. ring. }
  split; [exact Hstep|]. split; [exact Hentry|]. split; [|split].
  - intros lp n Hq. subst n. rewrite <- col0_is_image_of_e_x.
    apply col0_unit. simpl. by apply qnorm2_normalized.
  - intros S P lp d Hx Hp. rewrite Hstep, Hx. simpl. rewrite Hp.
    by rewrite Hoffset.
  - intros comp Hne Hall.
    destruct (convert_physx_component_builds comp Hne Hall) as [entry Hc].
    exists entry. split; [exact Hc|]. intros i lp n Hi.
    destruct (Hentry comp entry i lp Hc Hi) as [Hs Hp].
    split; [exact Hs|]. split; [exact Hp|].
    intros d Hx Hd. rewrite Hs. fold n. rewrite Hx. simpl. rewrite Hd.
    by rewrite Hoffset.
Qed.

End ConversionTheorems.

(** ** C9: unique names *)

Section UniqueNames.

Lemma append_nil_l (s : string) : "" +:+ s = s.
Proof. reflexivity. Qed.

Lemma append_cons_l c (s t : string) : String c s +:+ t = String c (s +:+ t).
Proof. reflexivity. Qed.

Lemma occurs_app c s1 s2 : occurs c (s1 +:+ s2) = occurs c s1 || occurs c s2.
Proof.
  induction s1 as [|c' s1 IH]; [done|].
  rewrite append_cons_l. simpl.
  destruct (decide (c = c')); [done|]. exact IH.
Qed.

Lemma pretty_N_char_not_underscore x : pretty_N_char x ≠ "_"%char.
Proof. unfold pretty_N_char. repeat case_match; discriminate. Qed.

Lemma pretty_N_go_no_underscore x : forall s,
  occurs "_" s = false -> occurs "_" (pretty_N_go x s) = false.
Proof.
  induction (N.lt_wf_0 x) as [x _ IH]; intros s Hs.
  assert (x = 0 ∨ 0 < x)%N as [->|Hx] by lia.
  - by rewrite pretty_N_go_0.
  - rewrite pretty_N_go_step by done. apply IH.
    + by apply N.div_lt.
    + simpl. destruct (decide (_ = _)) as [E|E]; [|exact Hs].
      symmetry in E. by apply pretty_N_char_not_underscore in E.
Qed.

Lemma pretty_N_no_underscore (x : N) : occurs "_" (pretty x) = false.
Proof.
  unfold pretty, pretty_N. destruct (decide (x = 0%N)); [done|].
  by apply pretty_N_go_no_underscore.
Qed.

(** The decimal form of an integer holds no underscore. *)
Lemma str_of_int_no_underscore (i : Z) : occurs "_" (str_of_int i) = false.
Proof.
  unfold str_of_int. destruct i as [|x|x]; [done| |].
  - apply (pretty_N_no_underscore (N.pos x)).
  - change (occurs "_" ("-" +:+ pretty (N.pos x)) = false).
    by rewrite occurs_app, pretty_N_no_underscore.
Qed.

(** A string that ends in an underscore and a suffix free of underscores
    splits in one way only. *)
Lemma split_at_last_underscore n1 : forall n2 s1 s2,
  occurs "_" s1 = false -> occurs "_" s2 = false ->
  n1 +:+ "_" +:+ s1 = n2 +:+ "_" +:+ s2 -> n1 = n2 /\ s1 = s2.
Proof.
  induction n1 as [|c n1 IH]; intros [|c' n2] s1 s2 H1 H2 E;
    repeat (rewrite append_cons_l in E || rewrite append_nil_l in E).
  - injection E as E. by subst.
  - injection E as _ E. subst s1. rewrite occurs_app in H1.
    simpl in H1. by rewrite orb_true_r in H1.
  - injection E as _ E. subst s2. rewrite occurs_app in H2.
    simpl in H2. by rewrite orb_true_r in H2.
  - injection E as Ec E.
    destruct (IH n2 s1 s2 H1 H2) as [En Es]; [|by subst].
    by rewrite append_cons_l, append_nil_l.
Qed.

(** Two unique names are equal only for equal declared names and equal
    per-scene ids. *)
Lemma convert_object_name_eq obj1 obj2 n :
  convert_object_name obj1 = Ok n -> convert_object_name obj2 = Ok n ->
  declared_name obj1 = declared_name obj2 /\ scene_id_of obj1 = scene_id_of obj2.
Proof.
  destruct obj1 as [a1|e1|?], obj2 as [a2|e2|?]; simpl; try discriminate;
    intros E1 E2; injection E1 as <-; injection E2 as E2;
    apply split_at_last_underscore in E2 as [-> E2];
    auto using str_of_int_no_underscore;
    apply (inj pretty) in E2; by rewrite E2.
Qed.

(** C9.  The unique name is determined by the declared name and the
    per-scene id alone (the root link's for an articulation, its own for a
    standalone body), and it is defined for every articulation and every
    entity.  In a scene whose per-scene ids are pairwise distinct, two
    distinct entities of the enumeration never have the same unique
    name. *)
Theorem convert_object_name_injective (s : Scene.t) :
  (forall e1 e2 n,
     convert_object_name e1 = Ok n ->
     declared_name e2 = declared_name e1 ->
     scene_id_of e2 = scene_id_of e1 ->
     convert_object_name e2 = Ok n) /\
  (NoDup (map scene_id_of (scene_objects s)) ->
   forall (i j : nat) e1 e2,
     scene_objects s !! i = Some e1 -> scene_objects s !! j = Some e2 ->
     i <> j ->
     exists n1 n2,
       convert_object_name e1 = Ok n1 /\ convert_object_name e2 = Ok n2 /\
       n1 <> n2).
Proof.
  split.
  { intros [a1|e1|?] [a2|e2|?] n; simpl; try discriminate;
      intros <- [= Hn] [= Hi]; by rewrite Hn, Hi. }
  intros Hids i j e1 e2 Hi Hj Hne.
  assert (Hdef : forall k e, scene_objects s !! k = Some e ->
            exists n, convert_object_name e = Ok n).
  { intros k e Hk. apply list_elem_of_lookup_2 in Hk.
    unfold scene_objects in Hk. rewrite elem_of_app, !list_elem_of_fmap in Hk.
    destruct Hk as [(a & -> & _)|(a & -> & _)]; simpl; eauto. }
  destruct (Hdef _ _ Hi) as [n1 E1], (Hdef _ _ Hj) as [n2 E2].
  exists n1, n2. split; [done|]. split; [done|]. intros ->.
  destruct (convert_object_name_eq _ _ _ E1 E2) as [_ Hid].
  apply Hne. eapply NoDup_lookup; [exact Hids| |].
  - rewrite list_lookup_fmap, Hi. reflexivity.
  - rewrite list_lookup_fmap, Hj. simpl. by rewrite Hid.
Qed.

End UniqueNames.

(** ** The planning world *)

Section WorldFacts.
Context `{Backend}.

(** *** Loops *)

Lemma for_each_cons {A} (body : A -> M unit) x l w :
  for_each body (x :: l) w =
  match body x w with
  | (w1, log1, Ok _) =>
      match for_each body l w1 with
      | (w2, log2, r) => (w2, log1 ++ log2, r)
      end
  | (w1, log1, Raise e) => (w1, log1, Raise e)
  end.
Proof. reflexivity. Qed.

Lemma for_each_app {A} (body : A -> M unit) pre : forall l w,
  for_each body (pre ++ l) w =
  match for_each body pre w with
  | (w1, log1, Ok _) =>
      match for_each body l w1 with
      | (w2, log2, r) => (w2, log1 ++ log2, r)
      end
  | (w1, log1, Raise e) => (w1, log1, Raise e)
  end.
Proof.
  induction pre as [|x pre IH]; intros l w.
  - simpl. unfold ret. by destruct (for_each body l w) as [[w2 log2] r].
  - rewrite <- app_comm_cons, !for_each_cons.
    destruct (body x w) as [[w1 log1] [[]|e]]; [|done].
    rewrite IH. destruct (for_each body pre w1) as [[w2 log2] [[]|e]]; [|done].
    destruct (for_each body l w2) as [[w3 log3] r]. by rewrite app_assoc.
Qed.

(** A relation between worlds that every iteration respects is respected
    by the loop, whether it ends or raises. *)
Lemma for_each_preserves {A} (body : A -> M unit) (P : PlanningWorld -> PlanningWorld -> Prop) :
  (forall w, P w w) ->
  (forall w1 w2 w3, P w1 w2 -> P w2 w3 -> P w1 w3) ->
  (forall x w, P w (body x w).1.1) ->
  forall l w, P w (for_each body l w).1.1.
Proof.
  intros Hrefl Htrans Hbody. induction l as [|x l IH]; intros w.
  - apply Hrefl.
  - rewrite for_each_cons. pose proof (Hbody x w) as Hx.
    destruct (body x w) as [[w1 log1] [[]|e]]; simpl in *; [|exact Hx].
    pose proof (IH w1) as Hl.
    destruct (for_each body l w1) as [[w2 log2] r]; simpl in *.
    by eapply Htrans.
Qed.

Lemma same_membership_refl w : same_membership w w.
Proof. by repeat split. Qed.

Lemma same_membership_trans w1 w2 w3 :
  same_membership w1 w2 -> same_membership w2 w3 -> same_membership w1 w3.
Proof.
  intros (A1 & B1 & C1 & D1) (A2 & B2 & C2 & D2).
  repeat split; congruence.
Qed.

(** *** The first loop of the synchronisation *)

Lemma convert_articulation_name_ok a :
  exists name, convert_object_name (IsArticulation a) = Ok name.
Proof. simpl. eauto. Qed.

Lemma convert_entity_name_ok e :
  exists name, convert_object_name (IsEntity e) = Ok name.
Proof. simpl. eauto. Qed.

Lemma sync_articulation_missing w a :
  lookup_articulation w a = None ->
  sync_articulation a w =
  (w, [], Raise (RuntimeError_articulation (PhysxArticulation.name a))).
Proof.
  unfold lookup_articulation. destruct (convert_articulation_name_ok a) as [n En].
  run. rewrite En. cbn. by intros ->.
Qed.

Lemma sync_articulation_found w a m :
  forall Hm : lookup_articulation w a = Some m,
  exists name,
    convert_object_name (IsArticulation a) = Ok name /\
    sync_articulation a w =
    (mkWorld (alter (refresh a) name (articulation_map w))
             (object_map w) (attached_body_map w)
             (planned_articulations w) (acm_ w), [], Ok tt).
Proof.
  unfold lookup_articulation. destruct (convert_articulation_name_ok a) as [n En].
  exists n. split; [done|]. revert Hm. run. rewrite En. cbn. intros ->. cbn.
  by rewrite alter_alter_eq.
Qed.


Lemma is_Some_lookup_dom {A} (m m' : gmap string A) (k : string) :
  dom m' = dom m -> is_Some (m !! k) -> is_Some (m' !! k).
Proof. intros Hd Hk. apply elem_of_dom. rewrite Hd. by apply elem_of_dom. Qed.

Lemma lookup_articulation_membership w w' a :
  same_membership w w' ->
  is_Some (lookup_articulation w a) -> is_Some (lookup_articulation w' a).
Proof.
  intros (Hd & _). unfold lookup_articulation.
  destruct (convert_object_name (IsArticulation a)); [|done].
  by apply is_Some_lookup_dom.
Qed.

(** The world after an iteration of the first loop. *)
Lemma sync_articulation_frame a w :
  let w' := (sync_articulation a w).1.1 in
  same_membership w w' /\
  object_map w' = object_map w /\
  attached_body_map w' = attached_body_map w /\
  forall name, convert_object_name (IsArticulation a) <> Ok name ->
    articulation_map w' !! name = articulation_map w !! name.
Proof.
  destruct (lookup_articulation w a) as [m|] eqn:Hm.
  - destruct (sync_articulation_found _ _ _ Hm) as (n & En & ->). project.
    repeat split; auto.
    + apply dom_alter_L.
    + intros name Hne. apply lookup_alter_ne. congruence.
  - rewrite (sync_articulation_missing _ _ Hm). simpl. repeat split; auto.
Qed.

Definition articulations_frame (w w' : PlanningWorld) : Prop :=
  same_membership w w' /\
  object_map w' = object_map w /\
  attached_body_map w' = attached_body_map w.

Lemma for_each_sync_articulation_frame l w :
  articulations_frame w (for_each sync_articulation l w).1.1.
Proof.
  apply for_each_preserves.
  - intros w0. split; [apply same_membership_refl|done].
  - intros w1 w2 w3 (A1 & B1 & C1) (A2 & B2 & C2). split; [|split].
    + by eapply same_membership_trans.
    + congruence.
    + congruence.
  - intros a w0. destruct (sync_articulation_frame a w0) as (A & B & C & _).
    split; [exact A|]. split; [exact B|exact C].
Qed.

Lemma for_each_sync_articulation_other l : forall w name,
  (forall b, b ∈ l -> convert_object_name (IsArticulation b) <> Ok name) ->
  articulation_map (for_each sync_articulation l w).1.1 !! name =
  articulation_map w !! name.
Proof.
  induction l as [|a l IH]; intros w name Hl; [done|].
  rewrite for_each_cons.
  destruct (sync_articulation_frame a w) as (_ & _ & _ & Ha).
  specialize (Ha name (Hl a ltac:(left))).
  destruct (sync_articulation a w) as [[w1 log1] [[]|e]]; simpl in *; [|done].
  specialize (IH w1 name (fun b Hb => Hl b ltac:(by right))).
  destruct (for_each sync_articulation l w1) as [[w2 log2] r]; simpl in *.
  congruence.
Qed.

(** The first loop ends without an exception when every articulation has
    its model. *)
Lemma for_each_sync_articulation_ok l : forall w,
  (forall b, b ∈ l -> is_Some (lookup_articulation w b)) ->
  exists w', for_each sync_articulation l w = (w', [], Ok tt).
Proof.
  induction l as [|a l IH]; intros w Hl.
  - by exists w.
  - rewrite for_each_cons.
    destruct (Hl a ltac:(left)) as [m Hm].
    destruct (sync_articulation_frame a w) as (Hmem & _).
    destruct (sync_articulation_found _ _ _ Hm) as (n & En & Hrun).
    rewrite Hrun in *. simpl in Hmem.
    destruct (IH _ (fun b Hb => lookup_articulation_membership _ _ b Hmem
                                  (Hl b ltac:(by right)))) as [w' ->].
    by exists w'.
Qed.

(** *** The second loop of the synchronisation *)

Definition actors_frame (w w' : PlanningWorld) : Prop :=
  same_membership w w' /\ articulation_map w' = articulation_map w.

Lemma actors_frame_refl w : actors_frame w w.
Proof. split; [apply same_membership_refl|done]. Qed.

Lemma actors_frame_trans w1 w2 w3 :
  actors_frame w1 w2 -> actors_frame w2 w3 -> actors_frame w1 w3.
Proof.
  intros (A1 & B1) (A2 & B2). split; [by eapply same_membership_trans|congruence].
Qed.

Lemma sync_actor_frame flag entity w :
  actors_frame w (sync_actor flag entity w).1.1.
Proof.
  destruct (convert_entity_name_ok (Actor.entity entity)) as [n En].
  run. rewrite En. cbn.
  destruct (attached_body_map w !! n) as [body|] eqn:Hbody; cbn.
  - destruct flag; cbn.
    + rewrite lookup_alter_eq, Hbody. cbn.
      repeat split; project; try reflexivity; apply dom_alter_L.
    + rewrite Hbody. repeat split; project; try reflexivity; apply dom_alter_L.
  - destruct (object_map w !! n) as [obj|] eqn:Hobj; cbn.
    + repeat split; project; try reflexivity. by apply dom_insert_lookup_L.
    + destruct (Actor.find_component entity) as [component|]; cbn;
        [|apply actors_frame_refl].
      destruct (decide _); cbn; apply actors_frame_refl.
Qed.

Lemma for_each_sync_actor_frame flag l w :
  actors_frame w (for_each (sync_actor flag) l w).1.1.
Proof.
  apply for_each_preserves;
    eauto using actors_frame_refl, actors_frame_trans, sync_actor_frame.
Qed.

(** An unknown body that carries a collision shape: a warning, and nothing
    else. *)
Lemma sync_actor_unknown flag entity component w :
  lookup_attached w (Actor.entity entity) = None ->
  lookup_object w (Actor.entity entity) = None ->
  Actor.find_component entity = Some component ->
  PhysxRigidBaseComponent.collision_shapes component <> [] ->
  sync_actor flag entity w =
  (w, [Warning_entity_not_found (Entity.name (Actor.entity entity))], Ok tt).
Proof.
  unfold lookup_attached, lookup_object.
  destruct (convert_entity_name_ok (Actor.entity entity)) as [n En].
  run. rewrite En. cbn. intros -> -> -> Hne. cbn.
  destruct (decide _) as [Hlen|Hlen]; [done|].
  destruct (PhysxRigidBaseComponent.collision_shapes component); [done|].
  simpl in Hlen. lia.
Qed.

End WorldFacts.

(** ** C4, C5: synchronisation *)

Section Synchronisation.
Context `{Backend}.

(** C4.  An iteration of the first loop on an articulation under whose
    unique name no model is registered raises the out-of-sync error that
    names the articulation, and leaves the world as it was; on one with a
    model it replaces the base pose and the joint configuration of that
    model by the root pose and the joint positions of the articulation.
    For the whole call: when the articulations enumerated before one
    without a model all have theirs, the call raises the error for that
    one; when all have theirs, after the call the model of each holds the
    root pose and the joint positions of the last articulation enumerated
    under that unique name. *)
Theorem update_from_simulation_articulations
    (sim_scene : Scene.t) (update_attached_object : bool) (w : PlanningWorld) :
  (forall w0 a,
     lookup_articulation w0 a = None ->
     sync_articulation a w0 =
     (w0, [], Raise (RuntimeError_articulation (PhysxArticulation.name a)))) /\
  (forall w0 a m,
     lookup_articulation w0 a = Some m ->
     exists w1,
       sync_articulation a w0 = (w1, [], Ok tt) /\
       lookup_articulation w1 a =
         Some (ArticulatedModel.set_qpos (PhysxArticulation.qpos a)
                 (ArticulatedModel.set_base_pose
                    (Pose_of (PhysxArticulation.root_pose a)) m))) /\
  (forall pre a post,
     Scene.get_all_articulations sim_scene = pre ++ a :: post ->
     (forall b, b ∈ pre -> is_Some (lookup_articulation w b)) ->
     lookup_articulation w a = None ->
     exists w' log,
       update_from_simulation sim_scene update_attached_object w =
       (w', log, Raise (RuntimeError_articulation (PhysxArticulation.name a)))) /\
  ((forall b, b ∈ Scene.get_all_articulations sim_scene ->
      is_Some (lookup_articulation w b)) ->
   forall pre a post,
     Scene.get_all_articulations sim_scene = pre ++ a :: post ->
     (forall b, b ∈ post ->
        convert_object_name (IsArticulation b) <>
        convert_object_name (IsArticulation a)) ->
     exists m,
       lookup_articulation
         (update_from_simulation sim_scene update_attached_object w).1.1 a = Some m /\
       ArticulatedModel.base_pose m = Pose_of (PhysxArticulation.root_pose a) /\
       ArticulatedModel.qpos m = PhysxArticulation.qpos a).
Proof.
  split; [exact sync_articulation_missing|]. split; [|split].
  - intros w0 a m Hm.
    destruct (sync_articulation_found _ _ _ Hm) as (n & En & ->).
    eexists. split; [reflexivity|].
    unfold lookup_articulation in *. rewrite En in *. project.
    by rewrite lookup_alter_eq, Hm.
  - intros pre a post Hscene Hpre Ha.
    unfold update_from_simulation, bind. rewrite Hscene, for_each_app.
    destruct (for_each_sync_articulation_ok pre w Hpre) as [w1 Hrun].
    pose proof (for_each_sync_articulation_frame pre w) as (Hmem & _).
    rewrite Hrun in *. project. rewrite for_each_cons.
    assert (Ha1 : lookup_articulation w1 a = None).
    { destruct (lookup_articulation w1 a) eqn:E; [|done].
      assert (is_Some (lookup_articulation w a)) as [m Hm]; [|congruence].
      eapply lookup_articulation_membership; [|by rewrite E].
      destruct Hmem as (A & B & C & D). by repeat split. }
    rewrite (sync_articulation_missing _ _ Ha1). eauto.
  - intros Hall pre a post Hscene Hpost.
    assert (Hfirst : exists m,
              lookup_articulation
                (for_each sync_articulation (pre ++ a :: post) w).1.1 a = Some m /\
              ArticulatedModel.base_pose m = Pose_of (PhysxArticulation.root_pose a) /\
              ArticulatedModel.qpos m = PhysxArticulation.qpos a).
    { rewrite Hscene in Hall. rewrite for_each_app.
      destruct (for_each_sync_articulation_ok pre w) as [w1 Hrun1].
      { intros b Hb. apply Hall. rewrite elem_of_app. by left. }
      pose proof (for_each_sync_articulation_frame pre w) as (Hmem & _).
      rewrite Hrun1 in *. project. rewrite for_each_cons.
      destruct (lookup_articulation_membership w w1 a Hmem) as [m1 Hm1].
      { apply Hall. rewrite elem_of_app. right. left. }
      destruct (sync_articulation_found _ _ _ Hm1) as (n & En & ->).
      set (w2 := mkWorld _ _ _ _ _).
      pose proof (for_each_sync_articulation_other post w2 n) as Hother.
      destruct (for_each sync_articulation post w2) as [[w3 log3] r3]. project.
      exists (refresh a m1). split; [|done].
      unfold lookup_articulation in *. rewrite En in *. rewrite Hother.
      - subst w2. project. by rewrite lookup_alter_eq, Hm1.
      - intros b Hb. by apply Hpost. }
    destruct Hfirst as (m & Hm & Hbase & Hq). exists m. split; [|done].
    unfold update_from_simulation, bind. rewrite Hscene.
    destruct (for_each sync_articulation (pre ++ a :: post) w)
      as [[w1 log1] [[]|e]]; project; [|exact Hm].
    pose proof (for_each_sync_actor_frame update_attached_object
                  (Scene.get_all_actors sim_scene) w1) as (_ & Harts).
    destruct (for_each (sync_actor update_attached_object)
                (Scene.get_all_actors sim_scene) w1) as [[w2 log2] r2]. project.
    unfold lookup_articulation in *. by rewrite Harts.
Qed.

(** C5.  Whatever the scene, and whether the call returns or raises, the
    world after [update_from_simulation] holds articulations, objects and
    attached objects under the same names as before, and the same names
    are marked planned.  An iteration of the second loop on a body that is
    neither attached nor registered and that carries a collision shape
    emits the warning for that body, returns, and leaves the world as it
    is.  When the call returns, the warning is among its effects for every
    such body of the scene. *)
Theorem update_from_simulation_never_registers
    (sim_scene : Scene.t) (update_attached_object : bool) (w : PlanningWorld) :
  same_membership w (update_from_simulation sim_scene update_attached_object w).1.1 /\
  (forall w0 entity component,
     lookup_attached w0 (Actor.entity entity) = None ->
     lookup_object w0 (Actor.entity entity) = None ->
     Actor.find_component entity = Some component ->
     PhysxRigidBaseComponent.collision_shapes component <> [] ->
     sync_actor update_attached_object entity w0 =
     (w0, [Warning_entity_not_found (Entity.name (Actor.entity entity))], Ok tt)) /\
  (forall w' log entity component,
     update_from_simulation sim_scene update_attached_object w = (w', log, Ok tt) ->
     entity ∈ Scene.get_all_actors sim_scene ->
     lookup_attached w (Actor.entity entity) = None ->
     lookup_object w (Actor.entity entity) = None ->
     Actor.find_component entity = Some component ->
     PhysxRigidBaseComponent.collision_shapes component <> [] ->
     Warning_entity_not_found (Entity.name (Actor.entity entity)) ∈ log).
Proof.
  assert (Hmem : forall w0, articulations_frame w0
            (for_each sync_articulation (Scene.get_all_articulations sim_scene) w0).1.1)
    by (intros; apply for_each_sync_articulation_frame).
  split; [|split].
  - unfold update_from_simulation, bind. specialize (Hmem w).
    destruct (for_each sync_articulation _ w) as [[w1 log1] [[]|e]]; project;
      [|apply Hmem].
    pose proof (for_each_sync_actor_frame update_attached_object
                  (Scene.get_all_actors sim_scene) w1) as (Hmem2 & _).
    destruct (for_each (sync_actor update_attached_object) _ w1) as [[w2 log2] r2].
    project. eapply same_membership_trans; [apply Hmem|exact Hmem2].
  - intros w0 entity component. apply sync_actor_unknown.
  - intros w' log entity component Hrun Hin Hatt Hobj Hcomp Hshapes.
    unfold update_from_simulation, bind in Hrun. specialize (Hmem w).
    destruct (for_each sync_articulation _ w) as [[w1 log1] [[]|e]]; project;
      [|discriminate].
    apply list_elem_of_split in Hin as (pre & post & Hactors).
    rewrite Hactors, for_each_app in Hrun.
    pose proof (for_each_sync_actor_frame update_attached_object pre w1) as (Hmem2 & _).
    destruct (for_each (sync_actor update_attached_object) pre w1)
      as [[w2 log2] [[]|e]]; project; [|discriminate].
    rewrite for_each_cons in Hrun.
    assert (Hm12 : same_membership w w2).
    { eapply same_membership_trans; [apply Hmem|exact Hmem2]. }
    destruct Hm12 as (_ & Hdo & Hda & _).
    rewrite (sync_actor_unknown update_attached_object entity component w2) in Hrun;
      auto.
    + destruct (for_each (sync_actor update_attached_object) post w2)
        as [[w3 log3] r3]. injection Hrun as _ <- _.
      rewrite !elem_of_app, elem_of_cons. auto.
    + unfold lookup_attached in *.
      destruct (convert_object_name (IsEntity (Actor.entity entity))); [|done].
      apply not_elem_of_dom. rewrite Hda. by apply not_elem_of_dom.
    + unfold lookup_object in *.
      destruct (convert_object_name (IsEntity (Actor.entity entity))); [|done].
      apply not_elem_of_dom. rewrite Hdo. by apply not_elem_of_dom.
Qed.

End Synchronisation.

(** ** C6, C7, C8, C10: queries and registration *)

Section Queries.
Context `{Backend}.

Lemma none_or_never_true t :
  none_or_never t = true <-> t = None \/ t = Some NEVER.
Proof.
  destruct t as [[]|]; simpl; split; intros Ht; try done; auto;
    destruct Ht; done.
Qed.

Lemma _get_collision_obj_entity w e a :
  lookup_object w e = Some a ->
  _get_collision_obj (IsEntity e) w = (w, [], Ok (inr a)).
Proof.
  unfold lookup_object. run.
  destruct (convert_object_name (IsEntity e)); cbn; [|done]. by intros ->.
Qed.

Lemma _get_collision_obj_registered w obj :
  registered w obj -> exists c, _get_collision_obj obj w = (w, [], Ok c).
Proof.
  destruct obj as [a|e|?]; [| |done]; intros [m Hm].
  - revert Hm. unfold lookup_articulation. run.
    destruct (convert_object_name (IsArticulation a)); cbn; [|done].
    intros ->. eauto.
  - rewrite (_get_collision_obj_entity _ _ _ Hm). eauto.
Qed.

Lemma _get_collision_obj_unregistered w obj :
  ~ registered w obj ->
  _get_collision_obj obj w =
  (w, [], Raise (match declared_name obj with
                 | Some name => RuntimeError_object name
                 | None => AttributeError
                 end)).
Proof.
  destruct obj as [a|e|[name|]]; cbn [registered declared_name]; try done.
  - unfold lookup_articulation. run.
    destruct (convert_articulation_name_ok a) as [n ->]. cbn.
    destruct (articulation_map w !! n); [|done]. intros []. eauto.
  - unfold lookup_object. run.
    destruct (convert_entity_name_ok e) as [n ->]. cbn.
    destruct (object_map w !! n); [|done]. intros []. eauto.
Qed.

(** The two queries on two entities with collision entries. *)
Lemma check_collision_between_entities w eA eB acm a b :
  lookup_object w eA = Some a ->
  lookup_object w eB = Some b ->
  check_collision_between (IsEntity eA) (IsEntity eB) acm w =
  if none_or_never (get_allowed_collision acm (FCLObject.name a) (FCLObject.name b))
  then (w, [Called_collide a b],
        Ok (if is_collision (collide a b) then [object_object_collision a b] else []))
  else (w, [], Ok []).
Proof.
  intros Ha Hb. unfold check_collision_between, bind at 1.
  rewrite (_get_collision_obj_entity _ _ _ Ha). unfold bind at 1.
  rewrite (_get_collision_obj_entity _ _ _ Hb).
  destruct (none_or_never _); run; [|done].
  by destruct (is_collision (collide a b)).
Qed.

Lemma distance_between_entities w eA eB acm a b flag :
  lookup_object w eA = Some a ->
  lookup_object w eB = Some b ->
  distance_between (IsEntity eA) (IsEntity eB) acm flag w =
  if none_or_never (get_allowed_collision acm (FCLObject.name a) (FCLObject.name b))
  then (w, [Called_distance a b],
        Ok (distance_return flag (object_object_distance a b)))
  else (w, [], Ok (distance_return flag WorldDistanceResult_new)).
Proof.
  intros Ha Hb. unfold distance_between, bind at 1.
  rewrite (_get_collision_obj_entity _ _ _ Ha). unfold bind at 1.
  rewrite (_get_collision_obj_entity _ _ _ Hb).
  destruct (none_or_never _); run; done.
Qed.

(** C6.  For two entities with collision entries [a] and [b]: when the
    matrix has no entry for the two entry names, or has [NEVER], the
    collision query calls the pairwise primitive once and returns the one
    record tagged "object_object" with both entry names if the primitive
    reports a collision, the empty list if it does not, and the distance
    query calls the pairwise distance primitive once and returns the record
    tagged "object_object" with both entry names and the computed minimum
    distance (or that distance alone); when the matrix has another entry,
    neither primitive is called, the collision query returns the empty
    list and the distance query the default-constructed record (or its
    distance).  So each primitive is called exactly when the entry is unset
    or [NEVER]. *)
Theorem object_object_dispatch
    (w : PlanningWorld) (eA eB : Entity.t) (acm : AllowedCollisionMatrix)
    (a b : FCLObject.t) (return_distance_only : bool) :
  lookup_object w eA = Some a ->
  lookup_object w eB = Some b ->
  let acm_type := get_allowed_collision acm (FCLObject.name a) (FCLObject.name b) in
  let unset_or_never := acm_type = None \/ acm_type = Some NEVER in
  let collision := check_collision_between (IsEntity eA) (IsEntity eB) acm w in
  let dist := distance_between (IsEntity eA) (IsEntity eB) acm return_distance_only w in
  (unset_or_never ->
   collision =
     (w, [Called_collide a b],
      Ok (if is_collision (collide a b) then [object_object_collision a b] else [])) /\
   dist =
     (w, [Called_distance a b],
      Ok (distance_return return_distance_only (object_object_distance a b)))) /\
  (~ unset_or_never ->
   collision = (w, [], Ok []) /\
   dist = (w, [], Ok (distance_return return_distance_only WorldDistanceResult_new))) /\
  (Called_collide a b ∈ collision.1.2 <-> unset_or_never) /\
  (Called_distance a b ∈ dist.1.2 <-> unset_or_never).
Proof.
  intros Ha Hb acm_type unset_or_never collision dist.
  pose proof (check_collision_between_entities w eA eB acm a b Ha Hb) as Hc.
  pose proof (distance_between_entities w eA eB acm a b return_distance_only Ha Hb)
    as Hd.
  fold acm_type collision in Hc. fold acm_type dist in Hd.
  pose proof (none_or_never_true acm_type) as Hiff. fold unset_or_never in Hiff.
  clearbody collision dist.
  destruct (none_or_never acm_type); subst collision dist; cbn [fst snd].
  - assert (unset_or_never) by (by apply Hiff).
    repeat split; auto; try done; intros _; apply list_elem_of_here.
  - assert (~ unset_or_never) by (intros Hu; by apply Hiff in Hu).
    repeat split; auto; try done; intros Hin; by apply elem_of_nil in Hin.
Qed.

(** C7 (as amended).  For two entities with collision entries that the
    primitive reports in collision: when the matrix marks the pair with a
    tag other than [NEVER], the collision query returns the empty list and
    does not call the primitive; when it marks the pair [NEVER], the query
    calls the primitive and returns the collision. *)
Theorem acm_gating
    (w : PlanningWorld) (eA eB : Entity.t) (acm : AllowedCollisionMatrix)
    (a b : FCLObject.t) :
  lookup_object w eA = Some a ->
  lookup_object w eB = Some b ->
  is_collision (collide a b) = true ->
  (forall t,
     get_allowed_collision acm (FCLObject.name a) (FCLObject.name b) = Some t ->
     t <> NEVER ->
     check_collision_between (IsEntity eA) (IsEntity eB) acm w = (w, [], Ok [])) /\
  (get_allowed_collision acm (FCLObject.name a) (FCLObject.name b) = Some NEVER ->
   check_collision_between (IsEntity eA) (IsEntity eB) acm w =
   (w, [Called_collide a b], Ok [object_object_collision a b])).
Proof.
  intros Ha Hb Hcol.
  rewrite (check_collision_between_entities w eA eB acm a b Ha Hb).
  split.
  - intros t Ht Hne. rewrite Ht. simpl. by rewrite bool_decide_false.
  - intros Ht. rewrite Ht. simpl. by rewrite Hcol.
Qed.

(** C8.  Resolving an object that is not registered raises the not-found
    error that names it, with no call into the backend and the world as it
    was.  So does either query when its first argument is not registered,
    and when its first argument is registered and its second is not.  With
    an argument that is not registered, neither query returns a value. *)
Theorem unregistered_raises (w : PlanningWorld) (obj : SapienObject) (name : string) :
  declared_name obj = Some name ->
  ~ registered w obj ->
  _get_collision_obj obj w = (w, [], Raise (RuntimeError_object name)) /\
  (forall other acm flag,
     check_collision_between obj other acm w =
       (w, [], Raise (RuntimeError_object name)) /\
     distance_between obj other acm flag w =
       (w, [], Raise (RuntimeError_object name))) /\
  (forall other acm flag,
     registered w other ->
     check_collision_between other obj acm w =
       (w, [], Raise (RuntimeError_object name)) /\
     distance_between other obj acm flag w =
       (w, [], Raise (RuntimeError_object name))) /\
  (forall other acm flag,
     (exists e, (check_collision_between obj other acm w).2 = Raise e) /\
     (exists e, (check_collision_between other obj acm w).2 = Raise e) /\
     (exists e, (distance_between obj other acm flag w).2 = Raise e) /\
     (exists e, (distance_between other obj acm flag w).2 = Raise e)).
Proof.
  intros Hname Hun.
  pose proof (_get_collision_obj_unregistered w obj Hun) as Hget.
  rewrite Hname in Hget.
  assert (Hfirst : forall other acm flag,
     check_collision_between obj other acm w =
       (w, [], Raise (RuntimeError_object name)) /\
     distance_between obj other acm flag w =
       (w, [], Raise (RuntimeError_object name))).
  { intros other acm flag.
    unfold check_collision_between, distance_between, bind. by rewrite Hget. }
  assert (Hsecond : forall other acm flag,
     (exists c, _get_collision_obj other w = (w, [], Ok c)) ->
     check_collision_between other obj acm w =
       (w, [], Raise (RuntimeError_object name)) /\
     distance_between other obj acm flag w =
       (w, [], Raise (RuntimeError_object name))).
  { intros other acm flag [c Hc].
    unfold check_collision_between, distance_between, bind. by rewrite Hc, Hget. }
  split; [exact Hget|]. split; [exact Hfirst|]. split.
  - intros other acm flag Hreg. apply Hsecond.
    by apply _get_collision_obj_registered.
  - intros other acm flag.
    destruct (Hfirst other acm flag) as [-> ->].
    assert (Hother : (exists c, _get_collision_obj other w = (w, [], Ok c)) \/
                     (exists e, _get_collision_obj other w = (w, [], Raise e))).
    { destruct other as [a|e|n].
      - destruct (lookup_articulation w a) eqn:E.
        + left. apply _get_collision_obj_registered. cbn [registered].
          by rewrite E.
        + right. eexists. apply _get_collision_obj_unregistered.
          cbn [registered]. rewrite E. by intros [? ?].
      - destruct (lookup_object w e) eqn:E.
        + left. apply _get_collision_obj_registered. cbn [registered].
          by rewrite E.
        + right. eexists. apply _get_collision_obj_unregistered.
          cbn [registered]. rewrite E. by intros [? ?].
      - right. eexists. apply _get_collision_obj_unregistered. intros []. }
    destruct Hother as [Hok|[e He]].
    + destruct (Hsecond other acm flag Hok) as [-> ->]. repeat split; eauto.
    + unfold check_collision_between, distance_between, bind. rewrite He.
      repeat split; eauto.
Qed.

(** C10.  [add_object] on an entity whose rigid-body component has no
    collision shape returns without an exception, emits nothing, and leaves
    the world as it was. *)
Theorem add_object_without_shapes
    (w : PlanningWorld) (entity : Actor.t) (component : PhysxRigidBaseComponent.t) :
  Actor.find_component entity = Some component ->
  PhysxRigidBaseComponent.collision_shapes component = [] ->
  add_object (inr entity) w = (w, [], Ok tt).
Proof.
  intros Hc Hs. run. rewrite Hc. unfold convert_physx_component. by rewrite Hs.
Qed.

End Queries.

(** ** Conversion of the other shape classes *)

Section ConversionExtras.
Local Open Scope R_scope.

Lemma convert_shape_step_keeps shape :
  keeps_local_pose shape = true ->
  exists g,
    convert_shape_step ([], []) shape =
    Ok ([mkCollisionObject g], [Pose_of (local_pose shape)]).
Proof. destruct shape; try discriminate; intros _; eexists; reflexivity. Qed.

(** The entry a conversion returns stores, for a box, a sphere, a convex
    mesh and a triangle mesh, the source local pose as [Pose] builds it,
    with no rotation applied; the box has twice the half extents as side
    lengths, the sphere the source radius, and the triangle mesh is a
    model whose three-phase construction is complete and which holds the
    source vertices and triangles as its one sub-model. *)
Theorem unrotated_shapes_keep_local_pose
    (comp : PhysxRigidBaseComponent.t) (entry : FCLObject.t) (i : nat)
    (shape : PhysxCollisionShape) :
  convert_physx_component comp = Ok (Some entry) ->
  PhysxRigidBaseComponent.collision_shapes comp !! i = Some shape ->
  (keeps_local_pose shape = true ->
   FCLObject.shape_poses entry !! i = Some (Pose_of (local_pose shape))) /\
  (forall lp half_size,
     shape = PhysxCollisionShapeBox lp half_size ->
     FCLObject.shapes entry !! i =
       Some (mkCollisionObject
               (Box (mkVec3 (vx half_size * 2) (vy half_size * 2) (vz half_size * 2))))) /\
  (forall lp radius,
     shape = PhysxCollisionShapeSphere lp radius ->
     FCLObject.shapes entry !! i = Some (mkCollisionObject (Sphere radius))) /\
  (forall lp vertices triangles,
     shape = PhysxCollisionShapeTriangleMesh lp vertices triangles ->
     FCLObject.shapes entry !! i =
       Some (mkCollisionObject
               (BVH (BVHModel.mk BVH_processed [(vertices, triangles)])))).
Proof.
  intros Hc Hi.
  destruct (convert_physx_component_some _ _ Hc) as (_ & _ & _ & Hnth).
  destruct (Hnth _ _ Hi) as (g & pz & Hsingle & Hg & Hp).
  split; [|split; [|split]].
  - intros Hk. destruct (convert_shape_step_keeps _ Hk) as [g' E].
    rewrite E in Hsingle. injection Hsingle as _ <-. exact Hp.
  - intros lp hs ->. injection Hsingle as <- _. exact Hg.
  - intros lp r ->. injection Hsingle as <- _. exact Hg.
  - intros lp vs ts ->. injection Hsingle as <- _. exact Hg.
Qed.

(** The entry a conversion returns holds, for a convex mesh, a convex
    geometry with the source triangles as they are and with as many
    vertices as the source, each the source vertex multiplied
    coordinate by coordinate by the scale of the shape; a scale of
    (1, 1, 1) leaves the vertices as they are. *)
Theorem convex_mesh_scaled_per_axis
    (comp : PhysxRigidBaseComponent.t) (entry : FCLObject.t) (i : nat)
    (lp : SapienPose) (vertices : list Vec3) (triangles : list Face) (scale : Vec3) :
  convert_physx_component comp = Ok (Some entry) ->
  PhysxRigidBaseComponent.collision_shapes comp !! i =
    Some (PhysxCollisionShapeConvexMesh lp vertices triangles scale) ->
  exists scaled,
    FCLObject.shapes entry !! i = Some (mkCollisionObject (Convex scaled triangles)) /\
    length scaled = length vertices /\
    (forall (j : nat) v, vertices !! j = Some v ->
       scaled !! j =
         Some (mkVec3 (vx v * vx scale) (vy v * vy scale) (vz v * vz scale))) /\
    (scale = mkVec3 1 1 1 -> scaled = vertices).
Proof.
  intros Hc Hi.
  destruct (convert_physx_component_some _ _ Hc) as (_ & _ & _ & Hnth).
  destruct (Hnth _ _ Hi) as (g & pz & Hsingle & Hg & Hp).
  injection Hsingle as <- _.
  exists (map (fun v => vmul v scale) vertices).
  split; [exact Hg|]. split; [apply length_map|]. split.
  - intros j v Hj. change (map ?f ?l) with (f <$> l).
    by rewrite list_lookup_fmap, Hj.
  - intros ->. rewrite <- (map_id vertices) at 2. apply map_ext.
    intros [x y z]. unfold vmul. simpl. apply vec3_eq; ring.
Qed.

End ConversionExtras.

(** ** Further properties of the two queries *)

Section QueryExtras.
Context `{Backend}.

Lemma bind_run_ok {A B} (m : M A) (k : A -> M B) w w1 log1 a :
  m w = (w1, log1, Ok a) ->
  bind m k w = (let '(w2, log2, r) := k a w1 in (w2, log1 ++ log2, r)).
Proof. unfold bind. by intros ->. Qed.

Lemma bind_run_raise {A B} (m : M A) (k : A -> M B) w w1 log1 e :
  m w = (w1, log1, Raise e) -> bind m k w = (w1, log1, Raise e).
Proof. unfold bind. by intros ->. Qed.

Lemma _get_collision_obj_pure w obj :
  exists r, _get_collision_obj obj w = (w, [], r).
Proof.
  destruct obj as [a|e|[name|]]; run.
  - destruct (convert_articulation_name_ok a) as [n ->]. cbn.
    destruct (articulation_map w !! n); eauto.
  - destruct (convert_entity_name_ok e) as [n ->]. cbn.
    destruct (object_map w !! n); eauto.
  - eauto.
  - eauto.
Qed.

Lemma _get_collision_obj_kind w obj c :
  _get_collision_obj obj w = (w, [], Ok c) ->
  match obj, c with
  | IsArticulation a, inl m => lookup_articulation w a = Some (FCLModel.model m)
  | IsEntity e, inr o => lookup_object w e = Some o
  | _, _ => False
  end.
Proof.
  destruct obj as [a|e|[name|]]; unfold lookup_articulation, lookup_object; run.
  - destruct (convert_articulation_name_ok a) as [n ->]. cbn.
    destruct (articulation_map w !! n); [|done]. by intros [= <-].
  - destruct (convert_entity_name_ok e) as [n ->]. cbn.
    destruct (object_map w !! n); [|done]. by intros [= <-].
  - done.
  - done.
Qed.

Lemma query_outcome_raise {A} w e : query_outcome (A := A) w (w, [], Raise e).
Proof. repeat split; simpl; auto. Qed.

Lemma query_outcome_ok {A} w log (a : A) :
  (length log <= 1)%nat -> query_outcome w (w, log, Ok a).
Proof. intros Hl. repeat split; simpl; auto. intros e [=]. Qed.

(** Neither query changes the planning world, whatever its arguments and
    its outcome; each makes at most one call into the collision backend,
    and none when it raises. *)
Theorem queries_only_read
    (w : PlanningWorld) (obj_A obj_B : SapienObject)
    (acm : AllowedCollisionMatrix) (return_distance_only : bool) :
  query_outcome w (check_collision_between obj_A obj_B acm w) /\
  query_outcome w (distance_between obj_A obj_B acm return_distance_only w).
Proof.
  unfold check_collision_between, distance_between.
  destruct (_get_collision_obj_pure w obj_A) as [[cA|e] HA];
    [|rewrite !(bind_run_raise _ _ _ _ _ _ HA); split; apply query_outcome_raise].
  rewrite !(bind_run_ok _ _ _ _ _ _ HA).
  destruct (_get_collision_obj_pure w obj_B) as [[cB|e] HB];
    [|rewrite !(bind_run_raise _ _ _ _ _ _ HB); split; apply query_outcome_raise].
  rewrite !(bind_run_ok _ _ _ _ _ _ HB).
  destruct obj_A as [a|eA|nA], obj_B as [b|eB|nB], cA as [mA|oA], cB as [mB|oB];
    run; try (split; apply query_outcome_raise);
    try (split; apply query_outcome_ok; simpl; lia).
  all: destruct (none_or_never _); cbn;
    try destruct (is_collision _); cbn;
    split; apply query_outcome_ok; simpl; lia.
Qed.

(** With an entity and an articulation of which at least one is
    registered, either query gives the same outcome in both argument
    orders; when both are registered it is the one call of the query of
    the articulation's collision model on the entity's entry, with the
    matrix passed through, and what that call returns. *)
Theorem articulation_argument_order
    (w : PlanningWorld) (e : Entity.t) (a : PhysxArticulation.t)
    (acm : AllowedCollisionMatrix) (return_distance_only : bool) :
  registered w (IsEntity e) \/ registered w (IsArticulation a) ->
  check_collision_between (IsEntity e) (IsArticulation a) acm w =
    check_collision_between (IsArticulation a) (IsEntity e) acm w /\
  distance_between (IsEntity e) (IsArticulation a) acm return_distance_only w =
    distance_between (IsArticulation a) (IsEntity e) acm return_distance_only w /\
  (forall m o,
     lookup_articulation w a = Some m ->
     lookup_object w e = Some o ->
     check_collision_between (IsEntity e) (IsArticulation a) acm w =
       (w, [Called_check_collision_with (FCLModel.mk m) (inr o) acm],
        Ok (check_collision_with (FCLModel.mk m) (inr o) acm)) /\
     distance_between (IsEntity e) (IsArticulation a) acm return_distance_only w =
       (w, [Called_distance_with (FCLModel.mk m) (inr o) acm],
        Ok (distance_return return_distance_only
              (distance_with (FCLModel.mk m) (inr o) acm)))).
Proof.
  intros Hreg.
  assert (Hboth : forall m o,
            lookup_articulation w a = Some m -> lookup_object w e = Some o ->
            _get_collision_obj (IsArticulation a) w = (w, [], Ok (inl (FCLModel.mk m))) /\
            _get_collision_obj (IsEntity e) w = (w, [], Ok (inr o))).
  { intros m o Hm Ho. split; [|by apply _get_collision_obj_entity].
    revert Hm. unfold lookup_articulation. run.
    destruct (convert_articulation_name_ok a) as [n ->]. cbn. by intros ->. }
  destruct (lookup_articulation w a) as [m|] eqn:Hm;
    destruct (lookup_object w e) as [o|] eqn:Ho.
  - destruct (Hboth m o eq_refl eq_refl) as [Ha He].
    assert (Hvalue :
      check_collision_between (IsEntity e) (IsArticulation a) acm w =
        (w, [Called_check_collision_with (FCLModel.mk m) (inr o) acm],
         Ok (check_collision_with (FCLModel.mk m) (inr o) acm)) /\
      distance_between (IsEntity e) (IsArticulation a) acm return_distance_only w =
        (w, [Called_distance_with (FCLModel.mk m) (inr o) acm],
         Ok (distance_return return_distance_only
               (distance_with (FCLModel.mk m) (inr o) acm)))).
    { unfold check_collision_between, distance_between.
      rewrite !(bind_run_ok _ _ _ _ _ _ He), !(bind_run_ok _ _ _ _ _ _ Ha).
      by run. }
    destruct Hvalue as [Hc Hd]. rewrite Hc, Hd.
    split; [|split].
    + unfold check_collision_between.
      rewrite !(bind_run_ok _ _ _ _ _ _ Ha), !(bind_run_ok _ _ _ _ _ _ He).
      by run.
    + unfold distance_between.
      rewrite !(bind_run_ok _ _ _ _ _ _ Ha), !(bind_run_ok _ _ _ _ _ _ He).
      by run.
    + intros m' o' [= <-] [= <-]. done.
  - assert (He : _get_collision_obj (IsEntity e) w =
                 (w, [], Raise (RuntimeError_object (Entity.name e)))).
    { apply (_get_collision_obj_unregistered w (IsEntity e)).
      cbn [registered]. rewrite Ho. by intros [? ?]. }
    assert (Ha : exists c, _get_collision_obj (IsArticulation a) w = (w, [], Ok c)).
    { apply _get_collision_obj_registered. cbn [registered]. by rewrite Hm. }
    destruct Ha as [c Ha].
    unfold check_collision_between, distance_between.
    rewrite !(bind_run_raise _ _ _ _ _ _ He), !(bind_run_ok _ _ _ _ _ _ Ha),
      !(bind_run_raise _ _ _ _ _ _ He).
    repeat split; done.
  - assert (Ha : _get_collision_obj (IsArticulation a) w =
                 (w, [], Raise (RuntimeError_object (PhysxArticulation.name a)))).
    { apply (_get_collision_obj_unregistered w (IsArticulation a)).
      cbn [registered]. rewrite Hm. by intros [? ?]. }
    assert (He : exists c, _get_collision_obj (IsEntity e) w = (w, [], Ok c)).
    { apply _get_collision_obj_registered. cbn [registered]. by rewrite Ho. }
    destruct He as [c He].
    unfold check_collision_between, distance_between.
    rewrite !(bind_run_ok _ _ _ _ _ _ He), !(bind_run_raise _ _ _ _ _ _ Ha).
    repeat split; done.
  - exfalso. cbn [registered] in Hreg. rewrite Hm, Ho in Hreg.
    destruct Hreg as [[? [=]]|[? [=]]].
Qed.

(** The distance query run for the distance alone has the same effects and
    raises the same exceptions as the query run for the whole record, and
    the number it returns is the minimum distance of that record. *)
Theorem distance_only_is_min_distance
    (w : PlanningWorld) (obj_A obj_B : SapienObject) (acm : AllowedCollisionMatrix) :
  match distance_between obj_A obj_B acm false w with
  | (w', log, Ok (inr record)) =>
      distance_between obj_A obj_B acm true w =
      (w', log, Ok (inl (WorldDistanceResult.min_distance record)))
  | (w', log, Ok (inl _)) => False
  | (w', log, Raise e) =>
      distance_between obj_A obj_B acm true w = (w', log, Raise e)
  end.
Proof.
  unfold distance_between, bind.
  destruct (_get_collision_obj obj_A w) as [[w1 log1] [cA|e]]; [|done].
  destruct (_get_collision_obj obj_B w1) as [[w2 log2] [cB|e]]; [|done].
  match goal with
  | |- context [match ?X w2 with _ => _ end] => destruct (X w2) as [[w3 log3] [r|e]]
  end; done.
Qed.

(** For two entities with collision entries, when the matrix gives the
    same answer for the two entry names in both orders and the pairwise
    primitive reports a collision in one order exactly when it does in
    the other, the collision query reports the empty list in one argument
    order exactly when it does in the other; a collision it reports is
    the one record with the two entry names in the order of the
    arguments. *)
Theorem object_object_outcome_symmetric
    (w : PlanningWorld) (eA eB : Entity.t) (acm : AllowedCollisionMatrix)
    (a b : FCLObject.t) :
  lookup_object w eA = Some a ->
  lookup_object w eB = Some b ->
  get_allowed_collision acm (FCLObject.name a) (FCLObject.name b) =
    get_allowed_collision acm (FCLObject.name b) (FCLObject.name a) ->
  is_collision (collide a b) = is_collision (collide b a) ->
  ((check_collision_between (IsEntity eA) (IsEntity eB) acm w).2 = Ok [] <->
   (check_collision_between (IsEntity eB) (IsEntity eA) acm w).2 = Ok []) /\
  ((check_collision_between (IsEntity eA) (IsEntity eB) acm w).2 <> Ok [] ->
   (check_collision_between (IsEntity eA) (IsEntity eB) acm w).2 =
     Ok [object_object_collision a b] /\
   (check_collision_between (IsEntity eB) (IsEntity eA) acm w).2 =
     Ok [object_object_collision b a]).
Proof.
  intros Ha Hb Hacm Hcol.
  rewrite (check_collision_between_entities w eA eB acm a b Ha Hb).
  rewrite (check_collision_between_entities w eB eA acm b a Hb Ha).
  rewrite <- Hacm, <- Hcol.
  destruct (none_or_never _); cbn; [|by split].
  destruct (is_collision (collide a b)); cbn; by split.
Qed.

End QueryExtras.

(** ** Registration of an object *)

Section AddObjectExtras.
Context `{Backend}.

Lemma convert_physx_component_supported comp :
  forallb supported (PhysxRigidBaseComponent.collision_shapes comp) = true ->
  exists r, convert_physx_component comp = Ok r.
Proof.
  intros Hall. unfold convert_physx_component.
  destruct (convert_shapes_loop_supported _ ([], []) Hall) as [[S P] ->]. simpl.
  destruct (decide _); [eauto|].
  destruct (PhysxRigidBaseComponent.is_link comp); simpl; eauto.
Qed.

Lemma convert_physx_component_raises comp e :
  convert_physx_component comp = Raise e ->
  e = TypeError_shape /\
  forallb supported (PhysxRigidBaseComponent.collision_shapes comp) = false.
Proof.
  intros He.
  destruct (forallb supported (PhysxRigidBaseComponent.collision_shapes comp)) eqn:Hall.
  - destruct (convert_physx_component_supported _ Hall) as [r Hr]. congruence.
  - unfold convert_physx_component in He.
    rewrite (convert_shapes_loop_unsupported _ _ Hall) in He. simpl in He.
    by injection He as <-.
Qed.

Lemma convert_physx_component_name comp entry :
  convert_physx_component comp = Ok (Some entry) ->
  FCLObject.pose entry = Pose_of (Entity.pose (PhysxRigidBaseComponent.entity comp)) /\
  (if PhysxRigidBaseComponent.is_link comp
   then FCLObject.name entry = PhysxRigidBaseComponent.name comp
   else convert_object_name (IsEntity (PhysxRigidBaseComponent.entity comp)) =
        Ok (FCLObject.name entry)).
Proof.
  unfold convert_physx_component.
  destruct (convert_shapes_loop _ _) as [[S P]|e]; [|done]. simpl.
  destruct (decide _); [done|].
  destruct (PhysxRigidBaseComponent.is_link comp); simpl; by intros [= <-].
Qed.

(** [add_object] on an entity whose rigid-body component is its own, is
    not an articulation link and has at least one shape, all of known
    classes, returns without any effect other than storing the converted
    entry under the unique name of the entity, at the pose of the entity:
    the entity resolves to that entry afterwards, the entries of the other
    names are as before, and so are articulations and attached objects. *)
Theorem add_object_registers_entity
    (w : PlanningWorld) (actor : Actor.t) (component : PhysxRigidBaseComponent.t) :
  Actor.find_component actor = Some component ->
  PhysxRigidBaseComponent.entity component = Actor.entity actor ->
  PhysxRigidBaseComponent.is_link component = false ->
  PhysxRigidBaseComponent.collision_shapes component <> [] ->
  forallb supported (PhysxRigidBaseComponent.collision_shapes component) = true ->
  exists entry w',
    add_object (inr actor) w = (w', [], Ok tt) /\
    convert_physx_component component = Ok (Some entry) /\
    FCLObject.pose entry = Pose_of (Entity.pose (Actor.entity actor)) /\
    lookup_object w' (Actor.entity actor) = Some entry /\
    _get_collision_obj (IsEntity (Actor.entity actor)) w' = (w', [], Ok (inr entry)) /\
    (forall e',
       convert_object_name (IsEntity e') <>
       convert_object_name (IsEntity (Actor.entity actor)) ->
       lookup_object w' e' = lookup_object w e') /\
    articulation_map w' = articulation_map w /\
    attached_body_map w' = attached_body_map w.
Proof.
  intros Hc Hown Hlink Hne Hall.
  destruct (convert_physx_component_supported _ Hall) as [[entry|] Hconv].
  2:{ exfalso. unfold convert_physx_component in Hconv.
      destruct (convert_shapes_loop _ _) as [[S P]|e] eqn:Hloop; [|done].
      apply convert_shapes_loop_ok in Hloop as (gs & ps & -> & -> & Hgs & _).
      simpl in Hconv. destruct (decide _) as [E|E].
      - destruct (PhysxRigidBaseComponent.collision_shapes component); [done|].
        simpl in *. lia.
      - by destruct (PhysxRigidBaseComponent.is_link component). }
  destruct (convert_physx_component_name _ _ Hconv) as [Hpose Hname].
  rewrite Hlink, Hown in Hname. rewrite Hown in Hpose.
  exists entry. eexists. split.
  { run. rewrite Hc, Hconv. cbn. reflexivity. }
  split; [done|]. split; [done|].
  assert (Hlook : lookup_object
            {| articulation_map := articulation_map w;
               object_map := <[FCLObject.name entry:=entry]> (object_map w);
               attached_body_map := attached_body_map w;
               planned_articulations := planned_articulations w;
               acm_ := acm_ w |} (Actor.entity actor) = Some entry).
  { unfold lookup_object. rewrite Hname. project. apply lookup_insert_eq. }
  split; [exact Hlook|]. split; [by apply _get_collision_obj_entity|].
  split; [|done].
  intros e' Hne'. unfold lookup_object.
  destruct (convert_object_name (IsEntity e')) as [n'|] eqn:En'; [|done].
  project. apply lookup_insert_ne. congruence.
Qed.

(** [add_object] emits nothing, leaves articulations, attached objects,
    planned names and the matrix as they are, and removes no entry.  It
    raises only for an entity: the assertion error when the entity has no
    rigid-body component, the unknown-shape error when a shape of the
    component is of no known class; and then the world is as it was. *)
Theorem add_object_frame (w : PlanningWorld) (obj : FCLObject.t + Actor.t) :
  let out := add_object obj w in
  out.1.2 = [] /\
  articulation_map out.1.1 = articulation_map w /\
  attached_body_map out.1.1 = attached_body_map w /\
  planned_articulations out.1.1 = planned_articulations w /\
  acm_ out.1.1 = acm_ w /\
  dom (object_map w) ⊆ dom (object_map out.1.1) /\
  (forall e, out.2 = Raise e ->
     out.1.1 = w /\
     exists actor,
       obj = inr actor /\
       ((Actor.find_component actor = None /\ e = AssertionError) \/
        (exists component,
           Actor.find_component actor = Some component /\
           forallb supported
             (PhysxRigidBaseComponent.collision_shapes component) = false /\
           e = TypeError_shape))).
Proof.
  destruct obj as [o|actor]; run.
  - repeat split; try done. apply dom_insert_subseteq.
  - destruct (Actor.find_component actor) as [c|] eqn:Hc.
    + destruct (convert_physx_component c) as [[entry|]|e] eqn:Hconv; cbn.
      * repeat split; try done. apply dom_insert_subseteq.
      * repeat split; try done; reflexivity.
      * destruct (convert_physx_component_raises _ _ Hconv) as [-> Hall].
        repeat split; try done; try reflexivity.
        match goal with Hr : _ = Raise _ |- _ => cbn in Hr; injection Hr as <- end.
        exists actor. split; [done|]. right. by exists c.
    + repeat split; try done; try reflexivity.
      match goal with Hr : _ = Raise _ |- _ => cbn in Hr; injection Hr as <- end.
      exists actor. split; [done|]. by left.
Qed.

End AddObjectExtras.

(** ** Further properties of the synchronisation *)

Section SynchronisationExtras.
Context `{Backend}.

Lemma only_poses_differ_refl w : only_poses_differ w w.
Proof. by repeat split. Qed.

Lemma only_poses_differ_trans w1 w2 w3 :
  only_poses_differ w1 w2 -> only_poses_differ w2 w3 -> only_poses_differ w1 w3.
Proof.
  intros (A1 & B1 & C1 & D1 & E1) (A2 & B2 & C2 & D2 & E2).
  repeat split; intros; congruence.
Qed.

Lemma fmap_lookup_alter_invariant {A B} (g : A -> B) (f : A -> A)
    (m : gmap string A) (i n : string) :
  (forall x, g (f x) = g x) ->
  g <$> (alter f i m !! n) = g <$> (m !! n).
Proof.
  intros Hg. rewrite lookup_alter. case_decide; [subst|done].
  destruct (m !! n); simpl; [|done]. by rewrite Hg.
Qed.

Lemma fmap_lookup_insert_invariant {A B} (g : A -> B)
    (m : gmap string A) (i n : string) (x y : A) :
  m !! i = Some x -> g y = g x ->
  g <$> (<[i:=y]> m !! n) = g <$> (m !! n).
Proof.
  intros Hx Hg. rewrite lookup_insert. case_decide; [subst|done].
  rewrite Hx. simpl. by rewrite Hg.
Qed.

Lemma sync_articulation_only_poses a w :
  only_poses_differ w (sync_articulation a w).1.1.
Proof.
  destruct (lookup_articulation w a) as [m|] eqn:Hm.
  - destruct (sync_articulation_found _ _ _ Hm) as (n & En & ->). project.
    repeat split; try done. intros k. by apply fmap_lookup_alter_invariant.
  - rewrite (sync_articulation_missing _ _ Hm). apply only_poses_differ_refl.
Qed.

Lemma sync_actor_only_poses flag actor w :
  only_poses_differ w (sync_actor flag actor w).1.1.
Proof.
  destruct (convert_entity_name_ok (Actor.entity actor)) as [n En].
  run. rewrite En. cbn.
  destruct (attached_body_map w !! n) as [body|] eqn:Hbody; cbn.
  - destruct flag; cbn.
    + rewrite lookup_alter_eq, Hbody. cbn.
      repeat split; project; try done; intros k;
        by apply fmap_lookup_alter_invariant.
    + rewrite Hbody. repeat split; project; try done; intros k;
        by apply fmap_lookup_alter_invariant.
  - destruct (object_map w !! n) as [obj|] eqn:Hobj; cbn.
    + repeat split; project; try done. intros k.
      by apply (fmap_lookup_insert_invariant _ _ _ _ obj).
    + destruct (Actor.find_component actor) as [component|]; cbn;
        [|apply only_poses_differ_refl].
      destruct (decide _); cbn; apply only_poses_differ_refl.
Qed.

Lemma names_kept_or_keyed_refl w : names_kept_or_keyed w w.
Proof. intros n o Ho. exists o. auto. Qed.

Lemma names_kept_or_keyed_trans w1 w2 w3 :
  names_kept_or_keyed w1 w2 -> names_kept_or_keyed w2 w3 ->
  names_kept_or_keyed w1 w3.
Proof.
  intros H12 H23 n o3 Ho3.
  destruct (H23 n o3 Ho3) as (o2 & Ho2 & Hn23).
  destruct (H12 n o2 Ho2) as (o1 & Ho1 & Hn12).
  exists o1. split; [done|].
  destruct Hn23 as [->| ->]; [exact Hn12|by right].
Qed.

Lemma names_kept_or_keyed_alter (w : PlanningWorld)
    (f : FCLObject.t -> FCLObject.t) (i : string) :
  (forall o, FCLObject.name (f o) = FCLObject.name o) ->
  forall (n : string) (o' : FCLObject.t),
    alter f i (object_map w) !! n = Some o' ->
    exists o,
      object_map w !! n = Some o /\
      (FCLObject.name o' = FCLObject.name o \/ FCLObject.name o' = n).
Proof.
  intros Hf n o'. rewrite lookup_alter. case_decide; [subst|by eauto].
  destruct (object_map w !! n) as [o|]; cbn; [|done].
  intros [= <-]. exists o. split; [done|]. left. apply Hf.
Qed.

Lemma sync_articulation_names a w :
  names_kept_or_keyed w (sync_articulation a w).1.1.
Proof.
  destruct (lookup_articulation w a) as [m|] eqn:Hm.
  - destruct (sync_articulation_found _ _ _ Hm) as (n & En & ->). project.
    intros k o' Ho'. exists o'. auto.
  - rewrite (sync_articulation_missing _ _ Hm). apply names_kept_or_keyed_refl.
Qed.

Lemma sync_actor_names flag actor w :
  names_kept_or_keyed w (sync_actor flag actor w).1.1.
Proof.
  destruct (convert_entity_name_ok (Actor.entity actor)) as [n En].
  run. rewrite En. cbn.
  destruct (attached_body_map w !! n) as [body|] eqn:Hbody; cbn.
  - destruct flag; cbn.
    + rewrite lookup_alter_eq, Hbody. cbn. intros k o'. project.
      by apply (names_kept_or_keyed_alter w _ n).
    + rewrite Hbody. intros k o'. project.
      by apply (names_kept_or_keyed_alter w _ n).
  - destruct (object_map w !! n) as [obj|] eqn:Hobj; cbn.
    + intros k o'. project. rewrite lookup_insert. case_decide; [subst k|by eauto].
      intros [= <-]. exists obj. split; [done|]. by right.
    + destruct (Actor.find_component actor) as [component|]; cbn;
        [|apply names_kept_or_keyed_refl].
      destruct (decide _); cbn; apply names_kept_or_keyed_refl.
Qed.

(** A synchronisation, returning or raising, writes nothing but poses,
    joint positions and the names of entries: every entry keeps its shapes
    and their local poses, every attached object its link, articulation
    and touch links, every articulated model its description and collision
    links; the planned names and the matrix are as before.  The name of an
    entry is kept or replaced by the name the entry is stored under; in a
    world whose entries are stored under their own names every entry keeps
    its name, and the world after the call is such a world again. *)
Theorem update_from_simulation_only_refreshes_poses
    (sim_scene : Scene.t) (update_attached_object : bool) (w : PlanningWorld) :
  let w' := (update_from_simulation sim_scene update_attached_object w).1.1 in
  only_poses_differ w w' /\
  names_kept_or_keyed w w' /\
  (stored_under_own_names w ->
   stored_under_own_names w' /\
   forall n : string,
     FCLObject.name <$> (object_map w' !! n) =
     FCLObject.name <$> (object_map w !! n)).
Proof.
  cbv zeta.
  assert (only_poses_differ w
            (update_from_simulation sim_scene update_attached_object w).1.1 /\
          names_kept_or_keyed w
            (update_from_simulation sim_scene update_attached_object w).1.1)
    as [Hposes Hnames].
  { unfold update_from_simulation, bind.
    pose proof (for_each_preserves sync_articulation only_poses_differ
                  only_poses_differ_refl only_poses_differ_trans
                  sync_articulation_only_poses
                  (Scene.get_all_articulations sim_scene) w) as H1.
    pose proof (for_each_preserves sync_articulation names_kept_or_keyed
                  names_kept_or_keyed_refl names_kept_or_keyed_trans
                  sync_articulation_names
                  (Scene.get_all_articulations sim_scene) w) as N1.
    destruct (for_each sync_articulation _ w) as [[w1 log1] [[]|e]]; [|done].
    pose proof (for_each_preserves (sync_actor update_attached_object)
                  only_poses_differ
                  only_poses_differ_refl only_poses_differ_trans
                  (sync_actor_only_poses update_attached_object)
                  (Scene.get_all_actors sim_scene) w1) as H2.
    pose proof (for_each_preserves (sync_actor update_attached_object)
                  names_kept_or_keyed
                  names_kept_or_keyed_refl names_kept_or_keyed_trans
                  (sync_actor_names update_attached_object)
                  (Scene.get_all_actors sim_scene) w1) as N2.
    destruct (for_each (sync_actor update_attached_object) _ w1) as [[w2 log2] r].
    project. split.
    - by eapply only_poses_differ_trans.
    - by eapply names_kept_or_keyed_trans. }
  split; [exact Hposes|]. split; [exact Hnames|].
  intros Hown. split.
  - intros n o' Ho'. destruct (Hnames n o' Ho') as (o & Ho & [Hn|Hn]); [|done].
    rewrite Hn. by apply Hown.
  - intros n. destruct Hposes as (Hshapes & _). specialize (Hshapes n).
    destruct (object_map _ !! n) as [o'|] eqn:Ho'.
    + destruct (Hnames n o' Ho') as (o & Ho & Hn). rewrite Ho. cbn. f_equal.
      destruct Hn as [Hn|Hn]; [done|]. rewrite Hn. symmetry. by apply Hown.
    + by destruct (object_map w !! n).
Qed.

(** *** When a synchronisation returns *)

Lemma articulation_missing_membership w w' a :
  same_membership w w' -> articulation_missing w' a = articulation_missing w a.
Proof.
  intros (Hd & _). unfold articulation_missing, lookup_articulation.
  destruct (convert_object_name (IsArticulation a)) as [n|]; [|done].
  destruct (articulation_map w !! n) eqn:E, (articulation_map w' !! n) eqn:E';
    try done.
  - apply not_elem_of_dom in E'. rewrite Hd in E'. apply not_elem_of_dom in E'.
    congruence.
  - apply not_elem_of_dom in E. rewrite <- Hd in E. apply not_elem_of_dom in E.
    congruence.
Qed.

Lemma lookup_None_dom {A} (m m' : gmap string A) (k : string) :
  dom m' = dom m -> m !! k = None -> m' !! k = None.
Proof. intros Hd Hk. apply not_elem_of_dom. rewrite Hd. by apply not_elem_of_dom. Qed.

Lemma actor_handled_membership w w' actor :
  same_membership w w' -> actor_handled w' actor = actor_handled w actor.
Proof.
  intros (_ & Ho & Ha & _). unfold actor_handled, lookup_attached, lookup_object.
  destruct (convert_object_name (IsEntity (Actor.entity actor))) as [n|]; [|done].
  destruct (attached_body_map w !! n) eqn:E1, (attached_body_map w' !! n) eqn:E1'.
  1: done.
  1: by rewrite (lookup_None_dom _ _ _ (eq_sym Ha) E1') in E1.
  1: by rewrite (lookup_None_dom _ _ _ Ha E1) in E1'.
  destruct (object_map w !! n) eqn:E2, (object_map w' !! n) eqn:E2'.
  1: done.
  1: by rewrite (lookup_None_dom _ _ _ (eq_sym Ho) E2') in E2.
  1: by rewrite (lookup_None_dom _ _ _ Ho E2) in E2'.
  done.
Qed.

Lemma sync_articulation_result a w :
  (sync_articulation a w).2 =
  if articulation_missing w a
  then Raise (RuntimeError_articulation (PhysxArticulation.name a))
  else Ok tt.
Proof.
  unfold articulation_missing.
  destruct (lookup_articulation w a) as [m|] eqn:Hm.
  - by destruct (sync_articulation_found _ _ _ Hm) as (n & En & ->).
  - by rewrite (sync_articulation_missing _ _ Hm).
Qed.

Lemma sync_actor_result flag actor w :
  (sync_actor flag actor w).2 =
  if actor_handled w actor then Ok tt else Raise AttributeError.
Proof.
  unfold actor_handled, lookup_attached, lookup_object.
  destruct (convert_entity_name_ok (Actor.entity actor)) as [n En].
  run. rewrite En. cbn.
  destruct (attached_body_map w !! n) as [body|] eqn:Hbody; cbn.
  - destruct flag; cbn; [|done]. done.
  - destruct (object_map w !! n) as [obj|] eqn:Hobj; cbn; [done|].
    destruct (Actor.find_component actor) as [component|]; cbn; [|done].
    by destruct (decide _).
Qed.

Lemma find_ext_all {A} (f g : A -> bool) (l : list A) :
  (forall x, f x = g x) -> find f l = find g l.
Proof. intros E. induction l as [|x l IH]; [done|]. cbn. by rewrite E, IH. Qed.

Lemma forallb_ext_all {A} (f g : A -> bool) (l : list A) :
  (forall x, f x = g x) -> forallb f l = forallb g l.
Proof. intros E. induction l as [|x l IH]; [done|]. cbn. by rewrite E, IH. Qed.

Lemma for_each_sync_articulation_result l : forall w,
  (for_each sync_articulation l w).2 =
  match find (articulation_missing w) l with
  | Some a => Raise (RuntimeError_articulation (PhysxArticulation.name a))
  | None => Ok tt
  end.
Proof.
  induction l as [|a l IH]; intros w; [done|].
  rewrite for_each_cons. cbn [find].
  pose proof (sync_articulation_result a w) as Hr.
  destruct (sync_articulation_frame a w) as (Hmem & _).
  destruct (sync_articulation a w) as [[w1 log1] [[]|e]]; cbn in Hr, Hmem.
  - destruct (articulation_missing w a); [done|].
    specialize (IH w1). destruct (for_each sync_articulation l w1) as [[w2 log2] r].
    cbn in *. rewrite IH.
    by rewrite (find_ext_all _ (articulation_missing w) l
                  (fun b => articulation_missing_membership w w1 b Hmem)).
  - by destruct (articulation_missing w a).
Qed.

Lemma for_each_sync_actor_result flag l : forall w,
  (for_each (sync_actor flag) l w).2 =
  if forallb (actor_handled w) l then Ok tt else Raise AttributeError.
Proof.
  induction l as [|a l IH]; intros w; [done|].
  rewrite for_each_cons. cbn [forallb].
  pose proof (sync_actor_result flag a w) as Hr.
  destruct (sync_actor_frame flag a w) as (Hmem & _).
  destruct (sync_actor flag a w) as [[w1 log1] [[]|e]]; cbn in Hr, Hmem.
  - destruct (actor_handled w a); [|done].
    specialize (IH w1). destruct (for_each (sync_actor flag) l w1) as [[w2 log2] r].
    cbn in *. rewrite IH.
    by rewrite (forallb_ext_all _ (actor_handled w) l
                  (fun b => actor_handled_membership w w1 b Hmem)).
  - destruct (actor_handled w a); [done|]. by injection Hr as ->.
Qed.

(** The outcome of a synchronisation, read on the world before the call:
    with an articulation that has no model, the out-of-sync error for the
    first such articulation; otherwise, with an actor that is neither
    attached nor registered and has no rigid-body component, the attribute
    error; otherwise the call returns. *)
Theorem update_from_simulation_outcome
    (sim_scene : Scene.t) (update_attached_object : bool) (w : PlanningWorld) :
  (update_from_simulation sim_scene update_attached_object w).2 =
  match find (articulation_missing w) (Scene.get_all_articulations sim_scene) with
  | Some a => Raise (RuntimeError_articulation (PhysxArticulation.name a))
  | None =>
      if forallb (actor_handled w) (Scene.get_all_actors sim_scene)
      then Ok tt
      else Raise AttributeError
  end.
Proof.
  unfold update_from_simulation, bind.
  pose proof (for_each_sync_articulation_result
                (Scene.get_all_articulations sim_scene) w) as H1.
  pose proof (for_each_sync_articulation_frame
                (Scene.get_all_articulations sim_scene) w) as (Hmem & _).
  destruct (for_each sync_articulation _ w) as [[w1 log1] [[]|e]]; cbn in H1, Hmem.
  - destruct (find _ _); [done|].
    pose proof (for_each_sync_actor_result update_attached_object
                  (Scene.get_all_actors sim_scene) w1) as H2.
    destruct (for_each (sync_actor update_attached_object) _ w1) as [[w2 log2] r].
    cbn in *. rewrite H2.
    by rewrite (forallb_ext_all _ (actor_handled w) _
                  (fun b => actor_handled_membership w w1 b Hmem)).
  - by destruct (find _ _).
Qed.

(** *** The pose of a registered object *)

Lemma sync_actor_other flag actor w (n : string) :
  convert_object_name (IsEntity (Actor.entity actor)) <> Ok n ->
  object_map (sync_actor flag actor w).1.1 !! n = object_map w !! n /\
  attached_body_map (sync_actor flag actor w).1.1 !! n = attached_body_map w !! n.
Proof.
  destruct (convert_entity_name_ok (Actor.entity actor)) as [k Ek].
  rewrite Ek. intros Hne. assert (k <> n) by congruence.
  run. rewrite Ek. cbn.
  destruct (attached_body_map w !! k) as [body|] eqn:Hbody; cbn.
  - destruct flag; cbn.
    + rewrite lookup_alter_eq, Hbody. cbn. by rewrite !lookup_alter_ne.
    + rewrite Hbody. cbn. by rewrite lookup_alter_ne.
  - destruct (object_map w !! k) as [obj|] eqn:Hobj; cbn.
    + by rewrite lookup_insert_ne.
    + destruct (Actor.find_component actor) as [component|]; cbn; [|done].
      by destruct (decide _).
Qed.

Lemma for_each_sync_actor_other flag l (n : string) : forall w,
  (forall b, b ∈ l -> convert_object_name (IsEntity (Actor.entity b)) <> Ok n) ->
  object_map (for_each (sync_actor flag) l w).1.1 !! n = object_map w !! n.
Proof.
  induction l as [|a l IH]; intros w Hl; [done|].
  rewrite for_each_cons.
  destruct (sync_actor_other flag a w n (Hl a ltac:(left))) as [Ha _].
  destruct (sync_actor flag a w) as [[w1 log1] [[]|e]]; cbn in *; [|done].
  specialize (IH w1 (fun b Hb => Hl b ltac:(by right))).
  destruct (for_each (sync_actor flag) l w1) as [[w2 log2] r]; cbn in *.
  congruence.
Qed.

(** When a synchronisation returns, the entry of a body that is registered
    and not attached, and whose unique name no later actor of the
    enumeration shares, is stored under that name at the current pose of
    the body, with the shapes and the local poses it had before the
    call. *)
Theorem update_from_simulation_refreshes_object
    (sim_scene : Scene.t) (update_attached_object : bool) (w w' : PlanningWorld)
    (log : list Effect) (pre post : list Actor.t) (actor : Actor.t)
    (entry : FCLObject.t) :
  update_from_simulation sim_scene update_attached_object w = (w', log, Ok tt) ->
  Scene.get_all_actors sim_scene = pre ++ actor :: post ->
  (forall b, b ∈ post ->
     convert_object_name (IsEntity (Actor.entity b)) <>
     convert_object_name (IsEntity (Actor.entity actor))) ->
  lookup_attached w (Actor.entity actor) = None ->
  lookup_object w (Actor.entity actor) = Some entry ->
  exists name,
    convert_object_name (IsEntity (Actor.entity actor)) = Ok name /\
    lookup_object w' (Actor.entity actor) =
      Some (FCLObject.mk name (Pose_of (Entity.pose (Actor.entity actor)))
              (FCLObject.shapes entry) (FCLObject.shape_poses entry)).
Proof.
  intros Hrun Hactors Hpost Hatt Hobj.
  destruct (convert_entity_name_ok (Actor.entity actor)) as [n En].
  exists n. split; [done|].
  unfold lookup_attached, lookup_object in *. rewrite En in *.
  unfold update_from_simulation, bind in Hrun.
  pose proof (for_each_sync_articulation_frame
                (Scene.get_all_articulations sim_scene) w) as (_ & Ho1 & Ha1).
  destruct (for_each sync_articulation _ w) as [[w1 log1] [[]|e]]; [|done].
  cbn in Ho1, Ha1. rewrite Hactors, for_each_app in Hrun.
  pose proof (for_each_preserves (sync_actor update_attached_object)
                only_poses_differ
                only_poses_differ_refl only_poses_differ_trans
                (sync_actor_only_poses update_attached_object) pre w1)
    as (Hshapes & _).
  pose proof (for_each_sync_actor_frame update_attached_object pre w1)
    as ((_ & _ & Hda & _) & _).
  destruct (for_each (sync_actor update_attached_object) pre w1)
    as [[w2 log2] [[]|e]]; [|done].
  cbn in Hshapes, Hda. rewrite for_each_cons in Hrun.
  assert (Hatt2 : attached_body_map w2 !! n = None).
  { apply (lookup_None_dom (attached_body_map w1)); [done|]. by rewrite Ha1. }
  specialize (Hshapes n). rewrite Ho1, Hobj in Hshapes.
  destruct (object_map w2 !! n) as [entry2|] eqn:Hobj2; [|done].
  injection Hshapes as Hs Hp.
  assert (Hstep : sync_actor update_attached_object actor w2 =
            (mkWorld (articulation_map w2)
               (<[n := FCLObject.mk n (Pose_of (Entity.pose (Actor.entity actor)))
                         (FCLObject.shapes entry) (FCLObject.shape_poses entry)]>
                  (object_map w2))
               (attached_body_map w2) (planned_articulations w2) (acm_ w2),
             [], Ok tt)).
  { run. rewrite En. cbn. rewrite Hatt2. cbn. rewrite Hobj2. cbn.
    by rewrite Hs, Hp. }
  rewrite Hstep in Hrun.
  match type of Hrun with
  | context [for_each _ post ?w3] =>
      pose proof (for_each_sync_actor_other update_attached_object post n w3) as Hother
  end.
  destruct (for_each (sync_actor update_attached_object) post _)
    as [[w4 log4] r4]. injection Hrun as <- _ _.
  cbn [fst snd object_map] in Hother. rewrite Hother.
  - apply lookup_insert_eq.
  - intros b Hb. by apply Hpost.
Qed.

End SynchronisationExtras.

(** ** The planner adapter *)

Section PlannerFacts.
Context `{PlannerBackend}.

Lemma enumerate_dict_snoc l x :
  enumerate_dict (l ++ [x]) = <[x := length l]> (enumerate_dict l).
Proof.
  unfold enumerate_dict. rewrite imap_app, foldl_app. cbn.
  by rewrite Nat.add_0_r.
Qed.

Lemma lookup_snoc_other {A} (l : list A) (x y : A) j :
  y <> x -> (l ++ [y]) !! j = Some x <-> l !! j = Some x.
Proof.
  intros Hne. destruct (decide (j < length l)) as [Hlt|Hge].
  - by rewrite lookup_app_l.
  - rewrite lookup_app_r by lia. rewrite (lookup_ge_None_2 l j) by lia.
    split; [|done]. destruct (j - length l) as [|k]; cbn; [congruence|done].
Qed.

Lemma enumerate_dict_lookup l : forall x i,
  enumerate_dict l !! x = Some i <->
  l !! i = Some x /\ forall j, l !! j = Some x -> j <= i.
Proof.
  induction l as [|y l IH] using rev_ind; intros x i.
  - unfold enumerate_dict; cbn. rewrite lookup_empty. split; [done|].
    intros [Hl _]. by rewrite lookup_nil in Hl.
  - rewrite enumerate_dict_snoc. destruct (decide (y = x)) as [->|Hne].
    + rewrite lookup_insert_eq. split.
      * intros [= <-]. split; [by rewrite list_lookup_middle|].
        intros j Hj. apply lookup_lt_Some in Hj.
        rewrite length_app in Hj. cbn in Hj. lia.
      * intros [Hi Hmax]. f_equal.
        apply lookup_lt_Some in Hi. rewrite length_app in Hi. cbn in Hi.
        specialize (Hmax (length l)).
        rewrite list_lookup_middle in Hmax by done.
        specialize (Hmax eq_refl). lia.
    + rewrite lookup_insert_ne by done. rewrite IH.
      split; intros [Hi Hmax];
        (split; [by apply (lookup_snoc_other l x y i Hne)|]);
        intros j Hj; apply Hmax; by apply (lookup_snoc_other l x y j Hne).
Qed.

Lemma enumerate_dict_is_Some l x : x ∈ l -> is_Some (enumerate_dict l !! x).
Proof.
  induction l as [|y l IH] using rev_ind; [by intros ?%elem_of_nil|].
  rewrite enumerate_dict_snoc. intros Hin.
  destruct (decide (y = x)) as [->|Hne]; [by rewrite lookup_insert_eq|].
  rewrite lookup_insert_ne by done. apply IH.
  apply elem_of_app in Hin as [Hin|Hin]; [done|].
  apply list_elem_of_singleton in Hin. congruence.
Qed.

Lemma broadcast_and_built a b :
  a <> [] ->
  (exists mask, broadcast_and a b = Built mask) <->
  (length a = length b \/ length a = 1 \/ length b = 1).
Proof.
  intros Ha. unfold broadcast_and. destruct a as [|x a]; [done|].
  case_decide as Hlen; [split; eauto|].
  destruct a as [|x' a].
  - split; eauto.
  - destruct b as [|y [|y' b]]; cbn in *; split; eauto.
    + intros [? [=]].
    + intros [?|[?|?]]; lia.
    + intros [? [=]].
    + intros [?|[?|?]]; lia.
Qed.

Lemma broadcast_and_outcome a b :
  a <> [] ->
  (exists mask, broadcast_and a b = Built mask) \/
  broadcast_and a b = Fails ValueError_broadcast.
Proof.
  intros Ha. unfold broadcast_and. destruct a as [|x a]; [done|].
  case_decide; [eauto|]. destruct a as [|x' a]; [eauto|].
  destruct b as [|y [|y' b]]; eauto.
Qed.


Lemma np_concatenate_map {A B} (f : A -> list B) (l : list A) :
  l <> [] -> np_concatenate (map f l) = Built (concat (map f l)).
Proof. by destruct l. Qed.

Lemma SapienPlanner_init_run w mg v a robot :
  get_planned_articulations w = [robot] ->
  mg ∈ PinocchioModel.link_names (get_pinocchio_model robot) ->
  PinocchioModel.joints (get_pinocchio_model robot) <> [] ->
  let model := get_pinocchio_model robot in
  let indices := get_move_group_joint_indices robot mg in
  let rows := concat (PinocchioModel.get_joint_limits model) in
  exists id,
    enumerate_dict (PinocchioModel.link_names model) !! mg = Some id /\
    SapienPlanner_init w mg v a =
    (Called_set_move_group robot mg ::
       map warn_collision (check_robot_collision w robot mg) ++
       (if lengths_ok v a indices rows then
          match compute_equiv_joint_mask (PinocchioModel.get_joint_types model) rows with
          | Built _ => [Called_OMPLPlanner]
          | Fails _ => []
          end
        else []),
     if lengths_ok v a indices rows then
       match compute_equiv_joint_mask (PinocchioModel.get_joint_types model) rows with
       | Built mask =>
           Built (SapienPlanner.mk _ _ w (acm_ w) robot model
                    (PinocchioModel.get_link_names model)
                    (PinocchioModel.get_joint_names model)
                    (enumerate_dict (PinocchioModel.get_joint_names model))
                    (enumerate_dict (PinocchioModel.get_link_names model))
                    mg indices (PinocchioModel.get_joint_types model) rows
                    (default_ones v (length indices))
                    (default_ones a (length indices)) id mask)
       | Fails e => Fails e
       end
     else Fails AssertionError_limits).
Proof.
  intros Hplanned Hmg Hjoints model indices rows.
  destruct (enumerate_dict_is_Some _ _ Hmg) as [id Hid].
  exists id. split; [done|].
  unfold SapienPlanner_init. rewrite Hplanned. cbv zeta.
  rewrite bool_decide_eq_true_2 by done.
  subst model indices rows.
  unfold dict_getitem, PinocchioModel.get_link_names,
    PinocchioModel.get_joint_limits, lengths_ok.
  rewrite Hid, np_concatenate_map by done.
  unfold build_bind, build_emit, build_lift, build_ret, build_fail.
  destruct (_ && _); [|by rewrite app_nil_r].
  by destruct (compute_equiv_joint_mask _ _); rewrite ?app_nil_r.
Qed.


Lemma SapienPlanner_init_not_one_planned w mg v a :
  length (get_planned_articulations w) <> 1 ->
  SapienPlanner_init w mg v a = ([], Fails NotImplementedError_planned).
Proof.
  unfold SapienPlanner_init.
  by destruct (get_planned_articulations w) as [|robot [|other rest]].
Qed.

Lemma SapienPlanner_init_no_end_effector w mg v a robot :
  get_planned_articulations w = [robot] ->
  mg ∉ PinocchioModel.link_names (get_pinocchio_model robot) ->
  SapienPlanner_init w mg v a = ([], Fails AssertionError_end_effector).
Proof.
  intros Hplanned Hmg. unfold SapienPlanner_init. rewrite Hplanned. cbv zeta.
  by rewrite bool_decide_eq_false_2.
Qed.

Lemma SapienPlanner_init_no_joints w mg v a robot :
  get_planned_articulations w = [robot] ->
  mg ∈ PinocchioModel.link_names (get_pinocchio_model robot) ->
  PinocchioModel.joints (get_pinocchio_model robot) = [] ->
  SapienPlanner_init w mg v a =
  ([Called_set_move_group robot mg], Fails ValueError_concatenate).
Proof.
  intros Hplanned Hmg Hjoints. unfold SapienPlanner_init.
  rewrite Hplanned. cbv zeta. rewrite bool_decide_eq_true_2 by done.
  unfold PinocchioModel.get_joint_limits. by rewrite Hjoints.
Qed.

Lemma one_planned w :
  length (get_planned_articulations w) <> 1 \/
  exists robot, get_planned_articulations w = [robot].
Proof.
  destruct (get_planned_articulations w) as [|robot [|other rest]];
    cbn; eauto.
Qed.

Lemma compute_equiv_joint_mask_built types rows :
  types <> [] ->
  (exists mask, compute_equiv_joint_mask types rows = Built mask) <->
  (length types = length rows \/ length types = 1 \/ length rows = 1).
Proof.
  intros Htypes. unfold compute_equiv_joint_mask.
  rewrite broadcast_and_built by by destruct types.
  by rewrite !length_map.
Qed.

Lemma compute_equiv_joint_mask_outcome types rows :
  types <> [] ->
  (exists mask, compute_equiv_joint_mask types rows = Built mask) \/
  compute_equiv_joint_mask types rows = Fails ValueError_broadcast.
Proof.
  intros Htypes. apply broadcast_and_outcome. by destruct types.
Qed.

Lemma lengths_ok_spec v a indices rows :
  lengths_ok v a indices rows = true <->
  length (default_ones v (length indices)) = length indices /\
  length (default_ones a (length indices)) = length indices /\
  length indices <= length rows.
Proof.
  unfold lengths_ok. rewrite !andb_true_iff, !bool_decide_eq_true. lia.
Qed.

(** The conditions under which a planner is built.  Collisions of the
    initial state are not among them. *)
Theorem planner_built_iff w mg v a :
  (exists planner, (SapienPlanner_init w mg v a).2 = Built planner) <->
  exists robot,
    get_planned_articulations w = [robot] /\
    let model := get_pinocchio_model robot in
    let indices := get_move_group_joint_indices robot mg in
    let joints := length (PinocchioModel.joints model) in
    let rows := length (concat (PinocchioModel.get_joint_limits model)) in
    mg ∈ PinocchioModel.link_names model /\
    joints <> 0 /\
    length (default_ones v (length indices)) = length indices /\
    length (default_ones a (length indices)) = length indices /\
    length indices <= rows /\
    (joints = rows \/ joints = 1 \/ rows = 1).
Proof.
  destruct (one_planned w) as [Hn|[robot Hplanned]].
  { rewrite SapienPlanner_init_not_one_planned by done. split.
    - by intros [? [=]].
    - intros (robot & Hplanned & _). by rewrite Hplanned in Hn. }
  destruct (decide (mg ∈ PinocchioModel.link_names (get_pinocchio_model robot)))
    as [Hmg|Hmg].
  2: { rewrite (SapienPlanner_init_no_end_effector _ _ _ _ robot) by done. split.
       - by intros [? [=]].
       - intros (robot' & Hplanned' & Hmg' & _).
         rewrite Hplanned in Hplanned'. by injection Hplanned' as <-. }
  destruct (decide (PinocchioModel.joints (get_pinocchio_model robot) = []))
    as [Hjoints|Hjoints].
  { rewrite (SapienPlanner_init_no_joints _ _ _ _ robot) by done. split.
    - by intros [? [=]].
    - intros (robot' & Hplanned' & _ & Hj & _).
      rewrite Hplanned in Hplanned'. injection Hplanned' as <-.
      by rewrite Hjoints in Hj. }
  destruct (SapienPlanner_init_run w mg v a robot Hplanned Hmg Hjoints)
    as (id & _ & ->). cbn [snd].
  assert (PinocchioModel.get_joint_types (get_pinocchio_model robot) <> [])
    as Htypes.
  { unfold PinocchioModel.get_joint_types. by destruct (PinocchioModel.joints _). }
  pose proof (lengths_ok_spec v a (get_move_group_joint_indices robot mg)
                (concat (PinocchioModel.get_joint_limits (get_pinocchio_model robot))))
    as Hlen.
  pose proof (compute_equiv_joint_mask_built _
                (concat (PinocchioModel.get_joint_limits (get_pinocchio_model robot)))
                Htypes) as Hmask.
  assert (length (PinocchioModel.get_joint_types (get_pinocchio_model robot)) =
          length (PinocchioModel.joints (get_pinocchio_model robot))) as Hn
    by apply length_map.
  rewrite !Hn in Hmask. clear Hn.
  split.
  - intros [planner Hp]. exists robot. split; [done|]. cbv zeta.
    destruct (lengths_ok _ _ _ _); [|done].
    destruct (compute_equiv_joint_mask _ _) as [mask|e]; [|done].
    apply proj1 in Hlen, Hmask.
    specialize (Hlen eq_refl) as (? & ? & ?).
    specialize (Hmask (ex_intro _ mask eq_refl)).
    repeat split; try done. by destruct (PinocchioModel.joints _).
  - intros (robot' & Hplanned' & Hc). rewrite Hplanned in Hplanned'.
    injection Hplanned' as <-. cbv zeta in Hc.
    destruct Hc as (_ & _ & Hv & Ha & Hr & Hb).
    apply proj2 in Hlen, Hmask.
    rewrite Hlen by done. destruct (Hmask Hb) as [mask ->]. by eexists.
Qed.


(** The runs of the constructor, one case per way out of it. *)
Lemma SapienPlanner_init_cases w mg v a
    (P : Build (SapienPlanner.t PlanningWorld AllowedCollisionMatrix) -> Prop) :
  (length (get_planned_articulations w) <> 1 ->
   P ([], Fails NotImplementedError_planned)) ->
  (forall robot,
     get_planned_articulations w = [robot] ->
     mg ∉ PinocchioModel.link_names (get_pinocchio_model robot) ->
     P ([], Fails AssertionError_end_effector)) ->
  (forall robot,
     get_planned_articulations w = [robot] ->
     mg ∈ PinocchioModel.link_names (get_pinocchio_model robot) ->
     PinocchioModel.joints (get_pinocchio_model robot) = [] ->
     P ([Called_set_move_group robot mg], Fails ValueError_concatenate)) ->
  (forall robot,
     get_planned_articulations w = [robot] ->
     mg ∈ PinocchioModel.link_names (get_pinocchio_model robot) ->
     PinocchioModel.joints (get_pinocchio_model robot) <> [] ->
     let model := get_pinocchio_model robot in
     let indices := get_move_group_joint_indices robot mg in
     let rows := concat (PinocchioModel.get_joint_limits model) in
     let warnings := map warn_collision (check_robot_collision w robot mg) in
     (lengths_ok v a indices rows = false ->
      P (Called_set_move_group robot mg :: warnings, Fails AssertionError_limits)) /\
     (lengths_ok v a indices rows = true ->
      compute_equiv_joint_mask (PinocchioModel.get_joint_types model) rows =
        Fails ValueError_broadcast ->
      P (Called_set_move_group robot mg :: warnings, Fails ValueError_broadcast)) /\
     (forall id mask,
        lengths_ok v a indices rows = true ->
        enumerate_dict (PinocchioModel.link_names model) !! mg = Some id ->
        compute_equiv_joint_mask (PinocchioModel.get_joint_types model) rows =
          Built mask ->
        P (Called_set_move_group robot mg :: warnings ++ [Called_OMPLPlanner],
           Built (SapienPlanner.mk _ _ w (acm_ w) robot model
                    (PinocchioModel.get_link_names model)
                    (PinocchioModel.get_joint_names model)
                    (enumerate_dict (PinocchioModel.get_joint_names model))
                    (enumerate_dict (PinocchioModel.get_link_names model))
                    mg indices (PinocchioModel.get_joint_types model) rows
                    (default_ones v (length indices))
                    (default_ones a (length indices)) id mask)))) ->
  P (SapienPlanner_init w mg v a).
Proof.
  intros Hnone Hee Hnj Hrun.
  destruct (one_planned w) as [Hn|[robot Hplanned]].
  { rewrite SapienPlanner_init_not_one_planned by done. auto. }
  destruct (decide (mg ∈ PinocchioModel.link_names (get_pinocchio_model robot)))
    as [Hmg|Hmg].
  2: { rewrite (SapienPlanner_init_no_end_effector _ _ _ _ robot) by done. eauto. }
  destruct (decide (PinocchioModel.joints (get_pinocchio_model robot) = []))
    as [Hjoints|Hjoints].
  { rewrite (SapienPlanner_init_no_joints _ _ _ _ robot) by done. eauto. }
  destruct (SapienPlanner_init_run w mg v a robot Hplanned Hmg Hjoints)
    as (id & Hid & ->).
  specialize (Hrun robot Hplanned Hmg Hjoints). cbv zeta in Hrun.
  destruct Hrun as (Hlim & Hbro & Hok).
  destruct (lengths_ok _ _ _ _); [|rewrite app_nil_r; auto].
  assert (PinocchioModel.get_joint_types (get_pinocchio_model robot) <> [])
    as Htypes.
  { unfold PinocchioModel.get_joint_types. by destruct (PinocchioModel.joints _). }
  destruct (compute_equiv_joint_mask_outcome _
              (concat (PinocchioModel.get_joint_limits (get_pinocchio_model robot)))
              Htypes) as [[mask Hm]|Hm]; rewrite Hm.
  - by apply Hok.
  - rewrite app_nil_r. by apply Hbro.
Qed.

(** Every way out of the constructor, with what it has done by then.  An
    unsuitable number of planned articulations or an unknown end effector
    is found before the robot is touched; a robot without joints after
    its move group is set; the collisions of the initial state are all
    warned about before the lengths are checked, and also when that check
    or the mask then fails; the planner is built last.  No lookup in the
    index maps fails, and the mask is never taken of an empty list. *)
Theorem planner_outcome_and_effects w mg v a :
  let run := SapienPlanner_init w mg v a in
  match run.2 with
  | Built planner =>
      run.1 =
        Called_set_move_group (SapienPlanner.robot planner) mg ::
        (map warn_collision
           (check_robot_collision w (SapienPlanner.robot planner) mg) ++
         [Called_OMPLPlanner])
  | Fails NotImplementedError_planned =>
      length (get_planned_articulations w) <> 1 /\ run.1 = []
  | Fails AssertionError_end_effector =>
      exists robot,
        get_planned_articulations w = [robot] /\
        (mg ∉ PinocchioModel.link_names (get_pinocchio_model robot)) /\
        run.1 = []
  | Fails ValueError_concatenate =>
      exists robot,
        get_planned_articulations w = [robot] /\
        PinocchioModel.joints (get_pinocchio_model robot) = [] /\
        run.1 = [Called_set_move_group robot mg]
  | Fails AssertionError_limits =>
      exists robot,
        get_planned_articulations w = [robot] /\
        lengths_ok v a (get_move_group_joint_indices robot mg)
          (concat (PinocchioModel.get_joint_limits (get_pinocchio_model robot)))
          = false /\
        run.1 =
          Called_set_move_group robot mg ::
          map warn_collision (check_robot_collision w robot mg)
  | Fails ValueError_broadcast =>
      exists robot,
        get_planned_articulations w = [robot] /\
        run.1 =
          Called_set_move_group robot mg ::
          map warn_collision (check_robot_collision w robot mg)
  | Fails TypeError_bitwise_and | Fails (KeyError _) => False
  end.
Proof.
  cbv zeta. apply SapienPlanner_init_cases; cbn [fst snd]; eauto.
  intros robot Hplanned Hmg Hjoints. cbv zeta. repeat split; eauto.
Qed.

(** The two index maps of a planner send a name to the index of its last
    occurrence in the listing they were built from, and have no entry for
    any other name; the link index of the move group is the entry of the
    move group. *)
Theorem name_index_maps_last_occurrence w mg v a planner :
  (SapienPlanner_init w mg v a).2 = Built planner ->
  (forall name i,
     SapienPlanner.joint_name_2_idx planner !! name = Some i <->
     SapienPlanner.user_joint_names planner !! i = Some name /\
     forall j, SapienPlanner.user_joint_names planner !! j = Some name -> j <= i) /\
  (forall name i,
     SapienPlanner.link_name_2_idx planner !! name = Some i <->
     SapienPlanner.user_link_names planner !! i = Some name /\
     forall j, SapienPlanner.user_link_names planner !! j = Some name -> j <= i) /\
  SapienPlanner.move_group planner = mg /\
  SapienPlanner.link_name_2_idx planner !! mg =
    Some (SapienPlanner.move_group_link_id planner) /\
  SapienPlanner.user_link_names planner !! SapienPlanner.move_group_link_id planner =
    Some mg.
Proof.
  revert planner. apply SapienPlanner_init_cases; cbn [snd]; try done.
  intros robot Hplanned Hmg Hjoints. cbv zeta. split_and!; try done.
  intros id mask _ Hid _ planner Heq. injection Heq as <-. cbn.
  split_and!; try done.
  - intros. apply enumerate_dict_lookup.
  - intros. apply enumerate_dict_lookup.
  - by apply (proj1 (enumerate_dict_lookup _ _ _)) in Hid as [? _].
Qed.

(** The limits of a planner: both have one value per joint index of the
    move group, of which there are no more than rows of joint limits; a
    limit that was not given is all ones; the rows are those of the
    joints, in the order of the joints. *)
Theorem planner_limits w mg v a planner :
  (SapienPlanner_init w mg v a).2 = Built planner ->
  let indices := SapienPlanner.move_group_joint_indices planner in
  length (SapienPlanner.joint_vel_limits planner) = length indices /\
  length (SapienPlanner.joint_acc_limits planner) = length indices /\
  length indices <= length (SapienPlanner.joint_limits planner) /\
  SapienPlanner.joint_vel_limits planner =
    default (replicate (length indices) 1%R) v /\
  SapienPlanner.joint_acc_limits planner =
    default (replicate (length indices) 1%R) a /\
  SapienPlanner.joint_limits planner =
    concat (map Joint.limits
              (PinocchioModel.joints (SapienPlanner.pinocchio_model planner))).
Proof.
  revert planner. apply SapienPlanner_init_cases; cbn [snd]; try done.
  intros robot Hplanned Hmg Hjoints. cbv zeta. split_and!; try done.
  all: intros id mask Hlen%lengths_ok_spec _ _ planner [= <-]; cbn.
  all: try by destruct Hlen as (? & ? & ?).
  all: by destruct v, a.
Qed.

Lemma lookup_map {A B} (f : A -> B) (l : list A) : forall i,
  map f l !! i = f <$> l !! i.
Proof. induction l as [|x l IH]; intros [|i]; cbn; auto. Qed.

Lemma Rgtb_true (x y : R) : Rgtb x y = true <-> (x > y)%R.
Proof. unfold Rgtb. by destruct (Rgt_dec x y). Qed.

Lemma broadcast_and_same_length a b :
  length a = length b ->
  broadcast_and a b = Built (zip_with andb a b) \/
  broadcast_and a b = Fails TypeError_bitwise_and.
Proof.
  intros Hlen. unfold broadcast_and. destruct a; [by right|].
  left. by rewrite decide_True.
Qed.

Lemma compute_equiv_joint_mask_pointwise types rows mask :
  compute_equiv_joint_mask types rows = Built mask ->
  length types = length rows ->
  length mask = length types /\
  forall i,
    mask !! i = Some true <->
    exists type lower upper,
      types !! i = Some type /\
      String.prefix "JointModelR" type = true /\
      rows !! i = Some (lower, upper) /\
      (upper - lower > 2 * PI)%R.
Proof.
  unfold compute_equiv_joint_mask. intros Hmask Hlen.
  destruct (broadcast_and_same_length
              (map (String.prefix "JointModelR") types)
              (map (fun row => Rgtb (row.2 - row.1) (2 * PI)) rows)) as [Hb|Hb];
    [by rewrite !length_map| |congruence].
  rewrite Hb in Hmask. injection Hmask as <-. split.
  { rewrite length_zip_with, !length_map. lia. }
  intros i. rewrite lookup_zip_with, !lookup_map.
  destruct (types !! i) as [type|] eqn:Et; cbn.
  2: { split; [done|]. by intros (? & ? & ? & [=] & _). }
  destruct (rows !! i) as [[lower upper]|] eqn:Er; cbn.
  2: { split; [done|]. by intros (? & ? & ? & _ & _ & [=] & _). }
  split.
  - intros [= [Hp Hr%Rgtb_true]%andb_true_iff]. by exists type, lower, upper.
  - intros (? & ? & ? & [= <-] & Hp & [= <- <-] & Hr%Rgtb_true).
    cbn. by rewrite Hp, Hr.
Qed.

(** With as many rows of joint limits as joints, the mask of a planner
    has one entry per joint, and marks exactly the joints whose type
    starts with "JointModelR" and whose range exceeds a full turn. *)
Theorem equiv_joint_mask_marks_unbounded_revolute w mg v a planner :
  (SapienPlanner_init w mg v a).2 = Built planner ->
  length (SapienPlanner.joint_types planner) =
    length (SapienPlanner.joint_limits planner) ->
  length (SapienPlanner.equiv_joint_mask planner) =
    length (SapienPlanner.joint_types planner) /\
  forall i,
    SapienPlanner.equiv_joint_mask planner !! i = Some true <->
    exists type lower upper,
      SapienPlanner.joint_types planner !! i = Some type /\
      String.prefix "JointModelR" type = true /\
      SapienPlanner.joint_limits planner !! i = Some (lower, upper) /\
      (upper - lower > 2 * PI)%R.
Proof.
  revert planner. apply SapienPlanner_init_cases; cbn [snd]; try done.
  intros robot Hplanned Hmg Hjoints. cbv zeta. split_and!; try done.
  intros id mask _ _ Hmask planner [= <-]; cbn.
  by apply compute_equiv_joint_mask_pointwise.
Qed.

End PlannerFacts.

(** ** The constructor of the planning world *)

Section ConstructionFacts.
Context `{Backend}.

Lemma convert_physx_component_none comp :
  convert_physx_component comp = Ok None ->
  PhysxRigidBaseComponent.collision_shapes comp = [].
Proof.
  unfold convert_physx_component. intros Hc.
  destruct (convert_shapes_loop ([], []) _) as [[S P]|e] eqn:Hloop; [|discriminate].
  cbn in Hc.
  apply convert_shapes_loop_ok in Hloop as (gs & ps & -> & -> & Hgs & Hps & _).
  cbn in Hc. destruct (decide (length gs = 0%nat)) as [E|E].
  - rewrite E in Hgs. by destruct (PhysxRigidBaseComponent.collision_shapes comp).
  - by destruct (PhysxRigidBaseComponent.is_link comp).
Qed.

Lemma convert_physx_component_convertible comp :
  convertible comp = true <-> exists r, convert_physx_component comp = Ok r.
Proof.
  unfold convertible. split.
  - apply convert_physx_component_supported.
  - intros [r Hr].
    destruct (forallb supported _) eqn:Hall; [done|].
    unfold convert_physx_component in Hr.
    by rewrite (convert_shapes_loop_unsupported _ _ Hall) in Hr.
Qed.

Lemma convert_physx_component_has_shapes comp r :
  convert_physx_component comp = Ok r ->
  has_shapes comp = bool_decide (is_Some r).
Proof.
  intros Hr. unfold has_shapes. destruct r as [entry|].
  - apply convert_physx_component_some in Hr as [Hne _].
    rewrite bool_decide_eq_true_2 by done. by rewrite bool_decide_eq_true_2.
  - apply convert_physx_component_none in Hr.
    rewrite bool_decide_eq_false_2 by (by intros Hn).
    rewrite bool_decide_eq_false_2; [done|]. by intros [? [=]].
Qed.

(** The collision links of an articulation are the conversions of its
    links that have at least one shape, one entry per such link and in
    the order of the links; a link without shapes is skipped.  They are
    built exactly when every shape of every link is of a known class;
    otherwise the comprehension raises the unknown-shape error. *)
Theorem collision_links_one_per_link_with_shapes
    (links : list PhysxRigidBaseComponent.t) :
  match collision_links links with
  | Ok entries =>
      forallb convertible links = true /\
      Forall2 (fun link entry => convert_physx_component link = Ok (Some entry))
        (filter (fun link => has_shapes link = true) links) entries
  | Raise e =>
      e = TypeError_shape /\ forallb convertible links = false
  end.
Proof.
  induction links as [|link rest IH]; cbn [collision_links].
  { split; [done|]. constructor. }
  destruct (convert_physx_component link) as [r|e] eqn:Hlink; cbn.
  2: { apply convert_physx_component_raises in Hlink as [-> Hall].
       split; [done|]. unfold convertible at 1. by rewrite Hall. }
  assert (convertible link = true) as ->
    by (apply convert_physx_component_convertible; eauto).
  cbn. destruct (collision_links rest) as [others|e]; cbn; [|done].
  destruct IH as [Hall Hrest]. split; [done|].
  rewrite (convert_physx_component_has_shapes _ _ Hlink).
  destruct r as [entry|].
  - rewrite decide_True by (by apply bool_decide_eq_true_2).
    by constructor.
  - rewrite decide_False; [done|]. rewrite bool_decide_eq_false_2; [done|].
    by intros [? [=]].
Qed.


Lemma register_actor_run actor w :
  register_actor actor w =
  match Actor.find_component actor with
  | None => (w, [], Raise AssertionError)
  | Some component =>
      match convert_physx_component component with
      | Ok (Some entry) =>
          (mkWorld (articulation_map w)
                   (<[FCLObject.name entry := entry]> (object_map w))
                   (attached_body_map w) (planned_articulations w) (acm_ w),
           [], Ok tt)
      | Ok None => (w, [], Ok tt)
      | Raise e => (w, [], Raise e)
      end
  end.
Proof.
  unfold register_actor. destruct (Actor.find_component actor) as [component|]; [|done].
  run. by destruct (convert_physx_component component) as [[entry|]|e].
Qed.

Lemma actor_entry_name actor entry :
  own_component actor ->
  actor_entry actor = Some entry ->
  actor_name actor = Ok (FCLObject.name entry) /\
  FCLObject.pose entry = Pose_of (Entity.pose (Actor.entity actor)).
Proof.
  unfold own_component, actor_entry, actor_name. intros Hown Hentry.
  destruct (Actor.find_component actor) as [component|]; [|done].
  destruct (Hown component eq_refl) as [He Hl].
  destruct (convert_physx_component component) as [[entry'|]|e] eqn:Hc; try done.
  injection Hentry as ->.
  apply convert_physx_component_name in Hc as [Hpose Hname].
  rewrite Hl, He in Hname. by rewrite He in Hpose.
Qed.

Lemma register_actors_objects actors : forall w w1 log,
  for_each register_actor actors w = (w1, log, Ok tt) ->
  Forall own_component actors ->
  NoDup (map actor_name actors) ->
  (forall actor, actor ∈ actors -> lookup_object w (Actor.entity actor) = None) ->
  log = [] /\
  articulation_map w1 = articulation_map w /\
  attached_body_map w1 = attached_body_map w /\
  planned_articulations w1 = planned_articulations w /\
  acm_ w1 = acm_ w /\
  (forall actor, actor ∈ actors ->
     lookup_object w1 (Actor.entity actor) = actor_entry actor) /\
  (forall name, Ok name ∉ map actor_name actors ->
     object_map w1 !! name = object_map w !! name).
Proof.
  induction actors as [|actor actors IH]; intros w w1 log Hrun Hown Hnodup Hnew.
  { cbn in Hrun. injection Hrun as <- <-. split_and!; try done.
    by intros actor ?%elem_of_nil. }
  rewrite for_each_cons, register_actor_run in Hrun.
  apply Forall_cons in Hown as [Hown Howns].
  cbn [map] in Hnodup. apply NoDup_cons in Hnodup as [Hfresh Hnodup].
  destruct (convert_entity_name_ok (Actor.entity actor)) as [n Hn].
  pose proof (Hnew actor (list_elem_of_here _ _)) as Hnone.
  unfold lookup_object in Hnone. rewrite Hn in Hnone.
  destruct (Actor.find_component actor) as [component|] eqn:Hfind; [|done].
  destruct (convert_physx_component component) as [[entry|]|e] eqn:Hc; [| |done].
  - (* an entry is stored *)
    assert (actor_entry actor = Some entry) as Hentry
      by (unfold actor_entry; by rewrite Hfind, Hc).
    destruct (actor_entry_name actor entry Hown Hentry) as [Hname _].
    unfold actor_name in Hname, Hfresh. rewrite Hn in Hname, Hfresh.
    injection Hname as Hname. rewrite <- Hname in *. clear Hname.
    match type of Hrun with
    | context [for_each register_actor actors ?w'] =>
        destruct (for_each register_actor actors w') as [[w2 log2] r] eqn:Hrest
    end.
    injection Hrun as -> <- ->.
    apply IH in Hrest as (-> & ? & ? & ? & ? & Hin & Hout); try done.
    2: { intros b Hb. unfold lookup_object.
         destruct (convert_entity_name_ok (Actor.entity b)) as [nb Hnb].
         rewrite Hnb. cbn [object_map]. rewrite lookup_insert_ne.
         - specialize (Hnew b (list_elem_of_further _ _ _ Hb)).
           unfold lookup_object in Hnew. by rewrite Hnb in Hnew.
         - intros ->. apply Hfresh. apply list_elem_of_fmap.
           exists b. by rewrite <- Hnb. }
    split_and!; try done.
    + intros b [->|Hb]%elem_of_cons; [|by apply Hin].
      unfold lookup_object. rewrite Hn, Hentry, (Hout n Hfresh).
      cbn. by rewrite lookup_insert_eq.
    + intros name Hname. rewrite Hout.
      * cbn. rewrite lookup_insert_ne; [done|].
        intros <-. apply Hname. cbn [map]. apply elem_of_cons. left.
        unfold actor_name. by rewrite Hn.
      * intros Hin'. apply Hname. cbn [map]. apply elem_of_cons. by right.
  - (* no shapes: nothing is stored *)
    assert (actor_entry actor = None) as Hentry
      by (unfold actor_entry; by rewrite Hfind, Hc).
    unfold actor_name in Hfresh. rewrite Hn in Hfresh.
    destruct (for_each register_actor actors w) as [[w2 log2] r] eqn:Hrest.
    injection Hrun as -> <- ->.
    apply IH in Hrest as (-> & ? & ? & ? & ? & Hin & Hout); try done.
    2: { intros b Hb. apply Hnew. by right. }
    split_and!; try done.
    + intros b [->|Hb]%elem_of_cons; [|by apply Hin].
      unfold lookup_object. by rewrite Hn, Hentry, (Hout n Hfresh).
    + intros name Hname. apply Hout. intros Hin'. apply Hname.
      cbn [map]. apply elem_of_cons. by right.
Qed.


Lemma register_actor_rejected actor w :
  (register_actor actor w).2 =
  if actor_rejected actor
  then match Actor.find_component actor with
       | Some _ => Raise TypeError_shape
       | None => Raise AssertionError
       end
  else Ok tt.
Proof.
  rewrite register_actor_run. unfold actor_rejected.
  destruct (Actor.find_component actor) as [component|]; [|done].
  destruct (convert_physx_component component) as [r|e] eqn:Hc.
  - assert (convertible component = true) as ->
      by (apply convert_physx_component_convertible; eauto).
    by destruct r.
  - apply convert_physx_component_raises in Hc as [-> Hall].
    unfold convertible. by rewrite Hall.
Qed.

Lemma register_actor_frame actor w :
  (register_actor actor w).1.2 = [] /\
  articulation_map (register_actor actor w).1.1 = articulation_map w /\
  attached_body_map (register_actor actor w).1.1 = attached_body_map w /\
  planned_articulations (register_actor actor w).1.1 = planned_articulations w /\
  acm_ (register_actor actor w).1.1 = acm_ w.
Proof.
  rewrite register_actor_run.
  destruct (Actor.find_component actor) as [component|]; [|done].
  by destruct (convert_physx_component component) as [[entry|]|e].
Qed.

(** The last loop of the constructor warns about nothing and writes
    nothing but collision entries.  It stops at the first actor that has
    no rigid-body component, with the assertion error, or that has a shape
    of no known class, with the unknown-shape error; with no such actor it
    returns. *)
Theorem register_actors_outcome (sim_scene : Scene.t) (w : PlanningWorld) :
  let out := register_actors sim_scene w in
  out.1.2 = [] /\
  out.2 =
    match find actor_rejected (Scene.get_all_actors sim_scene) with
    | Some actor =>
        match Actor.find_component actor with
        | Some _ => Raise TypeError_shape
        | None => Raise AssertionError
        end
    | None => Ok tt
    end /\
  articulation_map out.1.1 = articulation_map w /\
  attached_body_map out.1.1 = attached_body_map w /\
  planned_articulations out.1.1 = planned_articulations w /\
  acm_ out.1.1 = acm_ w.
Proof.
  cbv zeta. unfold register_actors.
  generalize (Scene.get_all_actors sim_scene) as actors.
  intros actors. revert w.
  induction actors as [|actor actors IH]; intros w; [done|].
  rewrite for_each_cons. cbn [find].
  pose proof (register_actor_rejected actor w) as Hr.
  pose proof (register_actor_frame actor w) as (Hlog & Ha & Hb & Hp & Hm).
  destruct (register_actor actor w) as [[w1 log1] r]. cbn in *. subst log1.
  destruct (actor_rejected actor).
  - destruct (Actor.find_component actor); subst r; by cbn.
  - subst r. specialize (IH w1).
    destruct (for_each register_actor actors w1) as [[w2 log2] r2]. cbn in *.
    destruct IH as (-> & -> & -> & -> & -> & ->). by split_and!.
Qed.

Lemma register_actors_accepts actors : forall w w1 log,
  for_each register_actor actors w = (w1, log, Ok tt) ->
  forall actor, actor ∈ actors -> actor_rejected actor = false.
Proof.
  induction actors as [|actor actors IH]; intros w w1 log Hrun b Hb.
  { by apply elem_of_nil in Hb. }
  rewrite for_each_cons in Hrun.
  pose proof (register_actor_rejected actor w) as Hr.
  destruct (register_actor actor w) as [[w' log'] [[]|e]]; [|done].
  destruct (for_each register_actor actors w') as [[w2 log2] r] eqn:Hrest.
  injection Hrun as -> <- ->.
  apply elem_of_cons in Hb as [->|Hb]; [|by eapply IH].
  cbn in Hr. destruct (actor_rejected actor); [|done].
  by destruct (Actor.find_component actor).
Qed.

(** When the last loop of the constructor returns, on actors that are
    presented with their own components and have pairwise different unique
    names, none of which was registered before: every actor has a
    component; one whose component has shapes is registered with the
    conversion of that component, at the pose of the actor; one whose
    component has no shape is not registered; and the entries under other
    names are as before. *)
Theorem register_actors_registers_bodies_with_shapes
    (sim_scene : Scene.t) (w w1 : PlanningWorld) (log : list Effect) :
  register_actors sim_scene w = (w1, log, Ok tt) ->
  Forall own_component (Scene.get_all_actors sim_scene) ->
  NoDup (map actor_name (Scene.get_all_actors sim_scene)) ->
  (forall actor, actor ∈ Scene.get_all_actors sim_scene ->
     lookup_object w (Actor.entity actor) = None) ->
  (forall actor, actor ∈ Scene.get_all_actors sim_scene ->
     exists component,
       Actor.find_component actor = Some component /\
       if has_shapes component
       then exists entry,
              convert_physx_component component = Ok (Some entry) /\
              lookup_object w1 (Actor.entity actor) = Some entry /\
              FCLObject.pose entry = Pose_of (Entity.pose (Actor.entity actor))
       else lookup_object w1 (Actor.entity actor) = None) /\
  (forall name, Ok name ∉ map actor_name (Scene.get_all_actors sim_scene) ->
     object_map w1 !! name = object_map w !! name).
Proof.
  unfold register_actors. intros Hrun Hown Hnodup Hnew.
  pose proof (register_actors_accepts _ _ _ _ Hrun) as Hacc.
  destruct (register_actors_objects _ _ _ _ Hrun Hown Hnodup Hnew)
    as (_ & _ & _ & _ & _ & Hin & Hout).
  split; [|done]. intros actor Hactor.
  specialize (Hin actor Hactor). specialize (Hacc actor Hactor).
  rewrite Forall_forall in Hown. specialize (Hown actor Hactor).
  unfold actor_rejected in Hacc.
  destruct (Actor.find_component actor) as [component|] eqn:Hfind; [|done].
  exists component. split; [done|].
  apply negb_false_iff, convert_physx_component_convertible in Hacc as [r Hr].
  rewrite (convert_physx_component_has_shapes _ _ Hr).
  assert (actor_entry actor = r) as Hentry.
  { unfold actor_entry. rewrite Hfind, Hr. by destruct r. }
  rewrite Hentry in Hin. destruct r as [entry|].
  - rewrite bool_decide_eq_true_2 by done. exists entry. split_and!; try done.
    by apply (actor_entry_name actor entry Hown).
  - rewrite bool_decide_eq_false_2; [done|]. by intros [? [=]].
Qed.


Lemma for_each_fixed {A} (body : A -> M unit) (l : list A) (w : PlanningWorld) :
  (forall x, x ∈ l -> body x w = (w, [], Ok tt)) ->
  for_each body l w = (w, [], Ok tt).
Proof.
  induction l as [|x l IH]; intros Hbody; [done|].
  rewrite for_each_cons, (Hbody x) by left.
  rewrite IH; [done|]. intros y Hy. apply Hbody. by right.
Qed.

Lemma insert_object_id (w : PlanningWorld) (entry : FCLObject.t) :
  object_map w !! FCLObject.name entry = Some entry ->
  mkWorld (articulation_map w)
          (<[FCLObject.name entry := entry]> (object_map w))
          (attached_body_map w) (planned_articulations w) (acm_ w) = w.
Proof. intros Hl. rewrite insert_id by done. by destruct w. Qed.

Lemma sync_actor_fixed flag actor w :
  own_component actor ->
  actor_rejected actor = false ->
  lookup_attached w (Actor.entity actor) = None ->
  lookup_object w (Actor.entity actor) = actor_entry actor ->
  sync_actor flag actor w = (w, [], Ok tt).
Proof.
  intros Hown Hacc Hatt Hobj.
  unfold lookup_attached, lookup_object in *.
  destruct (convert_entity_name_ok (Actor.entity actor)) as [n Hn].
  rewrite Hn in Hatt, Hobj.
  destruct (actor_entry actor) as [entry|] eqn:Hentry.
  - destruct (actor_entry_name actor entry Hown Hentry) as [Hname Hpose].
    unfold actor_name in Hname. rewrite Hn in Hname. injection Hname as ->.
    run. rewrite Hn. cbn. rewrite Hatt. cbn. rewrite Hobj. cbn.
    rewrite <- Hpose.
    replace (FCLObject.mk (FCLObject.name entry) (FCLObject.pose entry)
               (FCLObject.shapes entry) (FCLObject.shape_poses entry))
      with entry by by destruct entry.
    by rewrite insert_object_id.
  - run. rewrite Hn. cbn. rewrite Hatt. cbn. rewrite Hobj. cbn.
    unfold actor_rejected, actor_entry in *.
    destruct (Actor.find_component actor) as [component|]; [|done].
    apply negb_false_iff, convert_physx_component_convertible in Hacc as [r Hr].
    rewrite Hr in Hentry. destruct r as [entry|]; [done|].
    apply convert_physx_component_none in Hr. rewrite Hr. by cbn.
Qed.

(** A world whose objects were registered by the last loop of the
    constructor, from a scene whose articulations all have models, whose
    actors are presented with their own components, have pairwise
    different unique names and were neither registered nor attached
    before: a synchronisation with the same scene returns, warns about
    nothing, and leaves every collision entry and every attached object
    as the constructor stored it. *)
Theorem constructed_world_synchronises_silently
    (sim_scene : Scene.t) (update_attached_object : bool)
    (w w1 : PlanningWorld) (log : list Effect) :
  register_actors sim_scene w = (w1, log, Ok tt) ->
  Forall own_component (Scene.get_all_actors sim_scene) ->
  NoDup (map actor_name (Scene.get_all_actors sim_scene)) ->
  (forall actor, actor ∈ Scene.get_all_actors sim_scene ->
     lookup_object w (Actor.entity actor) = None /\
     lookup_attached w (Actor.entity actor) = None) ->
  (forall articulation, articulation ∈ Scene.get_all_articulations sim_scene ->
     is_Some (lookup_articulation w articulation)) ->
  exists w2,
    update_from_simulation sim_scene update_attached_object w1 = (w2, [], Ok tt) /\
    object_map w2 = object_map w1 /\
    attached_body_map w2 = attached_body_map w1.
Proof.
  unfold register_actors. intros Hrun Hown Hnodup Hnew Harts.
  pose proof (register_actors_accepts _ _ _ _ Hrun) as Hacc.
  destruct (register_actors_objects _ _ _ _ Hrun Hown Hnodup
              (fun actor Hactor => proj1 (Hnew actor Hactor)))
    as (_ & Hart & Hatt & _ & _ & Hin & _).
  destruct (for_each_sync_articulation_ok (Scene.get_all_articulations sim_scene) w1)
    as [w2 Hfirst].
  { intros b Hb. unfold lookup_articulation. rewrite Hart. by apply Harts. }
  pose proof (for_each_sync_articulation_frame
                (Scene.get_all_articulations sim_scene) w1) as (_ & Hobj2 & Hatt2).
  rewrite Hfirst in Hobj2, Hatt2. cbn in Hobj2, Hatt2.
  exists w2. split; [|done].
  unfold update_from_simulation. rewrite (bind_run_ok _ _ _ _ _ _ Hfirst).
  rewrite for_each_fixed; [done|].
  intros actor Hactor. rewrite Forall_forall in Hown.
  apply sync_actor_fixed; auto.
  - unfold lookup_attached. rewrite Hatt2, Hatt. by apply Hnew.
  - unfold lookup_object. rewrite Hobj2. by apply Hin.
Qed.

End ConstructionFacts.

(** ** The arguments of the wrapper methods *)

Section WrapperFacts.
Context `{PlannerBackend}.

Lemma list_index_Some name names i :
  list_index name names = Some i <->
  names !! i = Some name /\ forall j, (j < i)%nat -> names !! j <> Some name.
Proof.
  unfold list_index. split.
  - intros Hfind. apply fmap_Some in Hfind as ([i' x] & Hfind & ->).
    apply list_find_Some in Hfind as (Hi & -> & Hfirst). split; [done|].
    intros j Hj Hname. by apply (Hfirst j name).
  - intros [Hi Hfirst]. apply fmap_Some. exists (i, name). split; [|done].
    apply list_find_Some. split_and!; try done.
    intros j y Hy Hj ->. by apply (Hfirst j).
Qed.

Lemma list_index_None name names :
  list_index name names = None <-> name ∉ names.
Proof.
  unfold list_index. rewrite fmap_None, list_find_None, Forall_forall.
  split.
  - intros Hall Hin. by apply (Hall name).
  - intros Hnot x Hx ->. done.
Qed.

(** The link argument of the attach methods.  A link component is
    resolved, in the model registered under the articulation name, to the
    first index at which the link names of the model hold the name of the
    component; the attribute error is raised exactly when no model is
    registered under the articulation name, the value error exactly when
    the model has no link of that name.  A link index is passed on as it
    is, without a look at the world, whatever its value. *)
Theorem link_argument_first_index
    (w : PlanningWorld) (articulation : string) (link : PhysxRigidBaseComponent.t) :
  match link_argument w articulation (inl link) with
  | Link_id link_id =>
      exists model (i : nat),
        articulation_map w !! articulation = Some model /\
        link_id = Z.of_nat i /\
        let names := PinocchioModel.get_link_names (get_pinocchio_model model) in
        names !! i = Some (PhysxRigidBaseComponent.name link) /\
        forall j, (j < i)%nat -> names !! j <> Some (PhysxRigidBaseComponent.name link)
  | Link_raises AttributeError_get_pinocchio_model =>
      articulation_map w !! articulation = None
  | Link_raises (ValueError_index name) =>
      name = PhysxRigidBaseComponent.name link /\
      exists model,
        articulation_map w !! articulation = Some model /\
        name ∉ PinocchioModel.get_link_names (get_pinocchio_model model)
  end /\
  forall link_id : Z, link_argument w articulation (inr link_id) = Link_id link_id.
Proof.
  split; [|done]. unfold link_argument.
  destruct (articulation_map w !! articulation) as [model|]; [|done].
  destruct (list_index _ _) as [i|] eqn:Hindex.
  - exists model, i. apply list_index_Some in Hindex as [Hi Hfirst]. by split_and!.
  - split; [done|]. exists model. split; [done|]. by apply list_index_None.
Qed.

(** The link index the attach methods resolve a link component to, and
    the entry of the link name in the index map of a planner built on the
    same world for the same robot: one exists exactly when the other
    does; the index of the attach methods is the first occurrence of the
    name, the entry of the planner the last, so the former is no greater
    than the latter; on a robot whose link names are pairwise different
    they are the same. *)
Theorem attach_link_index_agrees_with_planner
    (w : PlanningWorld) (move_group : string)
    (joint_vel_limits joint_acc_limits : option (list R))
    (planner : SapienPlanner.t PlanningWorld AllowedCollisionMatrix)
    (articulation : string) (link : PhysxRigidBaseComponent.t) :
  (SapienPlanner_init w move_group joint_vel_limits joint_acc_limits).2 =
    Built planner ->
  articulation_map w !! articulation = Some (SapienPlanner.robot planner) ->
  let name := PhysxRigidBaseComponent.name link in
  (link_argument w articulation (inl link) = Link_raises (ValueError_index name) <->
   SapienPlanner.link_name_2_idx planner !! name = None) /\
  (forall i : nat,
     link_argument w articulation (inl link) = Link_id (Z.of_nat i) ->
     exists j,
       SapienPlanner.link_name_2_idx planner !! name = Some j /\
       (i <= j)%nat /\
       (NoDup (SapienPlanner.user_link_names planner) -> j = i)).
Proof.
  revert planner. apply SapienPlanner_init_cases; cbn [snd]; try done.
  intros robot Hplanned Hmg Hjoints. cbv zeta. split_and!; try done.
  intros id mask _ _ _ planner [= <-]. cbn. intros Hart.
  unfold link_argument. rewrite Hart.
  set (names := PinocchioModel.get_link_names (get_pinocchio_model robot)).
  set (name := PhysxRigidBaseComponent.name link).
  destruct (list_index name names) as [i|] eqn:Hindex.
  - apply list_index_Some in Hindex as [Hi Hfirst].
    assert (is_Some (enumerate_dict names !! name)) as [j Hj].
    { apply enumerate_dict_is_Some. by eapply list_elem_of_lookup_2. }
    split; [by rewrite Hj|].
    intros i' [= ->%Nat2Z.inj]. exists j. split; [done|].
    apply enumerate_dict_lookup in Hj as [Hj Hlast].
    split; [by apply Hlast|].
    intros Hnodup. by eapply NoDup_lookup.
  - apply list_index_None in Hindex.
    split; [|done]. split; [intros _|done].
    destruct (enumerate_dict names !! name) as [j|] eqn:Hj; [|done].
    apply enumerate_dict_lookup in Hj as [Hj _].
    destruct Hindex. by eapply list_elem_of_lookup_2.
Qed.

(** The name [set_allowed_collision] passes on for an articulation link
    or for the entity of a rigid body is the name of the collision entry
    the conversion builds for that link or that body. *)
Theorem allowed_collision_name_is_entry_name
    (comp : PhysxRigidBaseComponent.t) (entry : FCLObject.t) :
  convert_physx_component comp = Ok (Some entry) ->
  collision_argument_name
    (if PhysxRigidBaseComponent.is_link comp
     then OfLink comp
     else OfEntity (PhysxRigidBaseComponent.entity comp)) =
  Ok (FCLObject.name entry).
Proof.
  intros Hc. apply convert_physx_component_name in Hc as [_ Hname].
  destruct (PhysxRigidBaseComponent.is_link comp); cbn [collision_argument_name].
  - by rewrite Hname.
  - exact Hname.
Qed.

End WrapperFacts.

(** ** Synchronising twice *)

Section Idempotence.
Context `{Backend}.

Lemma refresh_refresh a m : refresh a (refresh a m) = refresh a m.
Proof. by destruct m. Qed.

Lemma sync_articulation_fixed w a m :
  lookup_articulation w a = Some m ->
  refresh a m = m ->
  sync_articulation a w = (w, [], Ok tt).
Proof.
  intros Hm Hfixed.
  destruct (sync_articulation_found w a m Hm) as (name & Hname & ->).
  unfold lookup_articulation in Hm. rewrite Hname in Hm.
  rewrite alter_id; [by destruct w|].
  intros m' Hm'. rewrite Hm in Hm'. by injection Hm' as <-.
Qed.

Lemma for_each_sync_articulation_refreshed l : forall w w1 log,
  for_each sync_articulation l w = (w1, log, Ok tt) ->
  NoDup (map (fun a => convert_object_name (IsArticulation a)) l) ->
  log = [] /\
  forall a, a ∈ l ->
    exists m, lookup_articulation w1 a = Some m /\ refresh a m = m.
Proof.
  induction l as [|x l IH]; intros w w1 log Hrun Hnodup.
  { cbn in Hrun. injection Hrun as <- <-. split; [done|].
    by intros a ?%elem_of_nil. }
  cbn [map] in Hnodup. apply NoDup_cons in Hnodup as [Hfresh Hnodup].
  rewrite for_each_cons in Hrun.
  destruct (lookup_articulation w x) as [m|] eqn:Hm.
  2: { by rewrite (sync_articulation_missing w x Hm) in Hrun. }
  destruct (sync_articulation_found w x m Hm) as (name & Hname & Hstep).
  rewrite Hstep in Hrun.
  match type of Hrun with
  | context [for_each sync_articulation l ?wx] =>
      pose proof (for_each_sync_articulation_other l wx name) as Hother;
      destruct (for_each sync_articulation l wx) as [[w2 log2] r] eqn:Hrest
  end.
  injection Hrun as -> <- ->.
  apply IH in Hrest as [-> Hin]; [|done]. split; [done|].
  intros a [->|Ha]%elem_of_cons; [|by apply Hin].
  exists (refresh x m). split; [|apply refresh_refresh].
  unfold lookup_articulation in Hm |- *. rewrite Hname in Hm, Hfresh |- *.
  cbn in Hother. rewrite Hother.
  - by rewrite lookup_alter_eq, Hm.
  - intros b Hb Hsame. apply Hfresh. rewrite <- Hsame.
    apply list_elem_of_fmap. by exists b.
Qed.

Lemma sync_actor_free flag actor w name :
  convert_object_name (IsEntity (Actor.entity actor)) = Ok name ->
  attached_body_map w !! name = None ->
  sync_actor flag actor w =
  match object_map w !! name with
  | Some entry =>
      (mkWorld (articulation_map w)
         (<[name := FCLObject.mk name (Pose_of (Entity.pose (Actor.entity actor)))
                      (FCLObject.shapes entry) (FCLObject.shape_poses entry)]>
            (object_map w))
         (attached_body_map w) (planned_articulations w) (acm_ w), [], Ok tt)
  | None =>
      match Actor.find_component actor with
      | Some component =>
          (w,
           if decide (0 < length (PhysxRigidBaseComponent.collision_shapes component))%nat
           then [Warning_entity_not_found (Entity.name (Actor.entity actor))]
           else [],
           Ok tt)
      | None => (w, [], Raise AttributeError)
      end
  end.
Proof.
  intros Hname Hatt. run. rewrite Hname. cbn. rewrite Hatt. cbn.
  destruct (object_map w !! name) as [entry|]; cbn; [done|].
  destruct (Actor.find_component actor) as [component|]; cbn; [|done].
  by destruct (decide _).
Qed.

Lemma for_each_sync_actor_idempotent flag l : forall w w1 log,
  for_each (sync_actor flag) l w = (w1, log, Ok tt) ->
  NoDup (map actor_name l) ->
  (forall b, b ∈ l -> lookup_attached w (Actor.entity b) = None) ->
  for_each (sync_actor flag) l w1 = (w1, log, Ok tt).
Proof.
  induction l as [|x l IH]; intros w w1 log Hrun Hnodup Hfree.
  { cbn in Hrun. by injection Hrun as <- <-. }
  cbn [map] in Hnodup. apply NoDup_cons in Hnodup as [Hfresh Hnodup].
  destruct (convert_entity_name_ok (Actor.entity x)) as [n Hn].
  unfold actor_name in Hfresh. rewrite Hn in Hfresh.
  pose proof (Hfree x (list_elem_of_here _ _)) as Hx.
  unfold lookup_attached in Hx. rewrite Hn in Hx.
  assert (forall b, b ∈ l ->
            convert_object_name (IsEntity (Actor.entity b)) <> Ok n) as Hothers.
  { intros b Hb Hsame. apply Hfresh. rewrite <- Hsame.
    apply list_elem_of_fmap. by exists b. }
  rewrite for_each_cons, (sync_actor_free flag x w n Hn Hx) in Hrun.
  rewrite for_each_cons.
  destruct (object_map w !! n) as [entry|] eqn:Hentry.
  - match type of Hrun with
    | context [for_each (sync_actor flag) l ?wx] =>
        pose proof (for_each_sync_actor_other flag l n wx Hothers) as Hobj;
        pose proof (for_each_sync_actor_frame flag l wx) as [(_ & _ & Hdom & _) _];
        destruct (for_each (sync_actor flag) l wx) as [[w2 log2] r] eqn:Hrest
    end.
    injection Hrun as -> <- ->. cbn in Hobj, Hdom.
    rewrite lookup_insert_eq in Hobj.
    assert (attached_body_map w1 !! n = None) as Hatt1.
    { apply not_elem_of_dom. rewrite Hdom. by apply not_elem_of_dom. }
    rewrite (sync_actor_free flag x w1 n Hn Hatt1), Hobj. cbn.
    rewrite insert_id by done.
    replace (mkWorld (articulation_map w1) (object_map w1) (attached_body_map w1)
               (planned_articulations w1) (acm_ w1)) with w1 by by destruct w1.
    apply IH in Hrest; [by rewrite Hrest|done|].
    intros b Hb. unfold lookup_attached. cbn.
    apply (Hfree b). by right.
  - destruct (Actor.find_component x) as [component|] eqn:Hfind; [|done].
    pose proof (for_each_sync_actor_other flag l n w Hothers) as Hobj.
    pose proof (for_each_sync_actor_frame flag l w) as [(_ & _ & Hdom & _) _].
    destruct (for_each (sync_actor flag) l w) as [[w2 log2] r] eqn:Hrest.
    injection Hrun as -> <- ->. cbn in Hobj, Hdom.
    assert (attached_body_map w1 !! n = None) as Hatt1.
    { apply not_elem_of_dom. rewrite Hdom. by apply not_elem_of_dom. }
    rewrite (sync_actor_free flag x w1 n Hn Hatt1), Hobj, Hentry, Hfind.
    apply IH in Hrest; [by rewrite Hrest|done|].
    intros b Hb. apply Hfree. by right.
Qed.

(** Synchronising twice is synchronising once: when a synchronisation
    with a scene whose articulations have pairwise different unique names,
    and whose actors have pairwise different unique names and are not
    attached, returns, a second synchronisation with the same scene
    returns as well, leaves the world exactly as the first one left it, and
    repeats the warnings of the first one. *)
Theorem update_from_simulation_idempotent
    (sim_scene : Scene.t) (update_attached_object : bool)
    (w w1 : PlanningWorld) (log : list Effect) :
  update_from_simulation sim_scene update_attached_object w = (w1, log, Ok tt) ->
  NoDup (map (fun a => convert_object_name (IsArticulation a))
           (Scene.get_all_articulations sim_scene)) ->
  NoDup (map actor_name (Scene.get_all_actors sim_scene)) ->
  (forall actor, actor ∈ Scene.get_all_actors sim_scene ->
     lookup_attached w (Actor.entity actor) = None) ->
  update_from_simulation sim_scene update_attached_object w1 = (w1, log, Ok tt).
Proof.
  unfold update_from_simulation. intros Hrun Harts Hactors Hfree.
  unfold bind in Hrun at 1.
  pose proof (for_each_sync_articulation_frame
                (Scene.get_all_articulations sim_scene) w) as (_ & _ & Hatt).
  destruct (for_each sync_articulation _ w) as [[wa la] [[]|e]] eqn:Hfirst; [|done].
  cbn in Hatt.
  pose proof (for_each_sync_actor_frame update_attached_object
                (Scene.get_all_actors sim_scene) wa) as [_ Hartmap].
  destruct (for_each (sync_actor update_attached_object) _ wa)
    as [[wb lb] r] eqn:Hsecond.
  injection Hrun as -> <- ->. cbn in Hartmap.
  apply for_each_sync_articulation_refreshed in Hfirst as [-> Hrefreshed]; [|done].
  assert (for_each sync_articulation (Scene.get_all_articulations sim_scene) w1 =
          (w1, [], Ok tt)) as Hagain.
  { apply for_each_fixed. intros a Ha.
    destruct (Hrefreshed a Ha) as (m & Hm & Hfixed).
    apply (sync_articulation_fixed w1 a m); [|done].
    unfold lookup_articulation in *. by rewrite Hartmap. }
  rewrite (bind_run_ok _ _ _ _ _ _ Hagain). cbn [app].
  apply for_each_sync_actor_idempotent in Hsecond; [by rewrite Hsecond|done|].
  intros b Hb. unfold lookup_attached. rewrite Hatt. by apply Hfree.
Qed.

End Idempotence.

(** ** Attached objects in a synchronisation *)

Section AttachedPoseFacts.
Local Open Scope R_scope.

Lemma qnorm2_conjugate (a : Quat) : qnorm2 (qconjugate a) = qnorm2 a.
Proof. destruct a. unfold qnorm2, qconjugate. cbn. ring. Qed.

Lemma qnorm2_qmul (a b : Quat) : qnorm2 (qmul a b) = qnorm2 a * qnorm2 b.
Proof. destruct a, b. unfold qnorm2, qmul. cbn. ring. Qed.

Lemma qmul_conjugate_cancel (g e : Quat) :
  qnorm2 g = 1 -> qmul g (qmul (qconjugate g) e) = e.
Proof.
  destruct g as [w x y z], e as [a b c d]. unfold qnorm2, qmul, qconjugate. cbn.
  intros Hn. apply quat_eq.
  - transitivity ((w * w + x * x + y * y + z * z) * a); [ring|rewrite Hn; ring].
  - transitivity ((w * w + x * x + y * y + z * z) * b); [ring|rewrite Hn; ring].
  - transitivity ((w * w + x * x + y * y + z * z) * c); [ring|rewrite Hn; ring].
  - transitivity ((w * w + x * x + y * y + z * z) * d); [ring|rewrite Hn; ring].
Qed.

Lemma qrotate_conjugate_cancel (g : Quat) (u t : Vec3) :
  qnorm2 g = 1 ->
  vadd (qrotate g (vadd (qrotate (qconjugate g) u)
                        (qrotate (qconjugate g) (vscale (-1) t)))) t = u.
Proof.
  destruct g as [w x y z], u as [a b c], t as [d e f].
  unfold qnorm2, qrotate, mat_vec, dot, to_rotation_matrix, qconjugate, vadd, vscale.
  cbn. intros Hn.
  assert (w * w = 1 - x * x - y * y - z * z) as Hw by lra.
  apply vec3_eq; nsatz.
Qed.

Lemma pose_mul_inv_cancel (g e : Pose) :
  qnorm2 (q g) = 1 -> qnorm2 (q e) = 1 ->
  pose_mul g (pose_mul (pose_inv g) e) = e.
Proof.
  destruct g as [pg qg], e as [pe qe]. cbn [p q]. intros Hg He.
  unfold pose_mul, pose_inv, Pose_pq. cbn [p q].
  assert (qnorm2 (qconjugate qg) = 1) as Hc by by rewrite qnorm2_conjugate.
  rewrite (qnormalized_unit (qconjugate qg) Hc).
  assert (qnorm2 (qmul (qconjugate qg) qe) = 1) as Hm.
  { rewrite qnorm2_qmul, Hc, He. ring. }
  rewrite (qnormalized_unit _ Hm), (qmul_conjugate_cancel _ _ Hg).
  rewrite (qnormalized_unit _ He). f_equal.
  by apply qrotate_conjugate_cancel.
Qed.

End AttachedPoseFacts.

Section AttachedObjects.
Context `{Backend}.

Lemma sync_actor_attached_link actor w name body :
  convert_object_name (IsEntity (Actor.entity actor)) = Ok name ->
  attached_body_map w !! name = Some body ->
  sync_actor false actor w =
  (mkWorld (articulation_map w)
     (alter (fun o =>
               FCLObject.mk (FCLObject.name o)
                 (pose_mul (get_attached_link_global_pose (articulation_map w) body)
                    (AttachedBody.pose body))
                 (FCLObject.shapes o) (FCLObject.shape_poses o))
        name (object_map w))
     (attached_body_map w) (planned_articulations w) (acm_ w), [], Ok tt).
Proof.
  intros Hname Hbody. run. rewrite Hname. cbn. rewrite Hbody. cbn.
  by rewrite Hbody.
Qed.

Lemma sync_actor_attached_pose actor w name body :
  convert_object_name (IsEntity (Actor.entity actor)) = Ok name ->
  attached_body_map w !! name = Some body ->
  let attached_pose :=
    pose_mul (pose_inv (get_attached_link_global_pose (articulation_map w) body))
      (Pose_of (Entity.pose (Actor.entity actor))) in
  let body' := AttachedBody.set_pose attached_pose body in
  sync_actor true actor w =
  (mkWorld (articulation_map w)
     (alter (fun o =>
               FCLObject.mk (FCLObject.name o)
                 (pose_mul (get_attached_link_global_pose (articulation_map w) body')
                    attached_pose)
                 (FCLObject.shapes o) (FCLObject.shape_poses o))
        name (object_map w))
     (alter (AttachedBody.set_pose attached_pose) name (attached_body_map w))
     (planned_articulations w) (acm_ w), [], Ok tt).
Proof.
  intros Hname Hbody. cbv zeta. run. rewrite Hname. cbn. rewrite Hbody. cbn.
  rewrite lookup_alter_eq, Hbody. by cbn.
Qed.

(** The attached branch of the synchronisation.  The body of an attached
    actor is never converted and nothing is warned about.  Without the
    pose update, the attachment is kept and the entry of the actor is
    moved to the pose of its link composed with the attached pose.  With
    the pose update, when the pose of the link is a rigid transform that
    does not depend on the attached pose and the simulation pose has a
    quaternion other than zero, the attached pose becomes the pose of the
    actor relative to the link, and the entry of the actor is moved to
    the pose the simulation has it at. *)
Theorem attached_object_follows_simulation
    (w : PlanningWorld) (actor : Actor.t) (body : AttachedBody.t) :
  lookup_attached w (Actor.entity actor) = Some body ->
  let link_pose := get_attached_link_global_pose (articulation_map w) body in
  let simulation_pose := Pose_of (Entity.pose (Actor.entity actor)) in
  let attached_pose := pose_mul (pose_inv link_pose) simulation_pose in
  (exists w',
     sync_actor false actor w = (w', [], Ok tt) /\
     articulation_map w' = articulation_map w /\
     attached_body_map w' = attached_body_map w /\
     lookup_object w' (Actor.entity actor) =
       (fun o => FCLObject.mk (FCLObject.name o)
                   (pose_mul link_pose (AttachedBody.pose body))
                   (FCLObject.shapes o) (FCLObject.shape_poses o))
       <$> lookup_object w (Actor.entity actor)) /\
  (qnorm2 (q link_pose) = 1%R ->
   qnorm2 (sp_q (Entity.pose (Actor.entity actor))) <> 0%R ->
   get_attached_link_global_pose (articulation_map w)
     (AttachedBody.set_pose attached_pose body) = link_pose ->
   exists w',
     sync_actor true actor w = (w', [], Ok tt) /\
     articulation_map w' = articulation_map w /\
     lookup_attached w' (Actor.entity actor) =
       Some (AttachedBody.set_pose attached_pose body) /\
     lookup_object w' (Actor.entity actor) =
       (fun o => FCLObject.mk (FCLObject.name o) simulation_pose
                   (FCLObject.shapes o) (FCLObject.shape_poses o))
       <$> lookup_object w (Actor.entity actor)).
Proof.
  unfold lookup_attached, lookup_object.
  destruct (convert_entity_name_ok (Actor.entity actor)) as [name Hname].
  rewrite Hname. intros Hbody. cbv zeta. split.
  - eexists. rewrite (sync_actor_attached_link actor w name body Hname Hbody).
    split; [done|]. cbn. split_and!; try done. by rewrite lookup_alter_eq.
  - intros Hlink Hsim Hsame. eexists.
    rewrite (sync_actor_attached_pose actor w name body Hname Hbody). cbv zeta.
    split; [done|]. cbn. split_and!; try done.
    + by rewrite lookup_alter_eq, Hbody.
    + rewrite lookup_alter_eq, Hsame, pose_mul_inv_cancel; [done|done|].
      by apply qnorm2_normalized.
Qed.

End AttachedObjects.

(** * Instances on the example scene *)

Section Examples.
Local Open Scope R_scope.
#[local] Existing Instance example_backend.

Example example_link_converts :
  convert_physx_component example_link = Ok (Some example_link_entry).
Proof. reflexivity. Qed.

Lemma capsule_cylinder_height_axis_fixup_witness :
  exists entry,
    convert_physx_component example_link = Ok (Some entry) /\
    (FCLObject.shapes entry !! 0%nat =
       Some (mkCollisionObject (Capsule 1 (2 * 2))) /\
     FCLObject.shape_poses entry !! 0%nat = Some height_axis_fixup) /\
    (FCLObject.shapes entry !! 1%nat =
       Some (mkCollisionObject (Cylinder 3 (4 * 2))) /\
     FCLObject.shape_poses entry !! 1%nat =
       Some (pose_mul (Pose_of sapien_identity) height_axis_fixup)).
Proof.
  pose proof capsule_cylinder_height_axis_fixup as (_ & _ & _ & _ & Hbuilds).
  destruct (Hbuilds example_link) as (entry & Hc & Hentry).
  - discriminate.
  - reflexivity.
  - exists entry. split; [exact Hc|]. split.
    + destruct (proj1 (Hentry 0%nat sapien_identity 1 2) eq_refl)
        as (Hs & _ & Hid).
      split; [exact Hs|]. exact (Hid eq_refl).
    + destruct (proj2 (Hentry 1%nat sapien_identity 3 4) eq_refl)
        as (Hs & Hp & _).
      split; [exact Hs|exact Hp].
Defined.

Lemma convert_physx_component_entries_witness :
  (exists entry,
     convert_physx_component example_link = Ok (Some entry) /\
     length (FCLObject.shapes entry) = 3%nat /\
     length (FCLObject.shape_poses entry) = 3%nat) /\
  convert_physx_component example_shapeless_body = Ok None /\
  convert_physx_component example_unknown_shape_body = Raise TypeError_shape.
Proof.
  split; [|split].
  - destruct (convert_physx_component_entries example_link) as (_ & Hsome & _).
    destruct Hsome as (entry & He & Hs & Hp & _).
    + discriminate.
    + reflexivity.
    + exists entry. repeat split; assumption.
  - destruct (convert_physx_component_entries example_shapeless_body)
      as (Hnone & _).
    apply Hnone. reflexivity.
  - destruct (convert_physx_component_entries example_unknown_shape_body)
      as (_ & _ & Hraise).
    apply Hraise. reflexivity.
Defined.

(** A body with one shape of an unknown class has N = 1 shapes and converts
    to no entry: the conversion raises. *)
Lemma convert_physx_component_unknown_shape :
  length (PhysxRigidBaseComponent.collision_shapes example_unknown_shape_body) = 1%nat /\
  convert_physx_component example_unknown_shape_body = Raise TypeError_shape /\
  ~ exists entry,
      convert_physx_component example_unknown_shape_body = Ok (Some entry).
Proof.
  split; [reflexivity|]. split; [reflexivity|]. intros [entry He]. discriminate.
Qed.

Lemma example_plane_pose_unit : qnorm2 (sp_q example_plane_pose) = 1.
Proof. unfold qnorm2. simpl. lra. Qed.

Lemma example_plane_pose_axis :
  mat_vec (rotation_of (Pose_of example_plane_pose)) e_x = e_z.
Proof.
  unfold Pose_of, Pose_pq, rotation_of. cbn [q].
  rewrite (qnormalized_unit _ example_plane_pose_unit).
  unfold mat_vec, to_rotation_matrix, dot, e_x, e_z. simpl.
  apply vec3_eq; lra.
Qed.

Lemma plane_to_halfspace_witness :
  exists entry,
    convert_physx_component example_ground = Ok (Some entry) /\
    FCLObject.shapes entry !! 0%nat =
      Some (mkCollisionObject (Halfspace e_z 3)) /\
    FCLObject.shape_poses entry !! 0%nat = Some Pose_default /\
    (let n := mat_vec (rotation_of (Pose_of example_plane_pose)) e_x in
     dot n n = 1).
Proof.
  pose proof plane_to_halfspace as (_ & _ & Hunit & _ & Hbuilds).
  destruct (Hbuilds example_ground) as (entry & Hc & Hentry).
  - discriminate.
  - reflexivity.
  - exists entry. split; [exact Hc|].
    destruct (Hentry 0%nat example_plane_pose eq_refl) as (_ & Hp & Hz).
    split; [|split].
    + apply (Hz 3).
      * exact example_plane_pose_axis.
      * reflexivity.
    + exact Hp.
    + apply (Hunit example_plane_pose).
      rewrite example_plane_pose_unit. lra.
Defined.

Lemma convert_object_name_injective_witness :
  exists n1 n2,
    convert_object_name (IsEntity example_box_A) = Ok n1 /\
    convert_object_name (IsEntity example_box_B) = Ok n2 /\
    n1 <> n2.
Proof.
  apply (proj2 (convert_object_name_injective example_scene))
    with (i := 1%nat) (j := 2%nat).
  - apply (bool_decide_unpack _). vm_compute. reflexivity.
  - reflexivity.
  - reflexivity.
  - lia.
Defined.

Example example_unique_names :
  convert_object_name (IsArticulation example_robot) = Ok "robot_7" /\
  convert_object_name (IsEntity example_box_A) = Ok "box_1" /\
  convert_object_name (IsEntity example_box_B) = Ok "box_2".
Proof. repeat split; vm_compute; reflexivity. Qed.

Lemma update_from_simulation_articulations_witness :
  sync_articulation example_robot example_world_empty =
    (example_world_empty, [], Raise (RuntimeError_articulation "robot")) /\
  (exists w1,
     sync_articulation example_robot example_world_robot = (w1, [], Ok tt) /\
     lookup_articulation w1 example_robot =
       Some (ArticulatedModel.set_qpos [1; 2]
               (ArticulatedModel.set_base_pose (Pose_of sapien_identity)
                  example_robot_model))) /\
  (exists w' log,
     update_from_simulation example_scene true example_world_empty =
     (w', log, Raise (RuntimeError_articulation "robot"))) /\
  (exists m,
     lookup_articulation
       (update_from_simulation example_scene true example_world_robot).1.1
       example_robot = Some m /\
     ArticulatedModel.base_pose m = Pose_of sapien_identity /\
     ArticulatedModel.qpos m = [1; 2]).
Proof.
  split; [|split; [|split]].
  - pose proof (update_from_simulation_articulations
                  example_scene true example_world_empty) as (Hmissing & _).
    apply (Hmissing example_world_empty example_robot). reflexivity.
  - pose proof (update_from_simulation_articulations
                  example_scene true example_world_robot) as (_ & Hfound & _).
    apply (Hfound example_world_robot example_robot example_robot_model).
    reflexivity.
  - pose proof (update_from_simulation_articulations
                  example_scene true example_world_empty) as (_ & _ & Hraise & _).
    apply (Hraise [] example_robot []).
    + reflexivity.
    + intros b Hb. by apply elem_of_nil in Hb.
    + reflexivity.
  - pose proof (update_from_simulation_articulations
                  example_scene true example_world_robot) as (_ & _ & _ & Hok).
    apply (Hok) with (pre := []) (post := []).
    + intros b Hb. apply list_elem_of_singleton in Hb. subst b.
      exists example_robot_model. reflexivity.
    + reflexivity.
    + intros b Hb. by apply elem_of_nil in Hb.
Defined.

Example example_synchronisation :
  update_from_simulation example_scene true example_world_robot =
  (example_world_synced,
   [Warning_entity_not_found "box"; Warning_entity_not_found "box"], Ok tt).
Proof. reflexivity. Qed.

Lemma update_from_simulation_never_registers_witness :
  same_membership example_world_robot
    (update_from_simulation example_scene true example_world_robot).1.1 /\
  sync_actor true example_actor_A example_world_robot =
    (example_world_robot, [Warning_entity_not_found "box"], Ok tt) /\
  Warning_entity_not_found "box" ∈
    [Warning_entity_not_found "box"; Warning_entity_not_found "box"].
Proof.
  pose proof (update_from_simulation_never_registers
                example_scene true example_world_robot) as (Hmem & Hstep & Hwarn).
  split; [exact Hmem|]. split.
  - apply (Hstep example_world_robot example_actor_A example_box_component_A).
    + reflexivity.
    + reflexivity.
    + reflexivity.
    + discriminate.
  - apply (Hwarn example_world_synced _ example_actor_A example_box_component_A).
    + reflexivity.
    + apply list_elem_of_here.
    + reflexivity.
    + reflexivity.
    + reflexivity.
    + discriminate.
Defined.

Lemma object_object_dispatch_witness :
  check_collision_between (IsEntity example_box_A) (IsEntity example_box_B)
    example_acm_empty example_world =
  (example_world, [Called_collide example_entry_A example_entry_B],
   Ok [object_object_collision example_entry_A example_entry_B]) /\
  distance_between (IsEntity example_box_A) (IsEntity example_box_B)
    example_acm_empty true example_world =
  (example_world, [Called_distance example_entry_A example_entry_B], Ok (inl 0)) /\
  check_collision_between (IsEntity example_box_A) (IsEntity example_box_B)
    example_acm_always example_world = (example_world, [], Ok []) /\
  distance_between (IsEntity example_box_A) (IsEntity example_box_B)
    example_acm_always true example_world = (example_world, [], Ok (inl (-1))).
Proof.
  pose proof (object_object_dispatch example_world example_box_A example_box_B
                example_acm_empty example_entry_A example_entry_B true
                eq_refl eq_refl) as (Hrun & _).
  pose proof (object_object_dispatch example_world example_box_A example_box_B
                example_acm_always example_entry_A example_entry_B true
                eq_refl eq_refl) as (_ & Hskip & _).
  destruct Hrun as [Hc Hd]; [by left|].
  destruct Hskip as [Hc' Hd']; [intros [?|?]; discriminate|].
  repeat split; assumption.
Defined.

(** A pair marked [NEVER] whose entries collide: the query reports the
    collision, not the empty list. *)
Lemma never_allow_reports_collision :
  get_allowed_collision example_acm_never
    (FCLObject.name example_entry_A) (FCLObject.name example_entry_B) = Some NEVER /\
  is_collision (collide example_entry_A example_entry_B) = true /\
  (check_collision_between (IsEntity example_box_A) (IsEntity example_box_B)
     example_acm_never example_world).2 =
    Ok [object_object_collision example_entry_A example_entry_B] /\
  (check_collision_between (IsEntity example_box_A) (IsEntity example_box_B)
     example_acm_never example_world).2 <> Ok [].
Proof.
  split; [reflexivity|]. split; [reflexivity|]. split; [reflexivity|].
  discriminate.
Qed.

Lemma acm_gating_witness :
  check_collision_between (IsEntity example_box_A) (IsEntity example_box_B)
    example_acm_always example_world = (example_world, [], Ok []) /\
  check_collision_between (IsEntity example_box_A) (IsEntity example_box_B)
    example_acm_never example_world =
  (example_world, [Called_collide example_entry_A example_entry_B],
   Ok [object_object_collision example_entry_A example_entry_B]).
Proof.
  split.
  - pose proof (acm_gating example_world example_box_A example_box_B
                  example_acm_always example_entry_A example_entry_B
                  eq_refl eq_refl eq_refl) as (Hskip & _).
    apply (Hskip ALWAYS); [reflexivity|discriminate].
  - pose proof (acm_gating example_world example_box_A example_box_B
                  example_acm_never example_entry_A example_entry_B
                  eq_refl eq_refl eq_refl) as (_ & Hrun).
    apply Hrun. reflexivity.
Defined.

Lemma unregistered_raises_witness :
  _get_collision_obj (IsEntity example_marker) example_world =
    (example_world, [], Raise (RuntimeError_object "marker")) /\
  check_collision_between (IsEntity example_marker) (IsEntity example_box_A)
    example_acm_empty example_world =
    (example_world, [], Raise (RuntimeError_object "marker")) /\
  distance_between (IsEntity example_box_A) (IsEntity example_marker)
    example_acm_empty true example_world =
    (example_world, [], Raise (RuntimeError_object "marker")).
Proof.
  assert (Hun : ~ registered example_world (IsEntity example_marker)).
  { intros [m Hm]. discriminate. }
  pose proof (unregistered_raises example_world (IsEntity example_marker) "marker"
                eq_refl Hun) as (Hget & Hfirst & Hsecond & _).
  split; [exact Hget|]. split.
  - apply Hfirst. exact true.
  - apply Hsecond. exists example_entry_A. reflexivity.
Defined.

Lemma add_object_without_shapes_witness :
  add_object (inr example_actor_marker) example_world = (example_world, [], Ok tt).
Proof.
  apply (add_object_without_shapes example_world example_actor_marker
           example_shapeless_body);
    reflexivity.
Defined.

Example example_mixed_body_converts :
  convert_physx_component example_mixed_body = Ok (Some example_mixed_entry).
Proof. vm_compute. reflexivity. Qed.

Lemma unrotated_shapes_keep_local_pose_witness :
  FCLObject.shape_poses example_mixed_entry !! 0%nat =
    Some (Pose_of example_plane_pose) /\
  FCLObject.shapes example_mixed_entry !! 0%nat =
    Some (mkCollisionObject (Box (mkVec3 (1 * 2) (2 * 2) (3 * 2)))) /\
  FCLObject.shapes example_mixed_entry !! 1%nat =
    Some (mkCollisionObject (Sphere 5)) /\
  FCLObject.shapes example_mixed_entry !! 3%nat =
    Some (mkCollisionObject (BVH (BVHModel.mk BVH_processed [example_triangle]))).
Proof.
  pose proof (unrotated_shapes_keep_local_pose example_mixed_body example_mixed_entry
                0%nat _ example_mixed_body_converts eq_refl) as (Hpose & Hbox & _).
  pose proof (unrotated_shapes_keep_local_pose example_mixed_body example_mixed_entry
                1%nat _ example_mixed_body_converts eq_refl) as (_ & _ & Hsphere & _).
  pose proof (unrotated_shapes_keep_local_pose example_mixed_body example_mixed_entry
                3%nat _ example_mixed_body_converts eq_refl) as (_ & _ & _ & Hmesh).
  split; [|split; [|split]].
  - apply Hpose. reflexivity.
  - exact (Hbox example_plane_pose (mkVec3 1 2 3) eq_refl).
  - exact (Hsphere sapien_identity 5 eq_refl).
  - exact (Hmesh sapien_identity example_triangle.1 example_triangle.2 eq_refl).
Defined.

Lemma convex_mesh_scaled_per_axis_witness :
  exists scaled,
    FCLObject.shapes example_mixed_entry !! 2%nat =
      Some (mkCollisionObject (Convex scaled example_triangle.2)) /\
    length scaled = 3%nat /\
    scaled !! 1%nat = Some (mkVec3 (1 * 2) (0 * 3) (0 * 4)).
Proof.
  destruct (convex_mesh_scaled_per_axis example_mixed_body example_mixed_entry
              2%nat sapien_identity example_triangle.1 example_triangle.2
              (mkVec3 2 3 4) example_mixed_body_converts eq_refl)
    as (scaled & Hg & Hlen & Hnth & _).
  exists scaled. split; [exact Hg|]. split; [exact Hlen|].
  apply (Hnth 1%nat (mkVec3 1 0 0)). reflexivity.
Defined.

Lemma articulation_argument_order_witness :
  check_collision_between (IsEntity example_box_A) (IsArticulation example_robot)
    example_acm_empty example_world =
  check_collision_between (IsArticulation example_robot) (IsEntity example_box_A)
    example_acm_empty example_world /\
  check_collision_between (IsEntity example_box_A) (IsArticulation example_robot)
    example_acm_empty example_world =
  (example_world,
   [Called_check_collision_with (FCLModel.mk example_robot_model)
      (inr example_entry_A) example_acm_empty], Ok []).
Proof.
  pose proof (articulation_argument_order example_world example_box_A
                example_robot example_acm_empty true) as Horder.
  destruct Horder as (Hc & _ & Hvalue).
  - left. exists example_entry_A. reflexivity.
  - split; [exact Hc|].
    apply (Hvalue example_robot_model example_entry_A); reflexivity.
Defined.

Lemma object_object_outcome_symmetric_witness :
  (check_collision_between (IsEntity example_box_A) (IsEntity example_box_B)
     example_acm_empty example_world).2 = Ok [object_object_collision example_entry_A example_entry_B] /\
  (check_collision_between (IsEntity example_box_B) (IsEntity example_box_A)
     example_acm_empty example_world).2 = Ok [object_object_collision example_entry_B example_entry_A].
Proof.
  pose proof (object_object_outcome_symmetric example_world example_box_A
                example_box_B example_acm_empty example_entry_A example_entry_B
                eq_refl eq_refl eq_refl eq_refl) as (_ & Hrec).
  apply Hrec. discriminate.
Defined.

Lemma add_object_registers_entity_witness :
  exists entry w',
    add_object (inr example_actor_A) example_world_empty = (w', [], Ok tt) /\
    lookup_object w' example_box_A = Some entry /\
    _get_collision_obj (IsEntity example_box_A) w' = (w', [], Ok (inr entry)).
Proof.
  destruct (add_object_registers_entity example_world_empty example_actor_A
              example_box_component_A eq_refl eq_refl eq_refl)
    as (entry & w' & Hrun & _ & _ & Hlook & Hget & _).
  - discriminate.
  - reflexivity.
  - exists entry, w'. repeat split; assumption.
Defined.

Lemma add_object_frame_witness :
  (add_object (inr example_actor_unknown) example_world).1.1 = example_world /\
  (add_object (inr example_actor_unknown) example_world).2 = Raise TypeError_shape.
Proof.
  pose proof (add_object_frame example_world (inr example_actor_unknown))
    as (_ & _ & _ & _ & _ & _ & Hraise).
  destruct (Hraise TypeError_shape eq_refl) as [Hw _].
  split; [exact Hw|reflexivity].
Defined.

Example example_outcomes :
  (update_from_simulation example_scene true example_world_empty).2 =
    Raise (RuntimeError_articulation "robot") /\
  (update_from_simulation example_scene_bare true example_world_robot).2 =
    Raise AttributeError /\
  (update_from_simulation example_scene true example_world_robot).2 = Ok tt.
Proof. repeat split; reflexivity. Qed.

Lemma update_from_simulation_refreshes_object_witness :
  exists w' log,
    update_from_simulation example_scene_moved false example_world = (w', log, Ok tt) /\
    lookup_object w' example_box_A_moved =
      Some (FCLObject.mk "box_1" (Pose_of example_moved_pose)
              (FCLObject.shapes example_entry_A)
              (FCLObject.shape_poses example_entry_A)).
Proof.
  destruct (update_from_simulation example_scene_moved false example_world)
    as [[w' log] r] eqn:Hrun.
  assert (Hr : r = Ok tt).
  { change r with (w', log, r).2. rewrite <- Hrun. reflexivity. }
  subst r. exists w', log. split; [reflexivity|].
  destruct (update_from_simulation_refreshes_object example_scene_moved false
              example_world w' log [] [example_actor_B]
              (Actor.mk example_box_A_moved
                 (Some (PhysxRigidBaseComponent.mk "box" false [example_box_shape]
                          example_box_A_moved)))
              example_entry_A Hrun eq_refl)
    as (name & Hname & Hlook).
  - intros b Hb. apply list_elem_of_singleton in Hb. subst b. discriminate.
  - reflexivity.
  - reflexivity.
  - injection Hname as <-. exact Hlook.
Defined.

Lemma example_world_own_names : stored_under_own_names example_world.
Proof.
  intros n o. cbn [example_world object_map].
  rewrite lookup_insert. case_decide; [subst n; by intros [= <-]|].
  rewrite lookup_singleton_Some. by intros [<- <-].
Qed.

Lemma update_from_simulation_only_refreshes_poses_witness :
  let w' := (update_from_simulation example_scene_moved true example_world).1.1 in
  FCLObject.name <$> (object_map w' !! "box_1") = Some "box_1" /\
  entry_shape_data <$> (object_map w' !! "box_1") =
    Some (entry_shape_data example_entry_A).
Proof.
  cbv zeta.
  destruct (update_from_simulation_only_refreshes_poses example_scene_moved true
              example_world) as ((Hshapes & _) & _ & Hnames).
  destruct (Hnames example_world_own_names) as [_ Hkept].
  split.
  - rewrite (Hkept "box_1"). reflexivity.
  - rewrite (Hshapes "box_1"). reflexivity.
Defined.

#[local] Existing Instance example_planner_backend.

Example example_planner_built :
  SapienPlanner_init example_world_planned "hand" None None =
    ([Called_set_move_group example_robot_model "hand";
      Warning_initial_collision "hand" "link" "robot_7";
      Called_OMPLPlanner],
     Built example_planner).
Proof. reflexivity. Qed.

Example example_planner_failures :
  SapienPlanner_init example_world_robot "hand" None None =
    ([], Fails NotImplementedError_planned) /\
  SapienPlanner_init example_world_planned "wrist" None None =
    ([], Fails AssertionError_end_effector) /\
  SapienPlanner_init example_world_planned "hand" (Some [1%R]) None =
    ([Called_set_move_group example_robot_model "hand";
      Warning_initial_collision "hand" "link" "robot_7"],
     Fails AssertionError_limits).
Proof. split; [reflexivity|]. split; reflexivity. Qed.

Lemma example_planner_run :
  (SapienPlanner_init example_world_planned "hand" None None).2 =
    Built example_planner.
Proof. reflexivity. Qed.

Lemma name_index_maps_last_occurrence_witness :
  (SapienPlanner_init example_world_planned "hand" None None).2 =
    Built example_planner /\
  SapienPlanner.user_link_names example_planner
    !! SapienPlanner.move_group_link_id example_planner = Some "hand".
Proof.
  split; [exact example_planner_run|].
  destruct (name_index_maps_last_occurrence example_world_planned "hand"
              None None example_planner example_planner_run) as (_ & _ & _ & _ & Hid).
  exact Hid.
Defined.

Lemma planner_limits_witness :
  (SapienPlanner_init example_world_planned "hand" None None).2 =
    Built example_planner /\
  SapienPlanner.joint_vel_limits example_planner = [1; 1]%R /\
  SapienPlanner.joint_acc_limits example_planner = [1; 1]%R.
Proof.
  split; [exact example_planner_run|].
  destruct (planner_limits example_world_planned "hand"
              None None example_planner example_planner_run) as (_ & _ & _ & Hv & Ha & _).
  split; [exact Hv | exact Ha].
Defined.

Lemma equiv_joint_mask_marks_unbounded_revolute_witness :
  (SapienPlanner_init example_world_planned "hand" None None).2 =
    Built example_planner /\
  length (SapienPlanner.joint_types example_planner) =
    length (SapienPlanner.joint_limits example_planner) /\
  SapienPlanner.equiv_joint_mask example_planner !! 0%nat = Some true.
Proof.
  split; [exact example_planner_run|]. split; [reflexivity|].
  assert (length (SapienPlanner.joint_types example_planner) =
          length (SapienPlanner.joint_limits example_planner)) as Hlen
    by reflexivity.
  destruct (equiv_joint_mask_marks_unbounded_revolute example_world_planned
              "hand" None None example_planner example_planner_run Hlen) as [_ Hmask].
  apply Hmask. exists "JointModelRZ", (-5)%R, 5%R.
  split; [reflexivity|]. split; [reflexivity|].
  split; [reflexivity|].
  pose proof PI_4. lra.
Defined.

Lemma example_actors_own_components :
  Forall own_component (Scene.get_all_actors example_scene).
Proof.
  rewrite Forall_forall. intros actor Hin component Hfind.
  repeat (apply elem_of_cons in Hin as [->|Hin];
          [injection Hfind as <-; split; reflexivity|]).
  by apply elem_of_nil in Hin.
Qed.

Lemma example_actors_unique_names :
  NoDup (map actor_name (Scene.get_all_actors example_scene)).
Proof.
  unfold example_scene. cbn [Scene.get_all_actors map].
  repeat (apply NoDup_cons; split); [..|apply NoDup_nil].
  all: rewrite ?not_elem_of_cons; split_and?; try apply not_elem_of_nil.
  all: try done.
  all: intros Hname; vm_compute in Hname; discriminate.
Qed.

Lemma example_actors_new (actor : Actor.t) :
  actor ∈ Scene.get_all_actors example_scene ->
  lookup_object example_world_robot (Actor.entity actor) = None /\
  lookup_attached example_world_robot (Actor.entity actor) = None.
Proof. intros _. split; reflexivity. Qed.

Lemma example_registration_returns :
  (register_actors example_scene example_world_robot).2 = Ok tt.
Proof. reflexivity. Qed.

Example example_registration_failures :
  (register_actors example_scene_bare example_world_robot).2 = Raise AssertionError /\
  (register_actors (Scene.mk [] [example_actor_A; example_actor_unknown])
     example_world_robot).2 = Raise TypeError_shape.
Proof. split; reflexivity. Qed.

Lemma register_actors_registers_bodies_with_shapes_witness :
  exists w1 log,
    register_actors example_scene example_world_robot = (w1, log, Ok tt) /\
    lookup_object w1 example_marker = None /\
    object_map w1 !! "robot_7" = None.
Proof.
  destruct (register_actors example_scene example_world_robot)
    as [[w1 log] r] eqn:Hrun.
  assert (Hr : r = Ok tt).
  { change r with (w1, log, r).2. rewrite <- Hrun.
    exact example_registration_returns. }
  subst r. exists w1, log. split; [reflexivity|].
  destruct (register_actors_registers_bodies_with_shapes example_scene
              example_world_robot w1 log Hrun example_actors_own_components
              example_actors_unique_names
              (fun actor Hactor => proj1 (example_actors_new actor Hactor)))
    as [Hin Hout].
  split.
  - destruct (Hin example_actor_marker) as (component & Hfind & Hentry).
    { apply elem_of_cons; right. apply elem_of_cons; right. apply elem_of_cons; by left. }
    injection Hfind as <-. exact Hentry.
  - rewrite Hout; [reflexivity|].
    unfold example_scene. cbn [Scene.get_all_actors map].
    rewrite !not_elem_of_cons. split_and!; try apply not_elem_of_nil.
    all: intros Hname; vm_compute in Hname; discriminate.
Defined.

Lemma constructed_world_synchronises_silently_witness :
  exists w1 log w2,
    register_actors example_scene example_world_robot = (w1, log, Ok tt) /\
    update_from_simulation example_scene true w1 = (w2, [], Ok tt) /\
    object_map w2 = object_map w1.
Proof.
  destruct (register_actors example_scene example_world_robot)
    as [[w1 log] r] eqn:Hrun.
  assert (Hr : r = Ok tt).
  { change r with (w1, log, r).2. rewrite <- Hrun.
    exact example_registration_returns. }
  subst r.
  destruct (constructed_world_synchronises_silently example_scene true
              example_world_robot w1 log Hrun example_actors_own_components
              example_actors_unique_names example_actors_new)
    as (w2 & Hsync & Hobj & _).
  - intros articulation Hin. apply list_elem_of_singleton in Hin. subst articulation.
    by eexists.
  - exists w1, log, w2. by split_and!.
Defined.

Lemma example_link_names_unique :
  NoDup (SapienPlanner.user_link_names example_planner).
Proof.
  cbn [SapienPlanner.user_link_names example_planner].
  repeat (apply NoDup_cons; split); [..|apply NoDup_nil].
  all: rewrite ?not_elem_of_cons; split_and?; try apply not_elem_of_nil.
  all: try done.
Qed.

Example example_link_arguments :
  link_argument example_world_planned "robot_7" (inl example_link) = Link_id 1 /\
  link_argument example_world_planned "robot" (inl example_link) =
    Link_raises AttributeError_get_pinocchio_model /\
  link_argument example_world_planned "robot_7" (inl example_box_component_A) =
    Link_raises (ValueError_index "box") /\
  link_argument example_world_planned "robot" (inr (-1)%Z) = Link_id (-1).
Proof. split; [reflexivity|]. split; [reflexivity|]. split; reflexivity. Qed.

Lemma attach_link_index_agrees_with_planner_witness :
  link_argument example_world_planned "robot_7" (inl example_link) = Link_id 1 /\
  SapienPlanner.link_name_2_idx example_planner !! "link" = Some 1%nat.
Proof.
  assert (link_argument example_world_planned "robot_7" (inl example_link) =
          Link_id (Z.of_nat 1)) as Hlink by reflexivity.
  split; [exact Hlink|].
  destruct (attach_link_index_agrees_with_planner example_world_planned "hand"
              None None example_planner "robot_7" example_link
              example_planner_run eq_refl) as [_ Hsame].
  destruct (Hsame 1%nat Hlink) as (j & Hj & _ & Hunique).
  rewrite <- (Hunique example_link_names_unique). exact Hj.
Defined.

Lemma allowed_collision_name_is_entry_name_witness :
  collision_argument_name (OfEntity example_box_A) = Ok "box_1" /\
  collision_argument_name (OfLink example_link) = Ok "link".
Proof.
  split.
  - exact (allowed_collision_name_is_entry_name example_box_component_A
             (FCLObject.mk "box_1" (Pose_of sapien_identity)
                [mkCollisionObject (Box (mkVec3 (1 * 2) (1 * 2) (1 * 2)))]
                [Pose_of sapien_identity])
             eq_refl).
  - exact (allowed_collision_name_is_entry_name example_link example_link_entry
             eq_refl).
Defined.

Lemma example_moved_actors_unique_names :
  NoDup (map actor_name (Scene.get_all_actors example_scene_moved)).
Proof.
  unfold example_scene_moved. cbn [Scene.get_all_actors map].
  repeat (apply NoDup_cons; split); [..|apply NoDup_nil].
  all: rewrite ?not_elem_of_cons; split_and?; try apply not_elem_of_nil.
  all: try done.
  all: intros Hname; vm_compute in Hname; discriminate.
Qed.

Lemma example_moved_articulations_unique_names :
  NoDup (map (fun a => convert_object_name (IsArticulation a))
           (Scene.get_all_articulations example_scene_moved)).
Proof.
  unfold example_scene_moved. cbn [Scene.get_all_articulations map].
  apply NoDup_singleton.
Qed.

Lemma update_from_simulation_idempotent_witness :
  exists w1 log,
    update_from_simulation example_scene_moved false example_world = (w1, log, Ok tt) /\
    update_from_simulation example_scene_moved false w1 = (w1, log, Ok tt).
Proof.
  destruct (update_from_simulation example_scene_moved false example_world)
    as [[w1 log] r] eqn:Hrun.
  assert (Hr : r = Ok tt).
  { change r with (w1, log, r).2. rewrite <- Hrun. reflexivity. }
  subst r. exists w1, log. split; [reflexivity|].
  apply (update_from_simulation_idempotent example_scene_moved false
           example_world w1 log Hrun
           example_moved_articulations_unique_names
           example_moved_actors_unique_names).
  intros actor _. reflexivity.
Defined.

Lemma attached_object_follows_simulation_witness :
  exists w',
    sync_actor true
      (Actor.mk example_box_A_moved
         (Some (PhysxRigidBaseComponent.mk "box" false [example_box_shape]
                  example_box_A_moved)))
      example_world_attached = (w', [], Ok tt) /\
    lookup_object w' example_box_A_moved =
      Some (FCLObject.mk "box_1" (Pose_of example_moved_pose)
              (FCLObject.shapes example_entry_A)
              (FCLObject.shape_poses example_entry_A)).
Proof.
  assert (qnorm2 qidentity = 1%R) as Hunit
    by (unfold qnorm2, qidentity; cbn; lra).
  assert (qnorm2 qidentity <> 0%R) as Hnonzero by (rewrite Hunit; lra).
  destruct (attached_object_follows_simulation example_world_attached
              (Actor.mk example_box_A_moved
                 (Some (PhysxRigidBaseComponent.mk "box" false [example_box_shape]
                          example_box_A_moved)))
              example_attached_box eq_refl) as [_ Hpose].
  destruct (Hpose Hunit Hnonzero eq_refl) as (w' & Hrun & _ & _ & Hobject).
  exists w'. split; [exact Hrun|]. exact Hobject.
Defined.

End Examples.
